(** * The docker-archive tar writer ([docker/internal/tarfile/writer.go])

    A shallow embedding of the [Writer] of the docker-archive transport and
    of the library operations it calls, followed by the properties of the
    writer that its specification states.

    Go values are modelled as follows: a Go [string] is a [string] (a
    sequence of bytes), a [[]byte] is a [list byte], an [int64] is a [Z],
    a Go map is a [gmap], an [error] is an [option error] ([None] is
    [nil]), and a possibly-[nil] slice is a [slice]. *)

From Stdlib Require Import ZArith Ascii String List Bool Lia DecimalString DecimalPos.
From Stdlib.Strings Require Byte.
From stdpp Require Import gmap strings list.

Local Open Scope string_scope.
Local Open Scope list_scope.
Local Open Scope Z_scope.

(** ** Bytes and strings *)

Abbreviation byte := Byte.byte.

(** [[]byte(s)] and [string(b)]. *)
Definition bytes_of_string (s : string) : list byte := list_byte_of_string s.
Definition string_of_bytes (b : list byte) : string := string_of_list_byte b.

(** [len(b)] as an [int]. *)
Definition len {A} (l : list A) : Z := Z.of_nat (length l).

Definition Zascii (c : ascii) : Z := Z.of_nat (nat_of_ascii c).
Definition asciiZ (z : Z) : ascii := ascii_of_nat (Z.to_nat z).

(** The quote character. *)
Definition dquote : ascii := ascii_of_nat 34.

Definition chars (s : string) : list ascii := list_ascii_of_string s.
Definition unchars (l : list ascii) : string := string_of_list_ascii l.

Definition hexdigit (z : Z) : ascii :=
  if z <? 10 then asciiZ (48 + z) else asciiZ (87 + z).

(** Value of a hexadecimal digit, of either case. *)
Definition unhex (c : ascii) : option Z :=
  let z := Zascii c in
  if (48 <=? z) && (z <=? 57) then Some (z - 48)
  else if (97 <=? z) && (z <=? 102) then Some (z - 87)
  else if (65 <=? z) && (z <=? 70) then Some (z - 55)
  else None.

(** ** [crypto/sha256] *)

Module sha256.

Definition mask32 : Z := Z.ones 32.
Definition add32 (a b : Z) : Z := Z.land (a + b) mask32.
Definition rotr (n x : Z) : Z :=
  Z.lor (Z.shiftr x n) (Z.land (Z.shiftl x (32 - n)) mask32).
Definition not32 (x : Z) : Z := Z.lxor x mask32.

Definition Ch (x y z : Z) : Z := Z.lxor (Z.land x y) (Z.land (not32 x) z).
Definition Maj (x y z : Z) : Z :=
  Z.lxor (Z.lxor (Z.land x y) (Z.land x z)) (Z.land y z).
Definition Sigma0 (x : Z) : Z := Z.lxor (Z.lxor (rotr 2 x) (rotr 13 x)) (rotr 22 x).
Definition Sigma1 (x : Z) : Z := Z.lxor (Z.lxor (rotr 6 x) (rotr 11 x)) (rotr 25 x).
Definition sigma0 (x : Z) : Z := Z.lxor (Z.lxor (rotr 7 x) (rotr 18 x)) (Z.shiftr x 3).
Definition sigma1 (x : Z) : Z := Z.lxor (Z.lxor (rotr 17 x) (rotr 19 x)) (Z.shiftr x 10).

(** Big-endian value of a sequence of hexadecimal digits. *)
Definition word_of_hex (l : list ascii) : Z :=
  fold_left (fun acc c => 16 * acc + default 0 (unhex c)) l 0.

(** The words of a table written as space-separated hexadecimal numbers. *)
Fixpoint table (cur : list ascii) (l : list ascii) : list Z :=
  match l with
  | [] => match cur with [] => [] | _ => [word_of_hex (rev cur)] end
  | c :: l' =>
      if Ascii.eqb c " "%char then word_of_hex (rev cur) :: table [] l'
      else table (c :: cur) l'
  end.

Definition init : list Z :=
  Eval vm_compute in table [] (chars
    "6a09e667 bb67ae85 3c6ef372 a54ff53a 510e527f 9b05688c 1f83d9ab 5be0cd19").

Definition K : list Z :=
  Eval vm_compute in table [] (chars
    ("428a2f98 71374491 b5c0fbcf e9b5dba5 3956c25b 59f111f1 923f82a4 ab1c5ed5 " +:+
     "d807aa98 12835b01 243185be 550c7dc3 72be5d74 80deb1fe 9bdc06a7 c19bf174 " +:+
     "e49b69c1 efbe4786 0fc19dc6 240ca1cc 2de92c6f 4a7484aa 5cb0a9dc 76f988da " +:+
     "983e5152 a831c66d b00327c8 bf597fc7 c6e00bf3 d5a79147 06ca6351 14292967 " +:+
     "27b70a85 2e1b2138 4d2c6dfc 53380d13 650a7354 766a0abb 81c2c92e 92722c85 " +:+
     "a2bfe8a1 a81a664b c24b8b70 c76c51a3 d192e819 d6990624 f40e3585 106aa070 " +:+
     "19a4c116 1e376c08 2748774c 34b0bcb5 391c0cb3 4ed8aa4a 5b9cca4f 682e6ff3 " +:+
     "748f82ee 78a5636f 84c87814 8cc70208 90befffa a4506ceb bef9a3f7 c67178f2")).

(** Padding: a [0x80] byte, zeros up to 56 modulo 64, and the bit length
    as a 64-bit big-endian number. *)
Definition be_bytes (n : nat) (x : Z) : list Z :=
  map (fun i => Z.land (Z.shiftr x (8 * Z.of_nat i)) 255) (rev (seq 0 n)).

Definition pad (msg : list Z) : list Z :=
  let l := len msg in
  let zeros := Z.to_nat ((55 - l) mod 64) in
  msg ++ [128] ++ repeat 0 zeros ++ be_bytes 8 (8 * l).

Fixpoint be_words (fuel : nat) (l : list Z) : list Z :=
  match fuel, l with
  | S fuel, a :: b :: c :: d :: l' =>
      (Z.shiftl a 24 + Z.shiftl b 16 + Z.shiftl c 8 + d) :: be_words fuel l'
  | _, _ => []
  end.

(** The message schedule; [recent] holds the words computed so far, the
    latest first. *)
Fixpoint schedule (n : nat) (recent : list Z) : list Z :=
  match n with
  | O => rev recent
  | S n =>
      let w := add32 (add32 (sigma1 (nth 1 recent 0)) (nth 6 recent 0))
                     (add32 (sigma0 (nth 14 recent 0)) (nth 15 recent 0)) in
      schedule n (w :: recent)
  end.

Record regs := Regs { ra : Z; rb : Z; rc : Z; rd : Z; re : Z; rf : Z; rg : Z; rh : Z }.

Definition round (s : regs) (kw : Z * Z) : regs :=
  let '(Regs a b c d e f g h) := s in
  let t1 := add32 (add32 (add32 h (Sigma1 e)) (add32 (Ch e f g) (fst kw))) (snd kw) in
  let t2 := add32 (Sigma0 a) (Maj a b c) in
  Regs (add32 t1 t2) a b c (add32 d t1) e f g.

Definition block (s : regs) (blk : list Z) : regs :=
  let w := schedule 48 (rev (be_words 16 blk)) in
  let '(Regs a b c d e f g h) := fold_left round (combine K w) s in
  Regs (add32 (ra s) a) (add32 (rb s) b) (add32 (rc s) c) (add32 (rd s) d)
       (add32 (re s) e) (add32 (rf s) f) (add32 (rg s) g) (add32 (rh s) h).

Fixpoint blocks (fuel : nat) (s : regs) (l : list Z) : regs :=
  match fuel, l with
  | S fuel, _ :: _ => blocks fuel (block s (firstn 64 l)) (skipn 64 l)
  | _, _ => s
  end.

Definition regs0 : regs :=
  match init with
  | [a; b; c; d; e; f; g; h] => Regs a b c d e f g h
  | _ => Regs 0 0 0 0 0 0 0 0
  end.

(** [sha256.Sum256], as the 32 bytes of the digest. *)
Definition Sum256 (msg : list Z) : list Z :=
  let p := pad msg in
  let '(Regs a b c d e f g h) := blocks (length p) regs0 p in
  flat_map (be_bytes 4) [a; b; c; d; e; f; g; h].

End sha256.

(** [hex.EncodeToString]. *)
Definition hex_encode (l : list Z) : string :=
  unchars (flat_map (fun b => [hexdigit (Z.shiftr b 4); hexdigit (Z.land b 15)]) l).

Definition sha256_hex (s : string) : string :=
  hex_encode (sha256.Sum256 (map Zascii (chars s))).

(** ** Errors and panics *)

(** Go [error] values. [Errorf] stands for [errors.New], [errors.Errorf] and
    [fmt.Errorf] with the message already formatted, except that the two
    formatted errors this package builds keep their arguments. *)
Inductive error : Type :=
| Errorf (msg : string)
| ErrSizeMismatch (path : string) (expected got : Z)
| Wrap (cause : error) (msg : string)
| ErrWriteTooLong
| ErrMissedWriting (n : Z)
| ErrHeader (why : string)
| ErrShortWrite
| ErrDestination
| ErrRead (msg : string)
| ErrJSONSyntax
| ErrJSONType (what : string).

Inductive panic : Type :=
| NoSeparatorInDigest (d : string).

(** The result of a call that may panic instead of returning. *)
Inductive outcome (A : Type) : Type :=
| Ret (a : A)
| Panic (p : panic).
Arguments Ret {A} a.
Arguments Panic {A} p.

(** A Go slice, which may be [nil]. *)
Inductive slice (A : Type) : Type :=
| Nil
| Slice (l : list A).
Arguments Nil {A}.
Arguments Slice {A} l.

Definition elems {A} (s : slice A) : list A :=
  match s with Nil => [] | Slice l => l end.

(** [append(s, x)]: never [nil]. *)
Definition append {A} (s : slice A) (x : A) : slice A := Slice (elems s ++ [x]).

(** ** [github.com/opencontainers/go-digest] *)

Module digest.

(** [type Digest string] *)
Abbreviation Digest := string (only parsing).

Definition String (d : Digest) : string := d.

(** [strings.Index(s, ":")], [None] for [-1]. *)
Fixpoint sepIndex (s : string) : option nat :=
  match s with
  | EmptyString => None
  | String.String c s' =>
      if Ascii.eqb c ":"%char then Some O else S <$> sepIndex s'
  end.

(** [d[i:]] *)
Fixpoint from (i : nat) (s : string) : string :=
  match i, s with
  | S i, String.String _ s' => from i s'
  | _, _ => s
  end.

(** [Digest.Hex] (also named [Encoded]): [d[d.sepIndex()+1:]], where
    [sepIndex] panics when the digest has no [':']. *)
Definition Hex (d : Digest) : outcome string :=
  match sepIndex d with
  | None => Panic (NoSeparatorInDigest d)
  | Some i => Ret (from (S i) d)
  end.

(** [digest.Canonical.FromString]: the canonical algorithm is SHA-256
    and the digest is [fmt.Sprintf("%s:%s", alg, hex)]. *)
Definition FromString (s : string) : Digest := "sha256:" +:+ sha256_hex s.

End digest.

(** ** [path/filepath] (Unix) *)

Module filepath.

Fixpoint split (cur : list ascii) (l : list ascii) : list (list ascii) :=
  match l with
  | [] => [rev cur]
  | c :: l' =>
      if Ascii.eqb c "/"%char then rev cur :: split [] l'
      else split (c :: cur) l'
  end.

(** One component of the path against the components kept so far (the
    latest first): empty and [.] components vanish, [..] removes the
    previous component when there is one that is not itself [..], is
    dropped at the root, and is kept otherwise. *)
Definition component (rooted : bool) (kept : list string) (c : string) : list string :=
  if String.eqb c "" || String.eqb c "." then kept
  else if String.eqb c ".." then
    match kept with
    | top :: kept' => if String.eqb top ".." then c :: kept else kept'
    | [] => if rooted then kept else [c]
    end
  else c :: kept.

Fixpoint concat_sep (l : list string) : string :=
  match l with
  | [] => ""
  | [c] => c
  | c :: l' => c +:+ "/" +:+ concat_sep l'
  end.

(** [filepath.Clean] *)
Definition Clean (path : string) : string :=
  let rooted := match path with String.String "/" _ => true | _ => false end in
  let kept := fold_left (component rooted) (map unchars (split [] (chars path))) [] in
  match rooted, kept with
  | true, _ => "/" +:+ concat_sep (rev kept)
  | false, [] => "."
  | false, _ => concat_sep (rev kept)
  end.

(** [filepath.Join]: the elements from the first non-empty one on,
    separated by [/], then cleaned; [""] when all are empty. *)
Fixpoint Join (elem : list string) : string :=
  match elem with
  | [] => ""
  | e :: elem' =>
      if String.eqb e "" then Join elem' else Clean (concat_sep elem)
  end.

End filepath.

Arguments filepath.Join : simpl never.
Arguments filepath.Clean : simpl never.

(** ** [time] and [os] *)

Module time.

(** A [time.Time], as seconds and nanoseconds since the Unix epoch. *)
Record Time := { sec : Z; nsec : Z }.

(** [time.Unix(sec, nsec)], which brings [nsec] into [0, 1e9). *)
Definition Unix (s n : Z) : Time :=
  {| sec := s + n / 1000000000; nsec := n mod 1000000000 |}.

Definition epoch : Time := {| sec := 0; nsec := 0 |}.

End time.

Module os.

(** [os.FileMode], a [uint32]. *)
Abbreviation FileMode := Z (only parsing).

Definition ModeDir : Z := Z.shiftl 1 31.
Definition ModeSymlink : Z := Z.shiftl 1 27.
Definition ModeDevice : Z := Z.shiftl 1 26.
Definition ModeNamedPipe : Z := Z.shiftl 1 25.
Definition ModeSocket : Z := Z.shiftl 1 24.
Definition ModeSetuid : Z := Z.shiftl 1 23.
Definition ModeSetgid : Z := Z.shiftl 1 22.
Definition ModeCharDevice : Z := Z.shiftl 1 21.
Definition ModeSticky : Z := Z.shiftl 1 20.
Definition ModeIrregular : Z := Z.shiftl 1 19.

Definition ModeType : Z :=
  fold_right Z.lor 0
    [ModeDir; ModeSymlink; ModeNamedPipe; ModeSocket; ModeDevice; ModeCharDevice; ModeIrregular].

Definition ModePerm : Z := 0x1ff.

Definition Perm (m : Z) : Z := Z.land m ModePerm.
Definition IsRegular (m : Z) : bool := Z.land m ModeType =? 0.
Definition has (m bit : Z) : bool := negb (Z.land m bit =? 0).

(** The methods of [os.FileInfo]. [Sys] is the header a [FileInfo] made
    from a tar header carries; everything else has [Sys() = nil]. *)
Class FileInfo (T : Type) := {
  Name : T -> string;
  Size : T -> Z;
  Mode : T -> Z;
  ModTime : T -> time.Time;
  IsDir : T -> bool;
  Sys : T -> option unit
}.

End os.

(** ** [archive/tar] *)

Module tar.

Inductive Typeflag := TypeReg | TypeDir | TypeSymlink | TypeChar | TypeBlock | TypeFifo.

(** The fields of [tar.Header] that [FileInfoHeader] fills for a
    [FileInfo] without [Sys()]; the other fields keep their zero value. *)
Record Header := {
  Typeflag_ : Typeflag;
  Name : string;
  Linkname : string;
  Size : Z;
  Mode : Z;
  ModTime : time.Time
}.

Definition Typeflag_eqb (a b : Typeflag) : bool :=
  match a, b with
  | TypeReg, TypeReg | TypeDir, TypeDir | TypeSymlink, TypeSymlink
  | TypeChar, TypeChar | TypeBlock, TypeBlock | TypeFifo, TypeFifo => true
  | _, _ => false
  end.

Definition c_ISUID : Z := 0x800.
Definition c_ISGID : Z := 0x400.
Definition c_ISVTX : Z := 0x200.

(** [tar.FileInfoHeader(fi, link)] for a [FileInfo] whose [Sys()] is
    [nil]. It fails on a socket and on a mode of no known type. *)
Definition FileInfoHeader {T} `{os.FileInfo T} (fi : T) (link : string) : error + Header :=
  let fm := os.Mode fi in
  let h (t : Typeflag) (name link : string) (sz : Z) :=
    let m0 := os.Perm fm in
    let m1 := if os.has fm os.ModeSetuid then Z.lor m0 c_ISUID else m0 in
    let m2 := if os.has fm os.ModeSetgid then Z.lor m1 c_ISGID else m1 in
    let m3 := if os.has fm os.ModeSticky then Z.lor m2 c_ISVTX else m2 in
    {| Typeflag_ := t; Name := name; Linkname := link; Size := sz;
       Mode := m3; ModTime := os.ModTime fi |} in
  if os.IsRegular fm then inr (h TypeReg (os.Name fi) "" (os.Size fi))
  else if os.IsDir fi then inr (h TypeDir (os.Name fi +:+ "/") "" 0)
  else if os.has fm os.ModeSymlink then inr (h TypeSymlink (os.Name fi) link 0)
  else if os.has fm os.ModeDevice then
    inr (h (if os.has fm os.ModeCharDevice then TypeChar else TypeBlock) (os.Name fi) "" 0)
  else if os.has fm os.ModeNamedPipe then inr (h TypeFifo (os.Name fi) "" 0)
  else if os.has fm os.ModeSocket then inl (Errorf "archive/tar: sockets not supported")
  else inl (Errorf "archive/tar: unknown file mode").

(** The destination [io.Writer]: [quota] is the number of further
    [Write] calls it accepts ([None]: all of them). *)
Record Dest := { quota : option nat }.

Definition dest_write (d : Dest) : option Dest :=
  match quota d with
  | None => Some d
  | Some O => None
  | Some (S k) => Some {| quota := Some k |}
  end.

Record Entry := { hdr : Header; data : list byte }.

(** A [tar.Writer]: the entries written so far (the last one is the
    current one), the bytes the current entry still expects ([curr.nb]),
    the sticky error, and the destination. *)
Record Writer := {
  entries : list Entry;
  nb : Z;
  err : option error;
  w : Dest
}.

Definition NewWriter (d : Dest) : Writer :=
  {| entries := []; nb := 0; err := None; w := d |}.

Definition fail (tw : Writer) (e : error) : Writer :=
  {| entries := entries tw; nb := nb tw; err := Some e; w := w tw |}.

(** [Writer.Flush]: refuses to leave an entry short, then pads it. *)
Definition Flush (tw : Writer) : Writer * option error :=
  match err tw with
  | Some e => (tw, Some e)
  | None =>
      if 0 <? nb tw then (tw, Some (ErrMissedWriting (nb tw)))
      else match dest_write (w tw) with
           | None => (fail tw ErrDestination, Some ErrDestination)
           | Some d => ({| entries := entries tw; nb := nb tw; err := None; w := d |}, None)
           end
  end.

Definition hasNUL (s : string) : bool :=
  existsb (fun c => Ascii.eqb c "000"%char) (chars s).
(** [isASCII]: an ASCII C-style string, with no byte from [0x80] on and
    no NUL. *)
Definition isASCII (s : string) : bool :=
  forallb (fun c => negb ((128 <=? Zascii c) || (Zascii c =? 0))) (chars s).
Definition hasSuffixSlash (s : string) : bool :=
  match rev (chars s) with
  | c :: _ => Ascii.eqb c "/"%char
  | [] => false
  end.

Definition isHeaderOnlyType (t : Typeflag) : bool :=
  match t with TypeReg => false | _ => true end.

(** A name that does not fit the USTAR field goes to a PAX record, which
    cannot hold a NUL. *)
Definition needsPAX (s : string) : bool := negb (isASCII s) || (100 <? len (chars s)).

(** [Header.allowedFormats], for the headers of [FileInfoHeader]: the
    reasons for which no format can encode the header. *)
Definition allowedFormats (h : Header) : option error :=
  if (match Typeflag_ h with TypeReg | TypeChar | TypeBlock | TypeFifo => true | _ => false end)
       && hasSuffixSlash (Name h)
  then Some (ErrHeader "filename may not have trailing slash")
  else if negb (isHeaderOnlyType (Typeflag_ h)) && (Size h <? 0)
  then Some (ErrHeader "negative size on header-only type")
  else if (needsPAX (Name h) && hasNUL (Name h))
          || (needsPAX (Linkname h) && hasNUL (Linkname h))
  then Some (ErrHeader "invalid PAX record")
  else None.

(** [Writer.WriteHeader]: flushes the current entry, then starts a new
    one. A header that cannot be encoded is a non-fatal error; a failure
    of the destination is sticky. *)
Definition WriteHeader (h : Header) (tw : Writer) : Writer * option error :=
  match Flush tw with
  | (tw, Some e) => (tw, Some e)
  | (tw, None) =>
      match allowedFormats h with
      | Some e => (tw, Some e)
      | None =>
          match dest_write (w tw) with
          | None => (fail tw ErrDestination, Some ErrDestination)
          | Some d =>
              ({| entries := entries tw ++ [{| hdr := h; data := [] |}];
                  nb := if isHeaderOnlyType (Typeflag_ h) then 0 else Size h;
                  err := None; w := d |}, None)
          end
      end
  end.

Definition add_data (b : list byte) (l : list Entry) : list Entry :=
  match rev l with
  | e :: l' => rev l' ++ [{| hdr := hdr e; data := data e ++ b |}]
  | [] => []
  end.

(** [Writer.Write]: writes at most the bytes the current entry still
    expects and reports [ErrWriteTooLong] when given more. *)
Definition Write (b : list byte) (tw : Writer) : Writer * (Z * option error) :=
  match err tw with
  | Some e => (tw, (0, Some e))
  | None =>
      let overwrite := nb tw <? len b in
      let b' := if overwrite then firstn (Z.to_nat (nb tw)) b else b in
      if 0 <? len b' then
        match dest_write (w tw) with
        | None => (fail tw ErrDestination, (0, Some ErrDestination))
        | Some d =>
            ({| entries := add_data b' (entries tw); nb := nb tw - len b';
                err := None; w := d |},
             (len b', if overwrite then Some ErrWriteTooLong else None))
        end
      else (tw, (0, if overwrite then Some ErrWriteTooLong else None))
  end.

(** [ErrWriteAfterClose], and the test [tw.err == ErrWriteAfterClose]. *)
Definition ErrWriteAfterClose : error := Errorf "archive/tar: write after close".

Definition is_WriteAfterClose (e : error) : bool :=
  match e with
  | Errorf msg => String.eqb msg "archive/tar: write after close"
  | _ => false
  end.

(** The [n] zero blocks of the footer, written until a write fails. *)
Fixpoint zero_blocks (n : nat) (d : Dest) : Dest * option error :=
  match n with
  | O => (d, None)
  | S n =>
      match dest_write d with
      | None => (d, Some ErrDestination)
      | Some d' => zero_blocks n d'
      end
  end.

(** [Writer.Close]: nothing on a writer that is closed, the sticky error
    of a writer that failed; otherwise it flushes, writes the two zero
    blocks of the footer and reports what went wrong in that. Whatever
    happened, the writer is closed afterwards. *)
Definition Close (tw : Writer) : Writer * option error :=
  match err tw with
  | Some e => if is_WriteAfterClose e then (tw, None) else (tw, Some e)
  | None =>
      let '(tw1, e1) := Flush tw in
      let '(d, e2) := match e1 with
                      | Some e => (w tw1, Some e)
                      | None => zero_blocks 2 (w tw1)
                      end in
      ({| entries := entries tw1; nb := nb tw1; err := Some ErrWriteAfterClose; w := d |}, e2)
  end.

(** The payload bytes of all entries. *)
Definition payload (tw : Writer) : Z :=
  fold_right (fun e acc => len (data e) + acc) 0 (entries tw).

End tar.

(** ** [io] and [bytes] *)

Module io.

(** An [io.Reader]: the chunks its [Read] calls return, and what ends
    them ([None] is [io.EOF]). *)
Record Reader := { chunks : list (list byte); rerr : option error }.

(** [bytes.NewReader(b)] *)
Definition NewReader (b : list byte) : Reader := {| chunks := [b]; rerr := None |}.

(** All the bytes of the reader. *)
Definition content (r : Reader) : list byte := concat (chunks r).

(** [io.Copy(tw, src)]: writes every chunk read; stops at the first
    write error or short write, and reports a read error other than
    [io.EOF]. Returns the number of bytes written. *)
Fixpoint copy (cs : list (list byte)) (final : option error) (written : Z)
         (tw : tar.Writer) : tar.Writer * (Z * option error) :=
  match cs with
  | [] => (tw, (written, final))
  | c :: cs' =>
      if 0 <? len c then
        let '(tw', (nw, ew)) := tar.Write c tw in
        let written := written + nw in
        match ew with
        | Some e => (tw', (written, Some e))
        | None =>
            if nw =? len c then copy cs' final written tw'
            else (tw', (written, Some ErrShortWrite))
        end
      else copy cs' final written tw
  end.

Definition Copy (tw : tar.Writer) (src : Reader) : tar.Writer * (Z * option error) :=
  copy (chunks src) (rerr src) 0 tw.

End io.

(** ** [unicode/utf8] *)

Module utf8.

Definition RuneError : Z := 0xFFFD.

Definition cont (b : Z) : bool := (0x80 <=? b) && (b <=? 0xBF).
Definition low6 (b : Z) : Z := Z.land b 0x3F.

(** [utf8.DecodeRune]: the first rune and its width; an invalid
    encoding is [RuneError] of width 1. *)
Definition DecodeRune (l : list Z) : Z * nat :=
  match l with
  | [] => (RuneError, O)
  | b0 :: r =>
      if b0 <? 0x80 then (b0, 1%nat)
      else if (0xC2 <=? b0) && (b0 <=? 0xDF) then
        match r with
        | b1 :: _ =>
            if cont b1 then (Z.lor (Z.shiftl (Z.land b0 0x1F) 6) (low6 b1), 2%nat)
            else (RuneError, 1%nat)
        | _ => (RuneError, 1%nat)
        end
      else if (0xE0 <=? b0) && (b0 <=? 0xEF) then
        match r with
        | b1 :: b2 :: _ =>
            let lo := if b0 =? 0xE0 then 0xA0 else 0x80 in
            let hi := if b0 =? 0xED then 0x9F else 0xBF in
            if (lo <=? b1) && (b1 <=? hi) && cont b2 then
              (Z.lor (Z.shiftl (Z.land b0 0x0F) 12)
                     (Z.lor (Z.shiftl (low6 b1) 6) (low6 b2)), 3%nat)
            else (RuneError, 1%nat)
        | _ => (RuneError, 1%nat)
        end
      else if (0xF0 <=? b0) && (b0 <=? 0xF4) then
        match r with
        | b1 :: b2 :: b3 :: _ =>
            let lo := if b0 =? 0xF0 then 0x90 else 0x80 in
            let hi := if b0 =? 0xF4 then 0x8F else 0xBF in
            if (lo <=? b1) && (b1 <=? hi) && cont b2 && cont b3 then
              (Z.lor (Z.shiftl (Z.land b0 0x07) 18)
                     (Z.lor (Z.shiftl (low6 b1) 12)
                            (Z.lor (Z.shiftl (low6 b2) 6) (low6 b3))), 4%nat)
            else (RuneError, 1%nat)
        | _ => (RuneError, 1%nat)
        end
      else (RuneError, 1%nat)
  end.

Definition tail6 (r : Z) (k : Z) : Z := Z.lor 0x80 (low6 (Z.shiftr r (6 * k))).

(** [utf8.EncodeRune]; a surrogate or a value out of range is encoded
    as [RuneError]. *)
Definition EncodeRune (r : Z) : list Z :=
  let r := if (r <? 0) || (0x10FFFF <? r) || ((0xD800 <=? r) && (r <=? 0xDFFF))
           then RuneError else r in
  if r <? 0x80 then [r]
  else if r <? 0x800 then [Z.lor 0xC0 (Z.shiftr r 6); tail6 r 0]
  else if r <? 0x10000 then [Z.lor 0xE0 (Z.shiftr r 12); tail6 r 1; tail6 r 0]
  else [Z.lor 0xF0 (Z.shiftr r 18); tail6 r 2; tail6 r 1; tail6 r 0].

End utf8.

(** ** [encoding/json] *)

Module json.

(** [json.RawMessage] *)
Abbreviation RawMessage := (list byte) (only parsing).

Definition of_bytes (b : list byte) : list ascii := map ascii_of_byte b.
Definition to_bytes (l : list ascii) : list byte := map byte_of_ascii l.

(** *** The scanner *)

Definition is_space (c : ascii) : bool :=
  (c =? " ")%char || (c =? "009")%char || (c =? "010")%char || (c =? "013")%char.

Fixpoint skip_ws (l : list ascii) : list ascii :=
  match l with
  | c :: l' => if is_space c then skip_ws l' else l
  | [] => []
  end.

Definition is_digit (c : ascii) : bool := (48 <=? Zascii c) && (Zascii c <=? 57).
Definition is_hex (c : ascii) : bool := bool_decide (is_Some (unhex c)).

(** The characters that may follow a backslash, other than [u]. *)
Definition simple_escape (e : ascii) : bool :=
  (e =? dquote)%char || (e =? "\")%char || (e =? "/")%char || (e =? "b")%char
  || (e =? "f")%char || (e =? "n")%char || (e =? "r")%char || (e =? "t")%char.

(** The rest of the input after a string, given what follows its
    opening quote. *)
Fixpoint str (l : list ascii) : option (list ascii) :=
  match l with
  | [] => None
  | c :: r =>
      if (c =? dquote)%char then Some r
      else if (c =? "\")%char then
        match r with
        | e :: r' =>
            if simple_escape e then str r'
            else if (e =? "u")%char then
              match r' with
              | a :: b :: c :: d :: r'' =>
                  if is_hex a && is_hex b && is_hex c && is_hex d then str r'' else None
              | _ => None
              end
            else None
        | [] => None
        end
      else if Zascii c <? 32 then None else str r
  end.

Fixpoint digits (l : list ascii) : list ascii :=
  match l with
  | c :: l' => if is_digit c then digits l' else l
  | [] => []
  end.

Definition exponent (l : list ascii) : option (list ascii) :=
  match l with
  | c :: r =>
      if (c =? "e")%char || (c =? "E")%char then
        let r' := match r with
                  | s :: r' => if (s =? "+")%char || (s =? "-")%char then r' else r
                  | [] => r
                  end in
        match r' with
        | d :: r'' => if is_digit d then Some (digits r'') else None
        | [] => None
        end
      else Some l
  | [] => Some l
  end.

Definition fraction (l : list ascii) : option (list ascii) :=
  match l with
  | c :: r =>
      if (c =? ".")%char then
        match r with
        | d :: r' => if is_digit d then exponent (digits r') else None
        | [] => None
        end
      else exponent l
  | [] => exponent l
  end.

Definition number (l : list ascii) : option (list ascii) :=
  let l' := match l with
            | c :: r => if (c =? "-")%char then r else l
            | [] => l
            end in
  match l' with
  | c :: r =>
      if (c =? "0")%char then fraction r
      else if is_digit c then fraction (digits r)
      else None
  | [] => None
  end.

Fixpoint literal (word : list ascii) (l : list ascii) : option (list ascii) :=
  match word, l with
  | [], _ => Some l
  | a :: word', b :: l' => if Ascii.eqb a b then literal word' l' else None
  | _ :: _, [] => None
  end.

(** The rest of the input after one JSON value that starts at the head
    of [l]. Every call consumes input, so a fuel of the length of the
    input, plus one, is enough. *)
Fixpoint skip_value (n : nat) (l : list ascii) : option (list ascii) :=
  match n with
  | O => None
  | S n =>
      match l with
      | [] => None
      | c :: r =>
          if (c =? dquote)%char then str r
          else if (c =? "{")%char then
            match skip_ws r with
            | c' :: r' => if (c' =? "}")%char then Some r' else skip_members n (c' :: r')
            | [] => None
            end
          else if (c =? "[")%char then
            match skip_ws r with
            | c' :: r' => if (c' =? "]")%char then Some r' else skip_elements n (c' :: r')
            | [] => None
            end
          else if (c =? "t")%char then literal (chars "true") l
          else if (c =? "f")%char then literal (chars "false") l
          else if (c =? "n")%char then literal (chars "null") l
          else number l
      end
  end
with skip_members (n : nat) (l : list ascii) : option (list ascii) :=
  match n with
  | O => None
  | S n =>
      match l with
      | c :: r =>
          if (c =? dquote)%char then
            match str r with
            | Some r1 =>
                match skip_ws r1 with
                | c1 :: r2 =>
                    if (c1 =? ":")%char then
                      match skip_value n (skip_ws r2) with
                      | Some r3 =>
                          match skip_ws r3 with
                          | c3 :: r4 =>
                              if (c3 =? ",")%char then skip_members n (skip_ws r4)
                              else if (c3 =? "}")%char then Some r4
                              else None
                          | [] => None
                          end
                      | None => None
                      end
                    else None
                | [] => None
                end
            | None => None
            end
          else None
      | [] => None
      end
  end
with skip_elements (n : nat) (l : list ascii) : option (list ascii) :=
  match n with
  | O => None
  | S n =>
      match skip_value n l with
      | Some r1 =>
          match skip_ws r1 with
          | c :: r2 =>
              if (c =? ",")%char then skip_elements n (skip_ws r2)
              else if (c =? "]")%char then Some r2
              else None
          | [] => None
          end
      | None => None
      end
  end.

(** [json.Valid]: one value, with white space around it. *)
Definition Valid (l : list ascii) : bool :=
  match skip_value (S (length l)) (skip_ws l) with
  | Some r => match skip_ws r with [] => true | _ => false end
  | None => false
  end.

(** *** Decoding *)

Definition u4 (a b c d : Z) : Z :=
  let h x := default 0 (unhex (asciiZ x)) in
  Z.lor (Z.shiftl (h a) 12) (Z.lor (Z.shiftl (h b) 8) (Z.lor (Z.shiftl (h c) 4) (h d))).

Definition IsSurrogate (r : Z) : bool := (0xD800 <=? r) && (r <? 0xE000).

(** [utf16.DecodeRune] *)
Definition DecodeSurrogates (r1 r2 : Z) : Z :=
  if (0xD800 <=? r1) && (r1 <? 0xDC00) && (0xDC00 <=? r2) && (r2 <? 0xE000)
  then Z.lor (Z.shiftl (r1 - 0xD800) 10) (r2 - 0xDC00) + 0x10000
  else utf8.RuneError.

(** [unquoteBytes], on the inside of a string the scanner accepted:
    escapes are replaced by what they stand for, and bytes that are not
    UTF-8 by the replacement character. *)
Fixpoint unquote (n : nat) (l : list Z) : list Z :=
  match n with
  | O => []
  | S n =>
      match l with
      | [] => []
      | 92 :: 117 :: a :: b :: c :: d :: r =>
          let rr := u4 a b c d in
          if IsSurrogate rr then
            match r with
            | 92 :: 117 :: a' :: b' :: c' :: d' :: r' =>
                let dec := DecodeSurrogates rr (u4 a' b' c' d') in
                if dec =? utf8.RuneError
                then utf8.EncodeRune utf8.RuneError ++ unquote n r
                else utf8.EncodeRune dec ++ unquote n r'
            | _ => utf8.EncodeRune utf8.RuneError ++ unquote n r
            end
          else utf8.EncodeRune rr ++ unquote n r
      | 92 :: e :: r =>
          (if e =? 98 then 8 else if e =? 102 then 12 else if e =? 110 then 10
           else if e =? 114 then 13 else if e =? 116 then 9 else e) :: unquote n r
      | c :: r =>
          if c <? 0x80 then c :: unquote n r
          else let '(rr, size) := utf8.DecodeRune l in
               utf8.EncodeRune rr ++ unquote n (skipn size l)
      end
  end.

Definition unquote_key (inside : list ascii) : string :=
  unchars (map asciiZ (unquote (length inside) (map Zascii inside))).

(** The members of an object the scanner accepted, from its first key on,
    as [Unmarshal] stores them in a [map[string]*json.RawMessage]: the
    value of a key is the text of its value, a [null] is a [nil] pointer,
    and a key that comes again replaces the earlier one. *)
Fixpoint fields (n : nat) (l : list ascii)
         (m : gmap string (option (list byte))) : gmap string (option (list byte)) :=
  match n with
  | O => m
  | S n =>
      match l with
      | _ :: r =>
          match str r with
          | Some r1 =>
              let key := unquote_key (firstn (length r - length r1 - 1) r) in
              match skip_ws r1 with
              | _ :: r2 =>
                  let v := skip_ws r2 in
                  match skip_value (S (length v)) v with
                  | Some r3 =>
                      let item := firstn (length v - length r3) v in
                      let p := match item with
                               | c :: _ =>
                                   if (c =? "n")%char then None else Some (to_bytes item)
                               | [] => Some (to_bytes item)
                               end in
                      match skip_ws r3 with
                      | c :: r4 =>
                          if (c =? ",")%char then fields n (skip_ws r4) (<[key := p]> m)
                          else <[key := p]> m
                      | [] => <[key := p]> m
                      end
                  | None => m
                  end
              | [] => m
              end
          | None => m
          end
      | [] => m
      end
  end.

(** [json.Unmarshal(data, &config)] for [config] a
    [map[string]*json.RawMessage]: a syntax error for text that is no
    JSON value, a type error for a value that is neither an object nor
    [null], and otherwise the map ([null] leaves the map [nil], which
    reads as an empty one). *)
Definition Unmarshal (data : list byte) : error + gmap string (option (list byte)) :=
  let l := of_bytes data in
  if negb (Valid l) then inl ErrJSONSyntax
  else match skip_ws l with
       | c :: r =>
           if (c =? "{")%char then
             match skip_ws r with
             | c' :: r' =>
                 if (c' =? "}")%char then inr ∅
                 else inr (fields (length r) (c' :: r') ∅)
             | [] => inr ∅
             end
           else if (c =? "n")%char then inr ∅
           else if (c =? "[")%char then inl (ErrJSONType "array")
           else if (c =? "t")%char || (c =? "f")%char then inl (ErrJSONType "bool")
           else if (c =? dquote)%char then inl (ErrJSONType "string")
           else inl (ErrJSONType "number")
       | [] => inl ErrJSONSyntax
       end.

(** *** Encoding *)

(** A Go value as [Marshal] sees it. [Raw] is the text a
    [json.RawMessage] holds, [Obj] a map or struct with its members in
    the order they are written. *)
#[warnings="-register-all"]
Inductive value : Type :=
| Null
| Str (s : string)
| Num (z : Z)
| Raw (m : list byte)
| Arr (l : list value)
| Obj (l : list (string * value)).

Definition escape (b : Z) : list ascii :=
  if (b =? 92) || (b =? 34) then ["\"%char; asciiZ b]
  else if b =? 10 then chars "\n"
  else if b =? 13 then chars "\r"
  else if b =? 9 then chars "\t"
  else chars "\u00" ++ [hexdigit (Z.shiftr b 4); hexdigit (Z.land b 15)].

(** The characters [Marshal] writes as they are: printable ASCII other
    than the quote, the backslash and the HTML characters. *)
Definition htmlSafe (b : Z) : bool :=
  (32 <=? b) && negb ((b =? 34) || (b =? 92) || (b =? 60) || (b =? 62) || (b =? 38)).

Fixpoint quote_body (n : nat) (l : list Z) : list ascii :=
  match n with
  | O => []
  | S n =>
      match l with
      | [] => []
      | b :: r =>
          if b <? 0x80 then
            (if htmlSafe b then [asciiZ b] else escape b) ++ quote_body n r
          else
            let '(c, size) := utf8.DecodeRune l in
            if (c =? utf8.RuneError) && (Nat.eqb size 1) then
              chars "\ufffd" ++ quote_body n r
            else if (c =? 0x2028) || (c =? 0x2029) then
              chars "\u202" ++ [hexdigit (Z.land c 15)] ++ quote_body n (skipn size l)
            else map asciiZ (firstn size l) ++ quote_body n (skipn size l)
      end
  end.

(** The encoding of a Go string. *)
Definition quote (s : string) : list ascii :=
  [dquote] ++ quote_body (String.length s) (map Zascii (chars s)) ++ [dquote].

(** [compact] with HTML escaping, on text the scanner accepted: white
    space outside strings goes, the HTML characters and the two line
    separators are escaped. *)
Fixpoint compact_scan (in_str esc : bool) (l : list Z) : list ascii :=
  match l with
  | [] => []
  | c :: r =>
      if (c =? 60) || (c =? 62) || (c =? 38) then
        chars "\u00" ++ [hexdigit (Z.shiftr c 4); hexdigit (Z.land c 15)]
              ++ compact_scan in_str false r
      else
        match c, r with
        | 0xE2, 0x80 :: ((0xA8 | 0xA9) as x) :: r' =>
            chars "\u202" ++ [hexdigit (Z.land x 15)] ++ compact_scan in_str false r'
        | _, _ =>
            if in_str then
              asciiZ c :: (if esc then compact_scan true false r
                           else if c =? 92 then compact_scan true true r
                           else if c =? 34 then compact_scan false false r
                           else compact_scan true false r)
            else if is_space (asciiZ c) then compact_scan false false r
            else asciiZ c :: compact_scan (c =? 34) false r
        end
  end.

Definition compact (m : list byte) : error + list ascii :=
  if Valid (of_bytes m) then inr (compact_scan false false (map Zascii (of_bytes m)))
  else inl ErrJSONSyntax.

Fixpoint commas (l : list (list ascii)) : list ascii :=
  match l with
  | [] => []
  | [x] => x
  | x :: l' => x ++ ","%char :: commas l'
  end.

(** The first error of a list of results, or all the results. *)
Fixpoint all_ok {A} (l : list (error + A)) : error + list A :=
  match l with
  | [] => inr []
  | inl e :: _ => inl e
  | inr a :: l' => match all_ok l' with inl e => inl e | inr r => inr (a :: r) end
  end.

Fixpoint encode (v : value) : error + list ascii :=
  match v with
  | Null => inr (chars "null")
  | Str s => inr (quote s)
  | Num z => inr (chars (DecimalString.NilZero.string_of_int (Z.to_int z)))
  | Raw m => compact m
  | Arr l =>
      match all_ok (map encode l) with
      | inl e => inl e
      | inr xs => inr ("["%char :: commas xs ++ ["]"%char])
      end
  | Obj l =>
      match all_ok (map (fun kv => match encode (snd kv) with
                                   | inl e => inl e
                                   | inr x => inr (quote (fst kv) ++ ":"%char :: x)
                                   end) l) with
      | inl e => inl e
      | inr xs => inr ("{"%char :: commas xs ++ ["}"%char])
      end
  end.

(** [json.Marshal] *)
Definition Marshal (v : value) : error + list byte :=
  match encode v with
  | inl e => inl e
  | inr l => inr (to_bytes l)
  end.

(** The members of a Go map, sorted by key as [Marshal] writes them. *)
Fixpoint insert_sorted {V} (kv : string * V) (l : list (string * V)) : list (string * V) :=
  match l with
  | [] => [kv]
  | kv' :: l' =>
      if String.ltb (fst kv) (fst kv') then kv :: l else kv' :: insert_sorted kv l'
  end.

Definition sorted_members {V} (m : gmap string V) : list (string * V) :=
  fold_right insert_sorted [] (map_to_list m).

Definition of_map {V} (f : V -> value) (m : gmap string V) : value :=
  Obj (map (fun kv => (fst kv, f (snd kv))) (sorted_members m)).

(** A [[]string]: [null] when [nil]. *)
Definition of_strings (s : slice string) : value :=
  match s with
  | Nil => Null
  | Slice l => Arr (map Str l)
  end.

(** A [*json.RawMessage]: [null] when [nil]. *)
Definition of_raw (p : option (list byte)) : value :=
  match p with
  | None => Null
  | Some m => Raw m
  end.

End json.

(** JSON text is written below with ['] for the quote character. *)
Definition dq (s : string) : string :=
  unchars (map (fun c => if Ascii.eqb c "'"%char then dquote else c) (chars s)).


(** ** The types and constants of the image library that the writer uses *)

Module types.

(** Modelled from the spec: [types.BlobInfo], declared in the package
    [types] of the library; the spec gives it a digest and a size. *)
Record BlobInfo := { Digest : string; Size : Z }.

End types.

Module manifest.

(** Modelled from the spec: [manifest.Schema2Descriptor], declared in the
    package [manifest]: a media type, a size and a digest. *)
Record Schema2Descriptor := { MediaType : string; Size : Z; Digest : string }.

End manifest.

Module reference.

(** Modelled from the spec: [reference.NamedTagged], an interface of the
    package [docker/reference], as the pair of what its methods [Name]
    and [Tag] return. *)
Record NamedTagged := { Name : string; Tag : string }.

End reference.

(** Modelled from the spec: the file names of the archive, constants of
    another file of the package. *)
Definition manifestFileName : string := "manifest.json".
Definition legacyLayerFileName : string := "layer.tar".
Definition legacyConfigFileName : string := "json".
Definition legacyVersionFileName : string := "VERSION".
Definition legacyRepositoriesFileName : string := "repositories".

(** Modelled from the spec: [ManifestItem], declared in another file of
    the package: the config path, the tags, the layer paths, a parent and
    the layer sources. *)
Record ManifestItem := {
  Config : string;
  RepoTags : slice string;
  Layers : slice string;
  Parent : string;
  LayerSources : option (gmap string manifest.Schema2Descriptor)
}.

(** Modelled from the spec: a descriptor as [json.Marshal] sees it. *)
Definition of_Schema2Descriptor (d : manifest.Schema2Descriptor) : json.value :=
  json.Obj [("mediaType", json.Str (manifest.MediaType d));
            ("size", json.Num (manifest.Size d));
            ("digest", json.Str (manifest.Digest d))].

(** Modelled from the spec: a [ManifestItem] as [json.Marshal] sees it,
    which the tags of the declaration decide: the config path, the tags
    and the layers, without an empty [Parent] and without empty
    [LayerSources]. *)
Definition of_ManifestItem (item : ManifestItem) : json.value :=
  json.Obj
    ([("Config", json.Str (Config item));
      ("RepoTags", json.of_strings (RepoTags item));
      ("Layers", json.of_strings (Layers item))]
     ++ (if String.eqb (Parent item) "" then [] else [("Parent", json.Str (Parent item))])
     ++ match LayerSources item with
        | None => []
        | Some m => if bool_decide (m = ∅) then []
                    else [("LayerSources", json.of_map of_Schema2Descriptor m)]
        end).

(** ** [writer.go] *)

(** [Writer]. Its field [writer] is the [io.Writer] that [tar] writes to:
    one object, kept once, as [tar.w]. *)
Record Writer := {
  tar : tar.Writer;
  blobs : gmap string types.BlobInfo
}.

Definition writer (w : Writer) : tar.Dest := tar.w (tar w).

Definition set_tar (w : Writer) (t : tar.Writer) : Writer :=
  {| tar := t; blobs := blobs w |}.

(** [NewWriter] *)
Definition NewWriter (dest : tar.Dest) : Writer :=
  {| tar := tar.NewWriter dest; blobs := ∅ |}.

(** [tryReusingBlob] *)
Definition tryReusingBlob (info : types.BlobInfo) (w : Writer)
  : bool * types.BlobInfo * option error :=
  if String.eqb (types.Digest info) "" then
    (false, {| types.Digest := ""; types.Size := 0 |},
     Some (Errorf "Can not check for a blob with unknown digest"))
  else
    match blobs w !! types.Digest info with
    | Some blob =>
        (true, {| types.Digest := types.Digest info; types.Size := types.Size blob |}, None)
    | None => (false, {| types.Digest := ""; types.Size := 0 |}, None)
    end.

(** [recordBlob] *)
Definition recordBlob (info : types.BlobInfo) (w : Writer) : Writer :=
  {| tar := tar w; blobs := <[types.Digest info := info]> (blobs w) |}.

(** [configPath] *)
Definition configPath (configDigest : string) : outcome string :=
  match digest.Hex configDigest with
  | Ret h => Ret (h +:+ ".json")
  | Panic p => Panic p
  end.

(** [physicalLayerPath] *)
Definition physicalLayerPath (layerDigest : string) : outcome string :=
  match digest.Hex layerDigest with
  | Ret h => Ret (h +:+ ".tar")
  | Panic p => Panic p
  end.

(** The permission bits [0444], which Go writes in octal. *)
Definition perm_0444 : Z := 4 * 64 + 4 * 8 + 4.

(** [tarFI] and its methods. *)
Record tarFI := { path : string; size : Z; isSymlink : bool }.

Module TarFI.

Definition Name (t : tarFI) : string := path t.
Definition Size (t : tarFI) : Z := size t.
Definition Mode (t : tarFI) : Z := if isSymlink t then os.ModeSymlink else perm_0444.
Definition ModTime (t : tarFI) : time.Time := time.Unix 0 0.
Definition IsDir (t : tarFI) : bool := false.
Definition Sys (t : tarFI) : option unit := None.

End TarFI.

#[export] Instance tarFI_FileInfo : os.FileInfo tarFI := {|
  os.Name := TarFI.Name;
  os.Size := TarFI.Size;
  os.Mode := TarFI.Mode;
  os.ModTime := TarFI.ModTime;
  os.IsDir := TarFI.IsDir;
  os.Sys := TarFI.Sys
|}.

(** What the writer takes from [archive/tar] to build a header: the
    functions below are written against the result of [FileInfoHeader],
    a header or an error; [archive_tar] is the library itself. *)
Class HeaderBuilder := {
  FileInfoHeader : tarFI -> string -> error + tar.Header
}.

#[export] Instance archive_tar : HeaderBuilder := {|
  FileInfoHeader := fun fi link => tar.FileInfoHeader fi link
|}.

(** *** Function bodies that return early or panic *)

(** What a step of a function body does: go on with a value, return from
    the function, or panic. *)
Inductive step (R A : Type) : Type :=
| Next (a : A)
| Return (r : R)
| Panics (p : panic).
Arguments Next {R A} a.
Arguments Return {R A} r.
Arguments Panics {R A} p.

(** The body of a method of [Writer] that returns an [R]. *)
Definition body (R A : Type) : Type := Writer -> Writer * step R A.

Definition pure {R A} (a : A) : body R A := fun w => (w, Next a).

Definition bind {R A B} (m : body R A) (k : A -> body R B) : body R B :=
  fun w =>
    match m w with
    | (w', Next a) => k a w'
    | (w', Return r) => (w', Return r)
    | (w', Panics p) => (w', Panics p)
    end.

(** A call that may panic. *)
Definition call {R A} (o : outcome A) : body R A :=
  fun w => match o with Ret a => (w, Next a) | Panic p => (w, Panics p) end.

(** [if err := f(w); err != nil { return onerr(err) }] *)
Definition check {R} (f : Writer -> Writer * option error) (onerr : error -> R) : body R unit :=
  fun w =>
    match f w with
    | (w', None) => (w', Next tt)
    | (w', Some err) => (w', Return (onerr err))
    end.

(** [x, err := f(); if err != nil { return onerr(err) }] *)
Definition checked {R A} (x : error + A) (onerr : error -> R) : body R A :=
  fun w =>
    match x with
    | inr a => (w, Next a)
    | inl err => (w, Return (onerr err))
    end.

#[export] Instance body_ret {R} : MRet (body R) := fun A => @pure R A.
#[export] Instance body_bind {R} : MBind (body R) := fun A B k m => @bind R A B m k.

(** A value of the [map[string]interface{}] of a layer's configuration:
    a string or a [*json.RawMessage]. *)
Inductive iface : Type :=
| IString (s : string)
| IRawMessage (p : option (list byte)).

Definition of_iface (v : iface) : json.value :=
  match v with
  | IString s => json.Str s
  | IRawMessage p => json.of_raw p
  end.

(** The attributes of the image configuration that the configuration of
    the top layer takes. *)
Definition attrs : list string :=
  ["architecture"; "config"; "container"; "container_config"; "created";
   "docker_version"; "os"].

(** What [writeLegacyLayerMetadata] returns. *)
Definition legacy : Type := slice string * string * option error.

Definition failed (msg : string) (err : error) : legacy := (Nil, "", Some (Wrap err msg)).

(** The variables that the loop of [writeLegacyLayerMetadata] carries
    from a layer to the next. *)
Record vars := {
  chainID : string;
  lastLayerID : string;
  layerPaths : slice string
}.

Section Emitter.

Context {hb : HeaderBuilder}.

(** [sendSymlink] *)
Definition sendSymlink (path target : string) (w : Writer) : Writer * option error :=
  match FileInfoHeader {| path := path; size := 0; isSymlink := true |} target with
  | inl _ => (w, None)
  | inr hdr =>
      let '(t, err) := tar.WriteHeader hdr (tar w) in
      (set_tar w t, err)
  end.

(** [sendFile] *)
Definition sendFile (path : string) (expectedSize : Z) (stream : io.Reader) (w : Writer)
  : Writer * option error :=
  match FileInfoHeader {| path := path; size := expectedSize; isSymlink := false |} "" with
  | inl _ => (w, None)
  | inr hdr =>
      match tar.WriteHeader hdr (tar w) with
      | (t, Some err) => (set_tar w t, Some err)
      | (t, None) =>
          match io.Copy t stream with
          | (t', (_, Some err)) => (set_tar w t', Some err)
          | (t', (size, None)) =>
              if negb (size =? expectedSize) then
                (set_tar w t', Some (ErrSizeMismatch path expectedSize size))
              else (set_tar w t', None)
          end
      end
  end.

(** [sendBytes] *)
Definition sendBytes (path : string) (b : list byte) (w : Writer) : Writer * option error :=
  sendFile path (len b) (io.NewReader b) w.

(** *** The legacy metadata *)

(** The body of the loop, for the layer [l] at index [i] of [n] layers. *)
Definition layer (n : Z) (configBytes : list byte) (i : Z)
           (l : manifest.Schema2Descriptor) (v : vars) : body legacy vars :=
  let chainID :=
    if String.eqb (chainID v) "" then manifest.Digest l
    else digest.FromString
           (digest.String (chainID v) +:+ " " +:+ digest.String (manifest.Digest l)) in
  layerID ← call (digest.Hex chainID);
  physicalLayerPath ← call (physicalLayerPath (manifest.Digest l));
  let layerPaths := append (layerPaths v) physicalLayerPath in
  check (sendSymlink (filepath.Join [layerID; legacyLayerFileName])
                     (filepath.Join [".."; physicalLayerPath]))
        (failed "Error creating layer symbolic link");;
  let b := bytes_of_string "1.0" in
  check (sendBytes (filepath.Join [layerID; legacyVersionFileName]) b)
        (failed "Error writing VERSION file");;
  let layerConfig : gmap string iface := <["id" := IString layerID]> ∅ in
  let layerConfig :=
    if negb (String.eqb (lastLayerID v) "")
    then <["parent" := IString (lastLayerID v)]> layerConfig
    else layerConfig in
  layerConfig ←
    (if i =? n - 1 then
       config ← checked (json.Unmarshal configBytes) (failed "Error unmarshaling config");
       pure (fold_left
               (fun lc attr => <[attr := IRawMessage (default None (config !! attr))]> lc)
               attrs layerConfig)
     else pure layerConfig);
  b ← checked (json.Marshal (json.of_map of_iface layerConfig))
              (failed "Error marshaling layer config");
  check (sendBytes (filepath.Join [layerID; legacyConfigFileName]) b)
        (failed "Error writing config json file");;
  pure {| chainID := chainID; lastLayerID := layerID; layerPaths := layerPaths |}.

(** [for i, l := range layerDescriptors], from index [i] on. *)
Fixpoint layers_from (n : Z) (configBytes : list byte) (i : Z)
         (ls : list manifest.Schema2Descriptor) (v : vars) : body legacy vars :=
  match ls with
  | [] => pure v
  | l :: ls' =>
      v' ← layer n configBytes i l v;
      layers_from n configBytes (i + 1) ls' v'
  end.

(** [writeLegacyLayerMetadata] *)
Definition writeLegacyLayerMetadata (layerDescriptors : list manifest.Schema2Descriptor)
           (configBytes : list byte) (w : Writer) : Writer * outcome legacy :=
  let v0 := {| chainID := ""; lastLayerID := ""; layerPaths := Nil |} in
  match layers_from (len layerDescriptors) configBytes 0 layerDescriptors v0 w with
  | (w', Next v) => (w', Ret (layerPaths v, lastLayerID v, None))
  | (w', Return r) => (w', Ret r)
  | (w', Panics p) => (w', Panic p)
  end.

(** *** The repositories file and the manifest *)

(** The map that [createRepositoriesFile] builds. *)
Definition repositories_of (rootLayerID : string) (repoTags : list reference.NamedTagged)
  : gmap string (gmap string string) :=
  fold_left
    (fun (repositories : gmap string (gmap string string)) repoTag =>
       match repositories !! reference.Name repoTag with
       | Some val =>
           <[reference.Name repoTag := <[reference.Tag repoTag := rootLayerID]> val]> repositories
       | None =>
           <[reference.Name repoTag := {[reference.Tag repoTag := rootLayerID]}]> repositories
       end)
    repoTags ∅.

(** [createRepositoriesFile] *)
Definition createRepositoriesFile (rootLayerID : string)
           (repoTags : list reference.NamedTagged) (w : Writer) : Writer * option error :=
  let repositories := repositories_of rootLayerID repoTags in
  match json.Marshal (json.of_map (json.of_map json.Str) repositories) with
  | inl err => (w, Some (Wrap err "Error marshaling repositories"))
  | inr b =>
      match sendBytes legacyRepositoriesFileName b w with
      | (w', Some err) => (w', Some (Wrap err "Error writing config json file"))
      | (w', None) => (w', None)
      end
  end.

(** The item that [createManifest] builds. *)
Definition manifest_item (config : string) (layerPaths : slice string)
           (repoTags : list reference.NamedTagged) : ManifestItem :=
  {| Config := config;
     RepoTags :=
       fold_left
         (fun tags tag => append tags (reference.Name tag +:+ ":" +:+ reference.Tag tag))
         repoTags (Slice []);
     Layers := layerPaths;
     Parent := "";
     LayerSources := None |}.

(** [createManifest] *)
Definition createManifest (configDigest : string) (layerPaths : slice string)
           (repoTags : list reference.NamedTagged) (w : Writer)
  : Writer * outcome (option error) :=
  match configPath configDigest with
  | Panic p => (w, Panic p)
  | Ret config =>
      let item := manifest_item config layerPaths repoTags in
      let items := [item] in
      match json.Marshal (json.Arr (map of_ManifestItem items)) with
      | inl err => (w, Ret (Some err))
      | inr itemsBytes =>
          let '(w', err) := sendBytes manifestFileName itemsBytes w in
          (w', Ret err)
      end
  end.

(** [Close] *)
Definition Close (w : Writer) : Writer * option error :=
  let '(t, err) := tar.Close (tar w) in
  (set_tar w t, err).

End Emitter.

(** ** What the statements below speak of *)

(** The header of a regular file of the archive, and of a symbolic link. *)
Definition file_header (name : string) (sz : Z) : tar.Header :=
  {| tar.Typeflag_ := tar.TypeReg; tar.Name := name; tar.Linkname := "";
     tar.Size := sz; tar.Mode := perm_0444; tar.ModTime := time.epoch |}.

Definition symlink_header (name target : string) : tar.Header :=
  {| tar.Typeflag_ := tar.TypeSymlink; tar.Name := name; tar.Linkname := target;
     tar.Size := 0; tar.Mode := 0; tar.ModTime := time.epoch |}.

Definition file_entry (name : string) (b : list byte) : tar.Entry :=
  {| tar.hdr := file_header name (len b); tar.data := b |}.

Definition symlink_entry (name target : string) : tar.Entry :=
  {| tar.hdr := symlink_header name target; tar.data := [] |}.

(** A [tar.Writer] that can take a new entry: no sticky error, the current
    entry complete, and a destination that accepts every write. *)
Definition ready (tw : tar.Writer) : Prop :=
  tar.err tw = None /\ tar.nb tw = 0 /\ tar.quota (tar.w tw) = None.

(** The entries of the archive. *)
Definition archive (w : Writer) : list tar.Entry := tar.entries (tar w).

(** The metadata the writer fixes in a header: the epoch as modification
    time, and either a regular file with permission bits [0444] or a
    symbolic link of size 0 whose header carries no permission bit. *)
Definition fixed_metadata (h : tar.Header) : Prop :=
  tar.ModTime h = time.Unix 0 0 /\
  (tar.Typeflag_ h = tar.TypeReg /\ tar.Mode h = perm_0444 \/
   tar.Typeflag_ h = tar.TypeSymlink /\ tar.Size h = 0 /\ tar.Mode h = 0).

(** The chain ID of the layer at index [i], as the specification defines
    it: the digest of the layer for the first one, and for the others
    the canonical hash of the previous chain ID, a space and the digest
    of the layer. *)
Fixpoint spec_chainID (digests : list string) (i : nat) : string :=
  match i with
  | O => nth O digests ""
  | S j => digest.FromString (spec_chainID digests j +:+ " " +:+ nth (S j) digests "")
  end.

(** The step of the chain ID in the loop of [writeLegacyLayerMetadata]. *)
Definition next_chainID (chainID d : string) : string :=
  if String.eqb chainID "" then d
  else digest.FromString (digest.String chainID +:+ " " +:+ digest.String d).

(** The configuration of a layer before the attributes of the image are
    added, and with them. *)
Definition base_config (layerID lastLayerID : string) : gmap string iface :=
  let layerConfig : gmap string iface := <["id" := IString layerID]> ∅ in
  if negb (String.eqb lastLayerID "")
  then <["parent" := IString lastLayerID]> layerConfig
  else layerConfig.

Definition top_config (config : gmap string (option (list byte)))
           (layerConfig : gmap string iface) : gmap string iface :=
  fold_left (fun lc attr => <[attr := IRawMessage (default None (config !! attr))]> lc)
            attrs layerConfig.

(** What one turn of the loop of [writeLegacyLayerMetadata] produces: the
    legacy ID of the layer, the path of its blob, its configuration and
    the bytes of its [json] file. *)
Record layer_out := {
  lo_id : string;
  lo_path : string;
  lo_config : gmap string iface;
  lo_json : list byte
}.

(** The three entries of a layer, in the order they are written. *)
Definition layer_entries (o : layer_out) : list tar.Entry :=
  [symlink_entry (filepath.Join [lo_id o; legacyLayerFileName])
                 (filepath.Join [".."; lo_path o]);
   file_entry (filepath.Join [lo_id o; legacyVersionFileName]) (bytes_of_string "1.0");
   file_entry (filepath.Join [lo_id o; legacyConfigFileName]) (lo_json o)].

(** One turn of the loop, from the variables [v] to the variables [v1]. *)
Definition layer_spec (n : Z) (configBytes : list byte) (i : Z)
           (l : manifest.Schema2Descriptor) (v : vars) (o : layer_out) (v1 : vars) : Prop :=
  let cid := next_chainID (chainID v) (manifest.Digest l) in
  digest.Hex cid = Ret (lo_id o) /\
  physicalLayerPath (manifest.Digest l) = Ret (lo_path o) /\
  v1 = {| chainID := cid; lastLayerID := lo_id o;
          layerPaths := append (layerPaths v) (lo_path o) |} /\
  (if i =? n - 1
   then exists config, json.Unmarshal configBytes = inr config /\
                       lo_config o = top_config config (base_config (lo_id o) (lastLayerID v))
   else lo_config o = base_config (lo_id o) (lastLayerID v)) /\
  json.Marshal (json.of_map of_iface (lo_config o)) = inr (lo_json o).

(** The turns of the loop for the layers [ls], from index [i] on. *)
Fixpoint trace (n : Z) (configBytes : list byte) (i : Z)
         (ls : list manifest.Schema2Descriptor) (v : vars)
         (outs : list layer_out) (v' : vars) : Prop :=
  match ls, outs with
  | [], [] => v' = v
  | l :: ls', o :: outs' =>
      exists v1, layer_spec n configBytes i l v o v1 /\
                 trace n configBytes (i + 1) ls' v1 outs' v'
  | _, _ => False
  end.

(** The variables of the loop after the layers that produced [outs]. *)
Definition vars_after (digests : list string) (outs : list layer_out) : vars :=
  {| chainID := match length outs with
                | O => ""
                | S j => spec_chainID digests j
                end;
     lastLayerID := default "" (last (map lo_id outs));
     layerPaths := match outs with
                   | [] => Nil
                   | _ => Slice (map lo_path outs)
                   end |}.

(** The legacy ID of the layer before the one at index [k]; [""] for the
    first layer. *)
Definition previous_id (outs : list layer_out) (k : nat) : string :=
  match k with
  | O => ""
  | S j => default "" (lo_id <$> outs !! j)
  end.

(** What the turn for the layer [l] at index [k] produced, in terms of
    the whole run: the ID is the hex part of the chain ID of the
    specification, the path is the one of the blob, and the configuration
    is the one of a layer that follows [previous_id], with the attributes
    of the image for the last layer. *)
Definition layer_fact (digests : list string) (configBytes : list byte)
           (outs : list layer_out) (k : nat) (l : manifest.Schema2Descriptor)
           (o : layer_out) : Prop :=
  digest.Hex (spec_chainID digests k) = Ret (lo_id o) /\
  physicalLayerPath (manifest.Digest l) = Ret (lo_path o) /\
  (if Z.of_nat k =? len digests - 1
   then exists config,
       json.Unmarshal configBytes = inr config /\
       lo_config o = top_config config (base_config (lo_id o) (previous_id outs k))
   else lo_config o = base_config (lo_id o) (previous_id outs k)) /\
  json.Marshal (json.of_map of_iface (lo_config o)) = inr (lo_json o).

(** The ID that [repositories] gives to the tag [tag] of the repository
    [name]. *)
Definition tag_id (repositories : gmap string (gmap string string))
           (name tag : string) : option string :=
  repositories !! name ≫= fun tags => tags !! tag.

(** A digest as the registry gives it: it has a hex part, made of one or
    more of the digits [0-9a-f]. *)
Definition hex_char (c : ascii) : bool :=
  let z := Zascii c in
  ((48 <=? z) && (z <=? 57)) || ((97 <=? z) && (z <=? 102)).

Definition hexstring (s : string) : Prop :=
  s <> "" /\ forallb hex_char (chars s) = true.

Definition wellformed (d : string) : Prop :=
  exists h, digest.Hex d = Ret h /\ hexstring h.

(** A path element that [filepath.Clean] keeps as it is. *)
Definition segment (s : string) : Prop :=
  forallb (fun c => negb (Ascii.eqb c "/"%char)) (chars s) = true /\
  s <> "" /\ s <> "." /\ s <> "..".

(** What may follow a JSON value: white space, a comma or a closing
    bracket, or the end of the input. *)
Definition delimiter (c : ascii) : bool :=
  json.is_space c || (c =? ",")%char || (c =? "}")%char || (c =? "]")%char.

Definition safe (y : list ascii) : bool :=
  match y with
  | [] => true
  | c :: _ => delimiter c
  end.

Definition nondigit (y : list ascii) : Prop :=
  match y with
  | [] => True
  | c :: _ => json.is_digit c = false
  end.

(** Text that the scanner takes for one JSON value, alone or before
    what may follow a value. *)
Definition scans (x : list ascii) : Prop :=
  x <> [] /\
  forall (m : nat) (y : list ascii),
    (length x <= m)%nat -> safe y = true -> json.skip_value m (x ++ y) = Some y.

(** [compact] on text, and the two tests it makes before it looks at the
    state of the scanner: an HTML character, and the three bytes of one
    of the line separators U+2028 and U+2029. *)
Definition compacted (in_str esc : bool) (l : list ascii) : list ascii :=
  json.compact_scan in_str esc (map Zascii l).

Definition html (c : Z) : bool := (c =? 60) || (c =? 62) || (c =? 38).

Definition line_separator (c : Z) (r : list Z) : option (Z * list Z) :=
  match r with
  | b :: x :: r' =>
      if (c =? 0xE2) && (b =? 0x80) && ((x =? 0xA8) || (x =? 0xA9)) then Some (x, r')
      else None
  | _ => None
  end.

(** Text [p] that [compact], outside a string, turns into [p'] and
    leaves outside a string. *)
Definition compacts (p p' : list ascii) : Prop :=
  forall x, compacted false false (p ++ x) = p' ++ compacted false false x.

(** A character that [compact] copies outside a string and that opens
    no string. *)
Definition plainchar (c : ascii) : bool :=
  negb (html (Zascii c)) && negb (Zascii c =? 226) && negb (json.is_space c)
  && negb (c =? dquote)%char.

(** The characters of a number. *)
Definition numchar (c : ascii) : bool :=
  json.is_digit c || (c =? "-")%char || (c =? "+")%char || (c =? ".")%char
  || (c =? "e")%char || (c =? "E")%char.

(** A value that [Marshal] writes. *)
Definition marshals (v : json.value) : Prop :=
  forall x, json.encode v = inr x -> scans x.

(** Raw messages that are JSON values. *)
Definition raw_valid (config : gmap string (option (list byte))) : Prop :=
  forall key m, config !! key = Some (Some m) -> json.Valid (json.of_bytes m) = true.

(** The encoding of a member of an object. *)
Definition member (kv : string * json.value) : error + list ascii :=
  match json.encode (snd kv) with
  | inl e => inl e
  | inr x => inr (json.quote (fst kv) ++ ":"%char :: x)
  end.

(** The blobs recorded one after the other in a new writer. *)
Definition recorded (dest : tar.Dest) (infos : list types.BlobInfo) : Writer :=
  fold_left (fun w info => recordBlob info w) infos (NewWriter dest).

(** The repositories of an archive as the specification describes them:
    the tags of all images of the archive, each with the ID of its image,
    a later pair replacing an earlier one. *)
Definition spec_repositories (images : list (string * list reference.NamedTagged))
  : gmap string (gmap string string) :=
  fold_left
    (fun repos image =>
       fold_left
         (fun (repos : gmap string (gmap string string)) t =>
            <[reference.Name t :=
                <[reference.Tag t := fst image]> (default ∅ (repos !! reference.Name t))]> repos)
         (snd image) repos)
    images ∅.

(** [createRepositoriesFile] for each image of an archive, in order. *)
Fixpoint repositories_files (images : list (string * list reference.NamedTagged))
         (w : Writer) : Writer :=
  match images with
  | [] => w
  | image :: images' =>
      repositories_files images' (fst (createRepositoriesFile (fst image) (snd image) w))
  end.

(** The contents of the entries of the archive with a given name. *)
Definition files_named (name : string) (w : Writer) : list (list byte) :=
  map tar.data (filter (fun e => tar.Name (tar.hdr e) = name) (archive w)).

(** From [w] to [w'] the archive gained entries only, whose headers all
    carry the fixed metadata. *)
Definition emits (w w' : Writer) : Prop :=
  exists new, map tar.hdr (archive w') = map tar.hdr (archive w) ++ new /\
              Forall fixed_metadata new.

(** * Properties *)

(** ** The models of the libraries on examples *)

Example sha256_abc :
  sha256_hex "abc" = "ba7816bf8f01cfea414140de5dae2223b00361a396177a9cb410ff61f20015ad".
Proof. vm_compute. reflexivity. Qed.

Example sha256_empty :
  sha256_hex "" = "e3b0c44298fc1c149afbf4c8996fb92427ae41e4649b934ca495991b7852b855".
Proof. vm_compute. reflexivity. Qed.

Example sha256_two_blocks :
  sha256_hex "abcdbcdecdefdefgefghfghighijhijkijkljklmklmnlmnomnopnopq"
  = "248d6a61d20638b8e5c026930c3e6039a33ce45964ff2167f6ecedd419db06c1".
Proof. vm_compute. reflexivity. Qed.

Example Join_layer :
  filepath.Join ["0123abcd"; "layer.tar"] = "0123abcd/layer.tar".
Proof. reflexivity. Qed.

Example Join_dotdot :
  filepath.Join [".."; "0123abcd.tar"] = "../0123abcd.tar".
Proof. reflexivity. Qed.

Example Join_empty_dir :
  filepath.Join [""; "json"] = "json".
Proof. reflexivity. Qed.

Example Clean_examples :
  map filepath.Clean ["a//b/./c/.."; "/../a"; "../../a/.."; ""; "a/.."; "/"; "a/b/../../.."]
  = ["a/b"; "/a"; "../.."; "."; "."; "/"; ".."].
Proof. reflexivity. Qed.

Example Hex_examples :
  map digest.Hex ["sha256:ab12"; "sha256:"; "ab12"; ""; "a:b:c"]
  = [Ret "ab12"; Ret ""; Panic (NoSeparatorInDigest "ab12");
     Panic (NoSeparatorInDigest ""); Ret "b:c"].
Proof. reflexivity. Qed.

Example utf8_roundtrip :
  map (fun r => fst (utf8.DecodeRune (utf8.EncodeRune r)))
      [0x41; 0xE9; 0x20AC; 0x2028; 0x1F600; 0xD800]
  = [0x41; 0xE9; 0x20AC; 0x2028; 0x1F600; 0xFFFD].
Proof. reflexivity. Qed.

Example json_valid :
  map (fun s => json.Valid (chars (dq s)))
    ["{}"; " {'a': [1, 2.5e-3, true, null], 'b': {'c': 'x\n'}} ";
     "{'a':01}"; "{'a':1,}"; "[1 2]"; "'x"; "nul"; "-"; "1.e2"; "{'a' 1}"; ""; "0"]
  = [true; true; false; false; false; false; false; false; false; false; false; true].
Proof. vm_compute. reflexivity. Qed.

(** ** The tar writer *)

Lemma len_app {A} (l1 l2 : list A) : len (l1 ++ l2) = len l1 + len l2.
Proof. unfold len. rewrite length_app. lia. Qed.

Lemma len_nonneg {A} (l : list A) : 0 <= len l.
Proof. unfold len. lia. Qed.

Lemma len_zero {A} (l : list A) : len l <= 0 -> l = [].
Proof. destruct l; [reflexivity | unfold len; simpl; lia]. Qed.

Lemma add_data_snoc (l : list tar.Entry) (e : tar.Entry) (b : list byte) :
  tar.add_data b (l ++ [e]) = l ++ [{| tar.hdr := tar.hdr e; tar.data := tar.data e ++ b |}].
Proof.
  unfold tar.add_data. rewrite rev_app_distr. simpl. now rewrite rev_involutive.
Qed.

Lemma add_data_nil (l : list tar.Entry) : tar.add_data [] l = l.
Proof.
  destruct l as [| e l _] using rev_ind; [reflexivity |].
  rewrite add_data_snoc, app_nil_r. now destruct e.
Qed.

Lemma add_data_app (l : list tar.Entry) (b1 b2 : list byte) :
  tar.add_data b2 (tar.add_data b1 l) = tar.add_data (b1 ++ b2) l.
Proof.
  destruct l as [| e l _] using rev_ind; [reflexivity |].
  rewrite !add_data_snoc. simpl. now rewrite app_assoc.
Qed.

Lemma dest_write_unlimited (d d' : tar.Dest) :
  tar.dest_write d = Some d' -> tar.quota d = None -> tar.quota d' = None.
Proof.
  unfold tar.dest_write. destruct (tar.quota d) as [[| k] |] eqn:E; intros H Hq;
    simplify_eq; assumption.
Qed.

Lemma dest_write_ready (d : tar.Dest) :
  tar.quota d = None -> tar.dest_write d = Some d.
Proof. unfold tar.dest_write. now intros ->. Qed.

(** A header that was written opens an entry without data. *)
Lemma WriteHeader_ok (h : tar.Header) (tw tw' : tar.Writer) :
  tar.WriteHeader h tw = (tw', None) ->
  tar.entries tw' = tar.entries tw ++ [{| tar.hdr := h; tar.data := [] |}] /\
  tar.nb tw' = (if tar.isHeaderOnlyType (tar.Typeflag_ h) then 0 else tar.Size h) /\
  tar.err tw' = None /\
  tar.allowedFormats h = None /\
  (tar.quota (tar.w tw) = None -> tar.quota (tar.w tw') = None).
Proof.
  unfold tar.WriteHeader, tar.Flush.
  destruct (tar.err tw); [discriminate |].
  destruct (0 <? tar.nb tw); [discriminate |].
  destruct (tar.dest_write (tar.w tw)) as [d |] eqn:Hd; [| discriminate].
  destruct (tar.allowedFormats h); [discriminate |]. simpl.
  destruct (tar.dest_write d) as [d' |] eqn:Hd'; [| discriminate].
  intros [= <-]. simpl. repeat split.
  eauto using dest_write_unlimited.
Qed.

(** Whatever [WriteHeader] returns, it keeps the entries or adds the one
    of the header. *)
Lemma WriteHeader_entries (h : tar.Header) (tw tw' : tar.Writer) (e : option error) :
  tar.WriteHeader h tw = (tw', e) ->
  tar.entries tw' = tar.entries tw \/
  tar.entries tw' = tar.entries tw ++ [{| tar.hdr := h; tar.data := [] |}].
Proof.
  unfold tar.WriteHeader, tar.Flush.
  destruct (tar.err tw); [intros [= <- <-]; now left |].
  destruct (0 <? tar.nb tw); [intros [= <- <-]; now left |].
  destruct (tar.dest_write (tar.w tw)) as [d |]; [| intros [= <- <-]; now left].
  destruct (tar.allowedFormats h); [intros [= <- <-]; now left |]. simpl.
  destruct (tar.dest_write d) as [d' |]; intros [= <- <-]; [now right | now left].
Qed.

Lemma WriteHeader_ready (h : tar.Header) (tw : tar.Writer) :
  ready tw -> tar.allowedFormats h = None ->
  exists tw', tar.WriteHeader h tw = (tw', None) /\
              tar.quota (tar.w tw') = None.
Proof.
  intros (He & Hn & Hq) Hh. unfold tar.WriteHeader, tar.Flush.
  rewrite He, Hn, (dest_write_ready _ Hq), Hh. simpl.
  rewrite (dest_write_ready _ Hq).
  eexists. split; [reflexivity | exact Hq].
Qed.

(** The headers of the entries do not change when data is written. *)
Lemma add_data_hdrs (b : list byte) (l : list tar.Entry) :
  map tar.hdr (tar.add_data b l) = map tar.hdr l.
Proof.
  destruct l as [| e l _] using rev_ind; [reflexivity |].
  rewrite add_data_snoc, !map_app. reflexivity.
Qed.

Lemma Write_hdrs (b : list byte) (tw tw' : tar.Writer) (r : Z * option error) :
  tar.Write b tw = (tw', r) -> map tar.hdr (tar.entries tw') = map tar.hdr (tar.entries tw).
Proof.
  unfold tar.Write. destruct (tar.err tw); [now intros [= <- <-] |].
  destruct (0 <? len _); [| now intros [= <- <-]].
  destruct (tar.dest_write _); intros [= <- <-]; simpl; [apply add_data_hdrs | reflexivity].
Qed.

Lemma copy_hdrs cs final written tw tw' r :
  io.copy cs final written tw = (tw', r) ->
  map tar.hdr (tar.entries tw') = map tar.hdr (tar.entries tw).
Proof.
  revert written tw. induction cs as [| c cs IH]; intros written tw; simpl.
  - now intros [= <- <-].
  - destruct (0 <? len c); [| apply IH].
    destruct (tar.Write c tw) as [tw1 [nw ew]] eqn:Hw. apply Write_hdrs in Hw.
    destruct ew; [intros [= <- <-]; exact Hw |].
    destruct (nw =? len c); [| intros [= <- <-]; exact Hw].
    intros H. apply IH in H. congruence.
Qed.

(** A copy that reports no error wrote all the bytes of the reader, which
    fit in the current entry, and the reader ended with [io.EOF]. *)
Lemma copy_ok cs final written tw tw' size :
  tar.err tw = None ->
  io.copy cs final written tw = (tw', (size, None)) ->
  final = None /\
  size = written + len (concat cs) /\
  tar.entries tw' = tar.add_data (concat cs) (tar.entries tw) /\
  tar.nb tw' = tar.nb tw - len (concat cs) /\
  len (concat cs) <= Z.max 0 (tar.nb tw) /\
  tar.err tw' = None /\
  (tar.quota (tar.w tw) = None -> tar.quota (tar.w tw') = None).
Proof.
  revert written tw. induction cs as [| c cs IH]; intros written tw He; simpl.
  - intros H. simplify_eq. rewrite add_data_nil. unfold len; simpl.
    repeat split; try lia; auto.
  - destruct (0 <? len c) eqn:Hc.
    + unfold tar.Write. rewrite He.
      destruct (tar.nb tw <? len c) eqn:Hov.
      * destruct (0 <? len (firstn _ _)); [destruct (tar.dest_write _) |]; simpl; intros [=].
      * rewrite Hc. destruct (tar.dest_write (tar.w tw)) as [d |] eqn:Hd; [| intros [=]].
        rewrite Z.eqb_refl. intros H. apply IH in H; [| reflexivity].
        simpl in H. destruct H as (Hf & Hs & Hent & Hnb & Hle & He' & Hq).
        rewrite add_data_app in Hent. rewrite len_app.
        pose proof (len_nonneg c). pose proof (len_nonneg (concat cs)).
        repeat split; try assumption; try lia.
        intros Hq0. apply Hq. eauto using dest_write_unlimited.
    + assert (c = []) as -> by (apply len_zero; lia). simpl. apply IH, He.
Qed.

(** On a writer that is ready for them, the bytes of a [bytes.Reader] that
    fit the entry are copied. *)
Lemma copy_ready (b : list byte) (tw : tar.Writer) :
  tar.err tw = None -> tar.quota (tar.w tw) = None -> tar.nb tw = len b ->
  exists tw', io.Copy tw (io.NewReader b) = (tw', (len b, None)).
Proof.
  intros He Hq Hn. unfold io.Copy, io.NewReader. simpl.
  destruct (0 <? len b) eqn:Hb.
  - unfold tar.Write.
    rewrite He, Hn, Z.ltb_irrefl, Hb, (dest_write_ready _ Hq), Z.eqb_refl.
    eexists. reflexivity.
  - exists tw. pose proof (len_nonneg b).
    replace (len b) with 0 by lia. reflexivity.
Qed.

(** ** The entry emitter, with the headers of [archive/tar] *)

Lemma FileInfoHeader_file (path : string) (n : Z) :
  FileInfoHeader {| path := path; size := n; isSymlink := false |} ""
  = inr (file_header path n).
Proof. reflexivity. Qed.

Lemma FileInfoHeader_symlink (path target : string) :
  FileInfoHeader {| path := path; size := 0; isSymlink := true |} target
  = inr (symlink_header path target).
Proof. reflexivity. Qed.

Lemma fixed_file (path : string) (n : Z) : fixed_metadata (file_header path n).
Proof. split; [reflexivity | left; split; reflexivity]. Qed.

Lemma fixed_symlink (path target : string) : fixed_metadata (symlink_header path target).
Proof. split; [reflexivity | right; repeat split; reflexivity]. Qed.

Lemma sendSymlink_ok (path target : string) (w w' : Writer) :
  sendSymlink path target w = (w', None) ->
  archive w' = archive w ++ [symlink_entry path target] /\
  blobs w' = blobs w /\
  tar.nb (tar w') = 0 /\ tar.err (tar w') = None /\
  (tar.quota (writer w) = None -> tar.quota (writer w') = None).
Proof.
  unfold sendSymlink. rewrite FileInfoHeader_symlink.
  destruct (tar.WriteHeader _ _) as [t e] eqn:Hh. intros H. simplify_eq.
  apply WriteHeader_ok in Hh as (Hent & Hnb & He & _ & Hq).
  unfold archive, writer. simpl. auto.
Qed.

Lemma sendFile_ok (path : string) (n : Z) (stream : io.Reader) (w w' : Writer) :
  sendFile path n stream w = (w', None) ->
  archive w' = archive w
               ++ [{| tar.hdr := file_header path n; tar.data := io.content stream |}] /\
  len (io.content stream) = n /\
  io.rerr stream = None /\
  blobs w' = blobs w /\
  tar.nb (tar w') = 0 /\ tar.err (tar w') = None /\
  (tar.quota (writer w) = None -> tar.quota (writer w') = None).
Proof.
  unfold sendFile. rewrite FileInfoHeader_file.
  destruct (tar.WriteHeader _ _) as [t [e |]] eqn:Hh; [intros [=] |].
  apply WriteHeader_ok in Hh as (Hent & Hnb & He & _ & Hq).
  destruct (io.Copy t stream) as [t' [sz [e |]]] eqn:Hc; [intros [=] |].
  destruct (sz =? n) eqn:Hsz; simpl; [| intros [=]]. intros H. simplify_eq.
  apply Z.eqb_eq in Hsz. subst sz.
  apply copy_ok in Hc as (Hf & Hs & Hent' & Hnb' & _ & He' & Hq'); [| assumption].
  fold (io.content stream) in *. unfold archive, writer. simpl in *.
  rewrite Hent', Hent, add_data_snoc. simpl.
  repeat split; auto; try lia.
Qed.

Lemma sendBytes_ok (path : string) (b : list byte) (w w' : Writer) :
  sendBytes path b w = (w', None) ->
  archive w' = archive w ++ [file_entry path b] /\
  blobs w' = blobs w /\
  tar.nb (tar w') = 0 /\ tar.err (tar w') = None /\
  (tar.quota (writer w) = None -> tar.quota (writer w') = None).
Proof.
  unfold sendBytes. intros H. apply sendFile_ok in H as (Ha & _ & _ & Hb & Hn & He & Hq).
  unfold io.content, io.NewReader in Ha. simpl in Ha. rewrite app_nil_r in Ha.
  auto.
Qed.

(** On a writer that is ready, a file whose header can be encoded is
    written, and the writer is ready again. *)
Lemma sendBytes_ready (path : string) (b : list byte) (w : Writer) :
  ready (tar w) ->
  tar.allowedFormats (file_header path (len b)) = None ->
  exists w', sendBytes path b w = (w', None) /\ ready (tar w').
Proof.
  intros Hr Hh. unfold sendBytes, sendFile. rewrite FileInfoHeader_file.
  destruct (WriteHeader_ready _ _ Hr Hh) as (t & Ht & Hq). rewrite Ht.
  apply WriteHeader_ok in Ht as (_ & Hnb & He & _ & _). simpl in Hnb.
  destruct (copy_ready b t He Hq Hnb) as (t' & Hc). rewrite Hc, Z.eqb_refl. simpl.
  eexists. split; [reflexivity |].
  apply copy_ok in Hc as (_ & _ & _ & Hnb' & _ & He' & Hq'); [| assumption].
  simpl in Hnb'. rewrite app_nil_r in Hnb'.
  repeat split; simpl; auto; lia.
Qed.

Lemma sendSymlink_ready (path target : string) (w : Writer) :
  ready (tar w) ->
  tar.allowedFormats (symlink_header path target) = None ->
  exists w', sendSymlink path target w = (w', None) /\ ready (tar w').
Proof.
  intros Hr Hh. unfold sendSymlink. rewrite FileInfoHeader_symlink.
  destruct (WriteHeader_ready _ _ Hr Hh) as (t & Ht & Hq). rewrite Ht.
  apply WriteHeader_ok in Ht as (_ & Hnb & He & _ & _). simpl in Hnb.
  eexists. split; [reflexivity |]. repeat split; simpl; auto.
Qed.

(** *** The headers of the entries *)

Lemma emits_refl (w : Writer) : emits w w.
Proof. exists []. now rewrite app_nil_r. Qed.

Lemma emits_trans (w1 w2 w3 : Writer) : emits w1 w2 -> emits w2 w3 -> emits w1 w3.
Proof.
  intros (n1 & H1 & F1) (n2 & H2 & F2). exists (n1 ++ n2).
  split; [now rewrite H2, H1, app_assoc | now apply Forall_app].
Qed.

Lemma emits_hdrs (w w' : Writer) :
  map tar.hdr (archive w') = map tar.hdr (archive w) -> emits w w'.
Proof. intros H. exists []. now rewrite app_nil_r. Qed.

Lemma sendSymlink_emits path target w w' e :
  sendSymlink path target w = (w', e) -> emits w w'.
Proof.
  unfold sendSymlink. rewrite FileInfoHeader_symlink.
  destruct (tar.WriteHeader _ _) as [t e'] eqn:Hh. intros H. simplify_eq.
  apply WriteHeader_entries in Hh as [Hh | Hh].
  - apply emits_hdrs. unfold archive. simpl. now rewrite Hh.
  - exists [symlink_header path target]. unfold archive. simpl.
    rewrite Hh, map_app. split; [reflexivity |].
    constructor; [apply fixed_symlink | constructor].
Qed.

Lemma sendFile_emits path n stream w w' e :
  sendFile path n stream w = (w', e) -> emits w w'.
Proof.
  unfold sendFile. rewrite FileInfoHeader_file.
  destruct (tar.WriteHeader _ _) as [t e'] eqn:Hh.
  assert (emits w (set_tar w t)) as Ht.
  { apply WriteHeader_entries in Hh as [Hh | Hh].
    - apply emits_hdrs. unfold archive. simpl. now rewrite Hh.
    - exists [file_header path n]. unfold archive. simpl.
      rewrite Hh, map_app. split; [reflexivity |].
      constructor; [apply fixed_file | constructor]. }
  destruct e'; [intros H; simplify_eq; exact Ht |].
  destruct (io.Copy t stream) as [t' [sz er]] eqn:Hc.
  apply copy_hdrs in Hc.
  assert (emits w (set_tar w t')) as Ht'.
  { eapply emits_trans; [exact Ht |]. apply emits_hdrs. exact Hc. }
  destruct er; [intros H; simplify_eq; exact Ht' |].
  destruct (negb _); intros H; simplify_eq; exact Ht'.
Qed.

Lemma sendBytes_emits path b w w' e :
  sendBytes path b w = (w', e) -> emits w w'.
Proof. apply sendFile_emits. Qed.

(** ** The legacy metadata *)

Ltac unfold_body :=
  unfold mbind, body_bind, bind, call, check, checked, pure; simpl.

(** A turn of the loop that goes on to the next layer wrote the three
    entries of its layer. *)
Lemma layer_ok n configBytes i l v w w' v1 :
  layer n configBytes i l v w = (w', Next v1) ->
  exists o, layer_spec n configBytes i l v o v1 /\
            archive w' = archive w ++ layer_entries o /\
            blobs w' = blobs w /\
            tar.nb (tar w') = 0 /\ tar.err (tar w') = None /\
            (tar.quota (writer w) = None -> tar.quota (writer w') = None).
Proof.
  unfold layer. fold (next_chainID (chainID v) (manifest.Digest l)).
  set (cid := next_chainID _ _). unfold_body.
  destruct (digest.Hex cid) as [id | ?] eqn:Hid; [| intros [=]].
  destruct (physicalLayerPath _) as [p | ?] eqn:Hp; [| intros [=]].
  destruct (sendSymlink _ _ w) as [w1 [e |]] eqn:H1; [intros [=] |].
  destruct (sendBytes _ _ w1) as [w2 [e |]] eqn:H2; [intros [=] |].
  apply sendSymlink_ok in H1 as (A1 & B1 & _ & _ & Q1).
  apply sendBytes_ok in H2 as (A2 & B2 & _ & _ & Q2).
  assert (forall lc b w3,
             json.Marshal (json.of_map of_iface lc) = inr b ->
             sendBytes (filepath.Join [id; legacyConfigFileName]) b w2 = (w3, None) ->
             archive w3 = archive w ++ layer_entries
                            {| lo_id := id; lo_path := p; lo_config := lc; lo_json := b |} /\
             blobs w3 = blobs w /\ tar.nb (tar w3) = 0 /\ tar.err (tar w3) = None /\
             (tar.quota (writer w) = None -> tar.quota (writer w3) = None)) as Hlast.
  { intros lc b w3 _ H3. apply sendBytes_ok in H3 as (A3 & B3 & N3 & E3 & Q3).
    unfold layer_entries. simpl. rewrite A3, A2, A1, <- !app_assoc. simpl.
    repeat split; auto; congruence. }
  unfold layer_spec. fold cid.
  destruct (i =? n - 1) eqn:Hi.
  - destruct (json.Unmarshal configBytes) as [e | config] eqn:Hu; [intros [=] |].
    destruct (json.Marshal _) as [e | b] eqn:Hm; [intros [=] |].
    destruct (sendBytes _ b w2) as [w3 [e |]] eqn:H3; intros H; simplify_eq.
    eexists {| lo_id := id; lo_path := p; lo_json := b |}. simpl.
    split; [| eapply Hlast; eassumption].
    repeat split; eauto.
  - destruct (json.Marshal _) as [e | b] eqn:Hm; [intros [=] |].
    destruct (sendBytes _ b w2) as [w3 [e |]] eqn:H3; intros H; simplify_eq.
    eexists {| lo_id := id; lo_path := p; lo_json := b |}. simpl.
    split; [| eapply Hlast; eassumption].
    repeat split; eauto.
Qed.

(** A turn of the loop that returns from the function returns an error. *)
Lemma layer_return n configBytes i l v w w' r :
  layer n configBytes i l v w = (w', Return r) ->
  exists msg err, r = failed msg err.
Proof.
  unfold layer. unfold_body.
  destruct (digest.Hex _); [| intros [=]].
  destruct (physicalLayerPath _); [| intros [=]].
  destruct (sendSymlink _ _ w) as [w1 [e |]]; [intros [= <- <-]; eauto |].
  destruct (sendBytes _ _ w1) as [w2 [e |]]; [intros [= <- <-]; eauto |].
  destruct (i =? n - 1).
  - destruct (json.Unmarshal configBytes) as [e | config]; [intros [= <- <-]; eauto |].
    destruct (json.Marshal _) as [e | b]; [intros [= <- <-]; eauto |].
    destruct (sendBytes _ b w2) as [w3 [e |]]; intros H; simplify_eq; eauto.
  - destruct (json.Marshal _) as [e | b]; [intros [= <- <-]; eauto |].
    destruct (sendBytes _ b w2) as [w3 [e |]]; intros H; simplify_eq; eauto.
Qed.

Lemma layers_from_return n configBytes ls :
  forall i v w w' r,
    layers_from n configBytes i ls v w = (w', Return r) ->
    exists msg err, r = failed msg err.
Proof.
  induction ls as [| l ls IH]; intros i v w w' r; simpl.
  - intros [=].
  - unfold mbind, body_bind, bind.
    destruct (layer n configBytes i l v w) as [w1 [v1 | r1 | p]] eqn:Hl.
    + apply IH.
    + intros H. simplify_eq. eapply layer_return, Hl.
    + intros [=].
Qed.

(** A loop that ends wrote the entries of its layers, one turn after the
    other. *)
Lemma layers_from_ok n configBytes ls :
  forall i v w w' v',
    layers_from n configBytes i ls v w = (w', Next v') ->
    exists outs, trace n configBytes i ls v outs v' /\
                 archive w' = archive w ++ flat_map layer_entries outs /\
                 blobs w' = blobs w /\
                 (tar.quota (writer w) = None -> tar.quota (writer w') = None).
Proof.
  induction ls as [| l ls IH]; intros i v w w' v'; simpl.
  - intros H. unfold pure in H. simplify_eq. exists []. simpl.
    rewrite app_nil_r. repeat split; auto.
  - unfold mbind, body_bind, bind.
    destruct (layer n configBytes i l v w) as [w1 [v1 | r1 | p]] eqn:Hl;
      try (intros [=]; fail).
    intros H. apply layer_ok in Hl as (o & Hs & Ha & Hb & Hn & He & Hq).
    apply IH in H as (outs & Ht & Ha' & Hb' & Hq').
    exists (o :: outs). simpl. repeat split.
    + exists v1. auto.
    + rewrite Ha', Ha, <- !app_assoc. reflexivity.
    + congruence.
    + auto.
Qed.

Lemma Hex_nonempty (d h : string) : digest.Hex d = Ret h -> d <> "".
Proof. intros H ->. discriminate H. Qed.

Lemma next_chainID_first (d : string) : next_chainID "" d = d.
Proof. reflexivity. Qed.

Lemma next_chainID_hash (c d : string) :
  c <> "" -> next_chainID c d = digest.FromString (c +:+ " " +:+ d).
Proof.
  intros Hc. unfold next_chainID.
  destruct (String.eqb_spec c ""); [contradiction | reflexivity].
Qed.

Lemma nth_digest (pre ls : list manifest.Schema2Descriptor) l :
  nth (length pre) (map manifest.Digest (pre ++ l :: ls)) "" = manifest.Digest l.
Proof.
  rewrite map_app, app_nth2; rewrite length_map; [| lia].
  now rewrite Nat.sub_diag.
Qed.

Lemma last_id_previous (pouts rest : list layer_out) (j : nat) :
  length pouts = S j ->
  default "" (last (map lo_id pouts)) = previous_id (pouts ++ rest) (S j).
Proof.
  intros Hl. unfold previous_id.
  rewrite last_lookup, length_map, Hl. simpl.
  rewrite list_lookup_fmap, lookup_app_l by lia. reflexivity.
Qed.

Lemma elems_layerPaths (digests : list string) (outs : list layer_out) :
  elems (layerPaths (vars_after digests outs)) = map lo_path outs.
Proof. destruct outs; reflexivity. Qed.

Lemma vars_after_snoc (digests : list string) (pouts : list layer_out) (o : layer_out) :
  vars_after digests (pouts ++ [o])
  = {| chainID := spec_chainID digests (length pouts);
       lastLayerID := lo_id o;
       layerPaths := append (layerPaths (vars_after digests pouts)) (lo_path o) |}.
Proof.
  unfold vars_after at 1. rewrite length_app, Nat.add_comm. simpl. f_equal.
  - rewrite (map_app lo_id). simpl. now rewrite last_snoc.
  - destruct pouts; [reflexivity |]. unfold append. simpl.
    now rewrite (map_app lo_path).
Qed.

(** The turns of the loop, read against the specification: the chain ID
    of the loop is the one of the specification at every layer. *)
Lemma trace_facts configBytes (all : list manifest.Schema2Descriptor) :
  forall ls pre pouts outs v',
    all = pre ++ ls ->
    length pouts = length pre ->
    (forall j, length pouts = S j -> spec_chainID (map manifest.Digest all) j <> "") ->
    trace (len all) configBytes (len pre) ls
          (vars_after (map manifest.Digest all) pouts) outs v' ->
    v' = vars_after (map manifest.Digest all) (pouts ++ outs) /\
    length outs = length ls /\
    forall k l o,
      ls !! k = Some l -> outs !! k = Some o ->
      layer_fact (map manifest.Digest all) configBytes (pouts ++ outs)
                 (length pre + k) l o.
Proof.
  set (ds := map manifest.Digest all).
  induction ls as [| l ls IH]; intros pre pouts outs v' Hall Hlen Hne Ht.
  - destruct outs; [| contradiction]. simpl in Ht. subst v'.
    rewrite app_nil_r. split; [reflexivity |]. split; [reflexivity |].
    intros ? ? ? Hk. discriminate Hk.
  - destruct outs as [| o outs]; [contradiction |].
    destruct Ht as (v1 & (Hid & Hp & Hv1 & Hcfg & Hm) & Ht).
    assert (next_chainID (chainID (vars_after ds pouts)) (manifest.Digest l)
            = spec_chainID ds (length pouts)) as Hcid.
    { unfold vars_after. simpl. destruct (length pouts) as [| j] eqn:Hj.
      - rewrite next_chainID_first. simpl.
        destruct pre; [| discriminate]. subst all. reflexivity.
      - rewrite next_chainID_hash by (apply Hne; reflexivity). simpl.
        subst ds all. now rewrite Hlen, nth_digest. }
    rewrite Hcid in Hid, Hv1.
    rewrite <- vars_after_snoc in Hv1. subst v1.
    replace (len pre + 1) with (len (pre ++ [l])) in Ht
      by (unfold len; rewrite length_app; simpl; lia).
    apply IH in Ht as (Hv' & Hlen' & Hfacts).
    + rewrite <- app_assoc in Hv', Hfacts. simpl in Hv', Hfacts.
      split; [exact Hv' |]. split; [simpl; congruence |].
      intros [| k] l' o' Hl' Ho'; simpl in Hl', Ho'.
      * assert (l' = l) as -> by congruence.
        assert (o' = o) as -> by congruence.
        rewrite Nat.add_0_r.
        repeat split; try assumption; [congruence |].
        replace (len ds) with (len all)
          by (unfold ds, len; now rewrite length_map).
        replace (Z.of_nat (length pre)) with (len pre) by reflexivity.
        assert (lastLayerID (vars_after ds pouts)
                = previous_id (pouts ++ o :: outs) (length pre)) as <-; [| exact Hcfg].
        destruct (length pre) as [| j] eqn:Hj.
        -- destruct pouts; [reflexivity | discriminate].
        -- apply last_id_previous. congruence.
      * specialize (Hfacts k l' o' Hl' Ho').
        rewrite length_app in Hfacts. simpl in Hfacts.
        now replace (length pre + S k)%nat with (length pre + 1 + k)%nat by lia.
    + rewrite Hall, <- app_assoc. reflexivity.
    + rewrite !length_app. simpl. lia.
    + intros j Hj. rewrite length_app in Hj. simpl in Hj.
      assert (j = length pouts) as -> by lia.
      eapply Hex_nonempty, Hid.
Qed.

(** A call that returns without an error went through every layer. *)
Lemma legacy_run layers configBytes w w' paths lastID :
  writeLegacyLayerMetadata layers configBytes w = (w', Ret (paths, lastID, None)) ->
  exists outs,
    length outs = length layers /\
    archive w' = archive w ++ flat_map layer_entries outs /\
    blobs w' = blobs w /\
    paths = layerPaths (vars_after (map manifest.Digest layers) outs) /\
    lastID = default "" (last (map lo_id outs)) /\
    forall k l o,
      layers !! k = Some l -> outs !! k = Some o ->
      layer_fact (map manifest.Digest layers) configBytes outs k l o.
Proof.
  unfold writeLegacyLayerMetadata.
  destruct (layers_from _ _ _ _ _ w) as [w1 [v | r | p]] eqn:Hrun; intros H.
  - apply layers_from_ok in Hrun as (outs & Ht & Ha & Hb & _).
    change 0 with (len (@nil manifest.Schema2Descriptor)) in Ht.
    change {| chainID := ""; lastLayerID := ""; layerPaths := Nil |}
      with (vars_after (map manifest.Digest layers) []) in Ht.
    apply trace_facts in Ht as (Hv & Hlen & Hfacts);
      [| reflexivity | reflexivity | intros j [=]].
    simpl in Hv, Hfacts. simplify_eq. exists outs.
    do 5 (split; [auto |]). exact Hfacts.
  - apply layers_from_return in Hrun as (msg & err & ->). discriminate H.
  - discriminate H.
Qed.

Lemma fold_insert_lookup {V} (f : string -> V) (l : list string) :
  forall (m : gmap string V) (key : string),
    fold_left (fun m a => <[a := f a]> m) l m !! key
    = if decide (key ∈ l) then Some (f key) else m !! key.
Proof.
  induction l as [| a l IH]; intros m key; simpl.
  - destruct (decide (key ∈ [])) as [Hin | _]; [inversion Hin | reflexivity].
  - rewrite IH. destruct (decide (key ∈ l)) as [Hin | Hnin].
    + rewrite decide_True by (now right). reflexivity.
    + destruct (decide (key = a)) as [-> | Hne].
      * rewrite decide_True by (now left). apply lookup_insert_eq.
      * rewrite decide_False by (intros [? | ?]%elem_of_cons; contradiction).
        now rewrite lookup_insert_ne by congruence.
Qed.

Lemma top_config_lookup config lc (key : string) :
  top_config config lc !! key
  = if decide (key ∈ attrs) then Some (IRawMessage (default None (config !! key)))
    else lc !! key.
Proof.
  unfold top_config.
  apply (fold_insert_lookup (fun a => IRawMessage (default None (config !! a)))).
Qed.

Lemma base_config_id (id prev : string) : base_config id prev !! "id" = Some (IString id).
Proof.
  unfold base_config. destruct (negb _); [rewrite lookup_insert_ne by discriminate |];
    apply lookup_insert_eq.
Qed.

Lemma base_config_parent (id prev : string) :
  base_config id prev !! "parent"
  = if String.eqb prev "" then None else Some (IString prev).
Proof.
  unfold base_config. destruct (String.eqb prev ""); simpl.
  - rewrite lookup_insert_ne by discriminate. apply lookup_empty.
  - apply lookup_insert_eq.
Qed.

Lemma base_config_other (id prev key : string) :
  key <> "id" -> key <> "parent" -> base_config id prev !! key = None.
Proof.
  intros H1 H2. unfold base_config.
  destruct (negb _); rewrite ?lookup_insert_ne by congruence; apply lookup_empty.
Qed.



(** ** The blob registry *)

Lemma recorded_snoc dest infos info :
  recorded dest (infos ++ [info]) = recordBlob info (recorded dest infos).
Proof. unfold recorded. now rewrite fold_left_app. Qed.

(** The registry holds, for a digest, the blob recorded last with it. *)
Lemma recorded_lookup dest infos (d : string) :
  blobs (recorded dest infos) !! d
  = last (filter (fun r => types.Digest r = d) infos).
Proof.
  induction infos as [| info infos IH] using rev_ind; [reflexivity |].
  rewrite recorded_snoc, filter_app. simpl.
  destruct (decide (types.Digest info = d)) as [<- | Hne].
  - rewrite lookup_insert_eq, filter_cons_True by reflexivity.
    rewrite filter_nil. now rewrite last_snoc.
  - rewrite lookup_insert_ne, filter_cons_False, filter_nil, app_nil_r by assumption.
    exact IH.
Qed.

(** C3. [tryReusingBlob] returns an error for an empty digest; for a
    digest that [recordBlob] recorded, it returns [true] and the queried
    digest with the size recorded (last) for it, and no error; for any
    other digest it returns [false], an empty [BlobInfo] and no error. *)
Theorem tryReusingBlob_recorded (dest : tar.Dest) (infos : list types.BlobInfo)
        (info : types.BlobInfo) :
  let w := recorded dest infos in
  let empty := {| types.Digest := ""; types.Size := 0 |} in
  if String.eqb (types.Digest info) "" then
    exists err, tryReusingBlob info w = (false, empty, Some err)
  else
    match last (filter (fun r => types.Digest r = types.Digest info) infos) with
    | Some r =>
        tryReusingBlob info w
        = (true, {| types.Digest := types.Digest info; types.Size := types.Size r |}, None)
    | None => tryReusingBlob info w = (false, empty, None)
    end.
Proof.
  intros w empty. unfold tryReusingBlob.
  destruct (String.eqb (types.Digest info) ""); [eauto |].
  unfold w. rewrite recorded_lookup.
  destruct (last _); reflexivity.
Qed.

(** The registry on an example: the size returned is the recorded one,
    not the one of the query. *)
Example tryReusingBlob_example :
  let w := recorded {| tar.quota := None |}
             [ {| types.Digest := "sha256:aa"; types.Size := 10 |};
               {| types.Digest := "sha256:bb"; types.Size := 20 |} ] in
  tryReusingBlob {| types.Digest := "sha256:aa"; types.Size := -1 |} w
  = (true, {| types.Digest := "sha256:aa"; types.Size := 10 |}, None) /\
  tryReusingBlob {| types.Digest := "sha256:cc"; types.Size := 5 |} w
  = (false, {| types.Digest := ""; types.Size := 0 |}, None) /\
  tryReusingBlob {| types.Digest := ""; types.Size := 5 |} w
  = (false, {| types.Digest := ""; types.Size := 0 |},
     Some (Errorf "Can not check for a blob with unknown digest")).
Proof. vm_compute. repeat split. Qed.

(** ** The entry emitter *)

(** The construction of a header does not fail for a [tarFI], whose mode
    is that of a regular file or of a symbolic link: [sendSymlink] and
    [sendFile] always go on to [WriteHeader], and never take the branch
    that returns [nil] for an error of [FileInfoHeader]. *)
Lemma FileInfoHeader_tarFI (t : tarFI) (link : string) :
  exists h, FileInfoHeader t link = inr h.
Proof. destruct t as [p s [|]]; eexists; reflexivity. Qed.

Lemma payload_snoc (l : list tar.Entry) (e : tar.Entry) :
  fold_right (fun e acc => len (tar.data e) + acc) 0 (l ++ [e])
  = fold_right (fun e acc => len (tar.data e) + acc) 0 l + len (tar.data e).
Proof. induction l as [| x l IH]; simpl; lia. Qed.

(** C5. A call of [sendFile] that copies a number of bytes other than
    [expectedSize] returns an error; a call that returns [nil] added one
    entry, whose header declares [expectedSize] bytes and whose data are
    all the bytes of the stream, [expectedSize] of them. *)
Theorem sendFile_checks_size (path : string) (expectedSize : Z) (stream : io.Reader)
        (w w' : Writer) (err : option error) :
  sendFile path expectedSize stream w = (w', err) ->
  (tar.payload (tar w') - tar.payload (tar w) <> expectedSize -> err <> None) /\
  (len (io.content stream) <> expectedSize -> err <> None) /\
  (err = None ->
   archive w' = archive w ++ [{| tar.hdr := file_header path expectedSize;
                                 tar.data := io.content stream |}] /\
   len (io.content stream) = expectedSize /\
   tar.payload (tar w') - tar.payload (tar w) = expectedSize).
Proof.
  intros H.
  assert (err = None ->
          archive w' = archive w ++ [{| tar.hdr := file_header path expectedSize;
                                        tar.data := io.content stream |}] /\
          len (io.content stream) = expectedSize /\
          tar.payload (tar w') - tar.payload (tar w) = expectedSize) as Hok.
  { intros ->. apply sendFile_ok in H as (Ha & Hl & _).
    repeat split; try assumption.
    unfold tar.payload. unfold archive in Ha.
    rewrite Ha, payload_snoc. simpl. lia. }
  split; [| split]; [| | exact Hok]; intros Hne ->;
    destruct (Hok eq_refl) as (_ & ? & ?); contradiction.
Qed.

(** A stream of four bytes declared as five, as three and as four. *)
Lemma sendFile_checks_size_witness :
  let w := NewWriter {| tar.quota := None |} in
  let short := {| io.chunks := [bytes_of_string "ab"; bytes_of_string "cd"];
                  io.rerr := None |} in
  snd (sendFile "blob.tar" 5 short w) <> None /\
  snd (sendFile "blob.tar" 3 short w) <> None /\
  snd (sendFile "blob.tar" 4 short w) = None.
Proof.
  intros w short.
  pose proof (fun n => sendFile_checks_size "blob.tar" n short w
                         (fst (sendFile "blob.tar" n short w))
                         (snd (sendFile "blob.tar" n short w))
                         (surjective_pairing _)) as H.
  split; [| split].
  - apply (H 5). vm_compute. discriminate.
  - apply (H 3). vm_compute. discriminate.
  - vm_compute. reflexivity.
Defined.

(** *** Every operation of the writer emits entries with fixed metadata *)

Ltac stop_here := intros H; simplify_eq; eauto using emits_refl.

Lemma layer_emits n configBytes i l v w w' r :
  layer n configBytes i l v w = (w', r) -> emits w w'.
Proof.
  unfold layer. unfold_body.
  destruct (digest.Hex _) as [id | ?]; [| stop_here].
  destruct (physicalLayerPath _); [| stop_here].
  destruct (sendSymlink _ _ w) as [w1 e1] eqn:H1. apply sendSymlink_emits in H1.
  destruct e1; [stop_here |].
  destruct (sendBytes _ _ w1) as [w2 e2] eqn:H2. apply sendBytes_emits in H2.
  pose proof (emits_trans _ _ _ H1 H2) as H12.
  destruct e2; [stop_here |].
  assert (forall b w3 e3,
             sendBytes (filepath.Join [id; legacyConfigFileName]) b w2 = (w3, e3) ->
             emits w w3) as H3.
  { intros b w3 e3 H3. apply sendBytes_emits in H3. eauto using emits_trans. }
  destruct (i =? n - 1).
  - destruct (json.Unmarshal configBytes); [stop_here |].
    destruct (json.Marshal _); [stop_here |].
    destruct (sendBytes _ _ w2) as [w3 [e3 |]] eqn:H4; stop_here.
  - destruct (json.Marshal _); [stop_here |].
    destruct (sendBytes _ _ w2) as [w3 [e3 |]] eqn:H4; stop_here.
Qed.

Lemma layers_from_emits n configBytes ls :
  forall i v w w' r, layers_from n configBytes i ls v w = (w', r) -> emits w w'.
Proof.
  induction ls as [| l ls IH]; intros i v w w' r; simpl.
  - unfold pure. stop_here.
  - unfold mbind, body_bind, bind.
    destruct (layer n configBytes i l v w) as [w1 [v1 | r1 | p]] eqn:Hl;
      apply layer_emits in Hl; [| stop_here | stop_here].
    intros H. apply IH in H. eauto using emits_trans.
Qed.

Lemma writeLegacyLayerMetadata_emits layers configBytes w :
  emits w (fst (writeLegacyLayerMetadata layers configBytes w)).
Proof.
  unfold writeLegacyLayerMetadata.
  destruct (layers_from _ _ _ _ _ w) as [w1 r] eqn:H.
  apply layers_from_emits in H. destruct r; exact H.
Qed.

Lemma createRepositoriesFile_emits rootLayerID repoTags w :
  emits w (fst (createRepositoriesFile rootLayerID repoTags w)).
Proof.
  unfold createRepositoriesFile.
  destruct (json.Marshal _); [apply emits_refl |].
  destruct (sendBytes _ _ w) as [w1 e] eqn:H. apply sendBytes_emits in H.
  destruct e; exact H.
Qed.

Lemma createManifest_emits configDigest layerPaths repoTags w :
  emits w (fst (createManifest configDigest layerPaths repoTags w)).
Proof.
  unfold createManifest.
  destruct (configPath _); [| apply emits_refl].
  destruct (json.Marshal _); [apply emits_refl |].
  destruct (sendBytes _ _ w) as [w1 e] eqn:H. apply sendBytes_emits in H. exact H.
Qed.

(** C6. The methods of [tarFI] give the Unix epoch as modification time
    and, as mode, [0444] for a file and the symlink mode for a symbolic
    link; and every entry that an operation of the writer adds to the
    archive has a header with the epoch as modification time that is
    either a regular file with permission bits [0444] or a symbolic link
    of size 0, whatever the paths, sizes, streams, layers, configuration
    or tags are. *)
Theorem entries_have_fixed_metadata :
  (forall t : tarFI,
      TarFI.ModTime t = time.Unix 0 0 /\
      TarFI.ModTime t = time.epoch /\
      TarFI.Mode t = (if isSymlink t then os.ModeSymlink else perm_0444)) /\
  (forall path target w, emits w (fst (sendSymlink path target w))) /\
  (forall path expectedSize stream w, emits w (fst (sendFile path expectedSize stream w))) /\
  (forall path b w, emits w (fst (sendBytes path b w))) /\
  (forall layers configBytes w,
      emits w (fst (writeLegacyLayerMetadata layers configBytes w))) /\
  (forall rootLayerID repoTags w,
      emits w (fst (createRepositoriesFile rootLayerID repoTags w))) /\
  (forall configDigest layerPaths repoTags w,
      emits w (fst (createManifest configDigest layerPaths repoTags w))).
Proof.
  repeat split.
  - intros; eapply sendSymlink_emits, surjective_pairing.
  - intros; eapply sendFile_emits, surjective_pairing.
  - intros; eapply sendBytes_emits, surjective_pairing.
  - intros; apply writeLegacyLayerMetadata_emits.
  - intros; apply createRepositoriesFile_emits.
  - intros; apply createManifest_emits.
Qed.

(** ** Marshalling values without raw messages *)

Lemma elem_of_map {A B} (f : A -> B) (l : list A) (y : B) :
  y ∈ map f l -> exists x, y = f x /\ x ∈ l.
Proof.
  rewrite list_elem_of_In, in_map_iff. intros (x & <- & H).
  exists x. split; [reflexivity | now apply list_elem_of_In].
Qed.

Lemma all_ok_total {A B} (g : A -> error + B) (l : list A) :
  (forall a, a ∈ l -> exists x, g a = inr x) ->
  exists xs, json.all_ok (map g l) = inr xs.
Proof.
  induction l as [| a l IH]; intros H; simpl; [eauto |].
  destruct (H a) as (x & ->); [left |].
  destruct IH as (xs & ->); [intros; apply H; now right | eauto].
Qed.

Lemma encode_Str (s : string) : json.encode (json.Str s) = inr (json.quote s).
Proof. reflexivity. Qed.

Lemma encode_Arr_total (l : list json.value) :
  (forall v, v ∈ l -> exists x, json.encode v = inr x) ->
  exists x, json.encode (json.Arr l) = inr x.
Proof.
  intros H. simpl. destruct (all_ok_total json.encode l H) as (xs & Hxs).
  change (json.all_ok (map json.encode l)) with (json.all_ok (map json.encode l)).
  rewrite Hxs. eauto.
Qed.

Lemma encode_Obj (l : list (string * json.value)) :
  json.encode (json.Obj l)
  = match json.all_ok (map member l) with
    | inl e => inl e
    | inr xs => inr ("{"%char :: json.commas xs ++ ["}"%char])
    end.
Proof. reflexivity. Qed.

Lemma encode_Obj_total (l : list (string * json.value)) :
  (forall kv, kv ∈ l -> exists x, json.encode (snd kv) = inr x) ->
  exists x, json.encode (json.Obj l) = inr x.
Proof.
  intros H. rewrite encode_Obj.
  destruct (all_ok_total member l) as (xs & Hxs).
  { intros kv Hkv. unfold member. destruct (H kv Hkv) as (x & ->). eauto. }
  rewrite Hxs. eauto.
Qed.

Lemma encode_strings_total (s : slice string) :
  exists x, json.encode (json.of_strings s) = inr x.
Proof.
  destruct s as [| l]; [simpl; eauto |].
  apply encode_Arr_total. intros v (s & -> & _)%elem_of_map. simpl. eauto.
Qed.

Lemma encode_of_map_total {V} (f : V -> json.value) (m : gmap string V) :
  (forall v, exists x, json.encode (f v) = inr x) ->
  exists x, json.encode (json.of_map f m) = inr x.
Proof.
  intros H. apply encode_Obj_total.
  intros kv (kv' & -> & _)%elem_of_map. apply H.
Qed.

Lemma Marshal_total (v : json.value) :
  (exists x, json.encode v = inr x) -> exists b, json.Marshal v = inr b.
Proof. intros (x & Hx). unfold json.Marshal. rewrite Hx. eauto. Qed.

(** The repositories map and the manifest never fail to marshal. *)
Lemma Marshal_repositories (m : gmap string (gmap string string)) :
  exists b, json.Marshal (json.of_map (json.of_map json.Str) m) = inr b.
Proof.
  apply Marshal_total, encode_of_map_total. intros tags.
  apply encode_of_map_total. intros s. simpl. eauto.
Qed.

Lemma Marshal_manifest (config : string) (tags layers : slice string) :
  exists b,
    json.Marshal
      (json.Arr [of_ManifestItem {| Config := config; RepoTags := tags; Layers := layers;
                                    Parent := ""; LayerSources := None |}])
    = inr b.
Proof.
  apply Marshal_total, encode_Arr_total. intros v ->%list_elem_of_singleton.
  change (of_ManifestItem _)
    with (json.Obj [("Config", json.Str config);
                    ("RepoTags", json.of_strings tags);
                    ("Layers", json.of_strings layers)]).
  apply encode_Obj_total.
  intros kv Hkv. rewrite !elem_of_cons in Hkv.
  destruct Hkv as [-> | [-> | [-> | Hkv]]];
    [eexists; apply encode_Str | apply encode_strings_total ..
     | inversion Hkv].
Qed.

(** ** The headers of the top-level files can be encoded *)

Lemma manifest_header_ok (b : list byte) :
  tar.allowedFormats (file_header manifestFileName (len b)) = None.
Proof.
  unfold tar.allowedFormats. simpl.
  pose proof (len_nonneg b). destruct (len b <? 0) eqn:E; [lia | reflexivity].
Qed.

Lemma repositories_header_ok (b : list byte) :
  tar.allowedFormats (file_header legacyRepositoriesFileName (len b)) = None.
Proof.
  unfold tar.allowedFormats. simpl.
  pose proof (len_nonneg b). destruct (len b <? 0) eqn:E; [lia | reflexivity].
Qed.

(** ** The repositories file *)

Lemma repositories_of_snoc rootLayerID repoTags t :
  repositories_of rootLayerID (repoTags ++ [t])
  = let repositories := repositories_of rootLayerID repoTags in
    match repositories !! reference.Name t with
    | Some val =>
        <[reference.Name t := <[reference.Tag t := rootLayerID]> val]> repositories
    | None =>
        <[reference.Name t := {[reference.Tag t := rootLayerID]}]> repositories
    end.
Proof. unfold repositories_of. now rewrite fold_left_app. Qed.

(** The map of a call holds exactly the tags of the call, each with the
    ID of the call. *)
Lemma tag_id_repositories rootLayerID repoTags (name tag id : string) :
  tag_id (repositories_of rootLayerID repoTags) name tag = Some id <->
  id = rootLayerID /\
  exists t, t ∈ repoTags /\ reference.Name t = name /\ reference.Tag t = tag.
Proof.
  revert id. induction repoTags as [| t repoTags IH] using rev_ind; intros id.
  - unfold tag_id, repositories_of. simpl. rewrite lookup_empty. simpl.
    split; [discriminate | intros (_ & t & Ht & _); inversion Ht].
  - rewrite repositories_of_snoc. simpl.
    set (m := repositories_of rootLayerID repoTags) in *.
    assert (forall inner : gmap string string,
               (forall tag' id', inner !! tag' = Some id' <->
                                 tag_id m (reference.Name t) tag' = Some id') ->
               tag_id (<[reference.Name t := <[reference.Tag t := rootLayerID]> inner]> m)
                      name tag = Some id <->
               id = rootLayerID /\
               exists t', t' ∈ repoTags ++ [t] /\
                          reference.Name t' = name /\ reference.Tag t' = tag) as Hstep.
    { intros inner Hinner. unfold tag_id at 1.
      destruct (decide (name = reference.Name t)) as [-> | Hn].
      - rewrite lookup_insert_eq. simpl.
        destruct (decide (tag = reference.Tag t)) as [-> | Ht].
        + rewrite lookup_insert_eq. split.
          * intros [= <-]. split; [reflexivity |]. exists t.
            rewrite elem_of_app, list_elem_of_singleton. auto.
          * intros [-> _]. reflexivity.
        + rewrite lookup_insert_ne by congruence. rewrite Hinner, IH.
          split; intros (-> & t' & Hin & Hn' & Ht'); (split; [reflexivity |]);
            exists t'; rewrite elem_of_app, list_elem_of_singleton in *;
            intuition congruence.
      - rewrite lookup_insert_ne by congruence.
        fold (tag_id m name tag). rewrite IH.
        split; intros (-> & t' & Hin & Hn' & Ht'); (split; [reflexivity |]);
          exists t'; rewrite elem_of_app, list_elem_of_singleton in *;
          intuition congruence. }
    destruct (m !! reference.Name t) as [val |] eqn:Hval.
    + apply Hstep. intros tag' id'. unfold tag_id. now rewrite Hval.
    + change ({[reference.Tag t := rootLayerID]} : gmap string string)
        with (<[reference.Tag t := rootLayerID]> (∅ : gmap string string)).
      apply Hstep. intros tag' id'. unfold tag_id. rewrite Hval, lookup_empty.
      reflexivity.
Qed.

(** What [createRepositoriesFile] does, in terms of [sendBytes]. *)
Lemma createRepositoriesFile_run rootLayerID repoTags w :
  exists b,
    json.Marshal (json.of_map (json.of_map json.Str)
                              (repositories_of rootLayerID repoTags)) = inr b /\
    createRepositoriesFile rootLayerID repoTags w
    = match sendBytes legacyRepositoriesFileName b w with
      | (w', Some err) => (w', Some (Wrap err "Error writing config json file"))
      | (w', None) => (w', None)
      end.
Proof.
  destruct (Marshal_repositories (repositories_of rootLayerID repoTags)) as (b & Hb).
  exists b. split; [exact Hb |]. unfold createRepositoriesFile. now rewrite Hb.
Qed.

Lemma createRepositoriesFile_ready rootLayerID repoTags w :
  ready (tar w) ->
  exists b w',
    json.Marshal (json.of_map (json.of_map json.Str)
                              (repositories_of rootLayerID repoTags)) = inr b /\
    createRepositoriesFile rootLayerID repoTags w = (w', None) /\
    archive w' = archive w ++ [file_entry legacyRepositoriesFileName b] /\
    blobs w' = blobs w /\
    ready (tar w').
Proof.
  intros Hr. destruct (createRepositoriesFile_run rootLayerID repoTags w) as (b & Hb & Hrun).
  destruct (sendBytes_ready legacyRepositoriesFileName b w Hr (repositories_header_ok b))
    as (w' & Hs & Hr').
  rewrite Hs in Hrun. exists b, w'. apply sendBytes_ok in Hs as (Ha & Hbl & _).
  auto.
Qed.

(** C7, as amended. On a writer that is ready, [createRepositoriesFile]
    adds one file at the path [repositories]: the JSON object of a map
    that gives, to each tag supplied to this call and to no other, under
    the name of its repository, the ID passed to this call. *)
Theorem repositories_file_of_one_call (rootLayerID : string)
        (repoTags : list reference.NamedTagged) (w : Writer) :
  ready (tar w) ->
  exists b w',
    createRepositoriesFile rootLayerID repoTags w = (w', None) /\
    archive w' = archive w ++ [file_entry "repositories" b] /\
    json.Marshal (json.of_map (json.of_map json.Str)
                              (repositories_of rootLayerID repoTags)) = inr b /\
    forall name tag id,
      tag_id (repositories_of rootLayerID repoTags) name tag = Some id <->
      id = rootLayerID /\
      exists t, t ∈ repoTags /\ reference.Name t = name /\ reference.Tag t = tag.
Proof.
  intros Hr.
  destruct (createRepositoriesFile_ready rootLayerID repoTags w Hr)
    as (b & w' & Hb & Hrun & Ha & _).
  exists b, w'. do 3 (split; [assumption |]).
  intros name tag id. apply tag_id_repositories.
Qed.

(** Four tags of two repositories, one of them twice, on a new writer. *)
Lemma repositories_file_of_one_call_witness :
  let tags := [ {| reference.Name := "docker.io/library/busybox"; reference.Tag := "latest" |};
                {| reference.Name := "docker.io/library/busybox"; reference.Tag := "1.36" |};
                {| reference.Name := "example.com/app"; reference.Tag := "latest" |};
                {| reference.Name := "docker.io/library/busybox"; reference.Tag := "latest" |} ] in
  exists b w',
    createRepositoriesFile "abc123" tags (NewWriter {| tar.quota := None |}) = (w', None) /\
    archive w' = [file_entry "repositories" b] /\
    json.Marshal (json.of_map (json.of_map json.Str) (repositories_of "abc123" tags)) = inr b /\
    forall name tag id,
      tag_id (repositories_of "abc123" tags) name tag = Some id <->
      id = "abc123" /\
      exists t, t ∈ tags /\ reference.Name t = name /\ reference.Tag t = tag.
Proof.
  intros tags.
  apply (repositories_file_of_one_call "abc123" tags (NewWriter {| tar.quota := None |})).
  repeat split.
Defined.

(** The file of that call, as text. *)
Example repositories_file_example :
  let tags := [ {| reference.Name := "docker.io/library/busybox"; reference.Tag := "latest" |};
                {| reference.Name := "docker.io/library/busybox"; reference.Tag := "1.36" |};
                {| reference.Name := "example.com/app"; reference.Tag := "latest" |};
                {| reference.Name := "docker.io/library/busybox"; reference.Tag := "latest" |} ] in
  map string_of_bytes
      (files_named "repositories"
         (fst (createRepositoriesFile "abc123" tags (NewWriter {| tar.quota := None |}))))
  = [dq ("{'docker.io/library/busybox':{'1.36':'abc123','latest':'abc123'}," +:+
         "'example.com/app':{'latest':'abc123'}}")].
Proof. vm_compute. reflexivity. Qed.

(** C7, as stated, does not hold: the file is not built from the tags of
    all images of the archive. After [createRepositoriesFile] for two
    images, the archive has two files [repositories], one per call, each
    with the tags of its call only; none is the object that the
    specification describes, with the tags of both images. *)
Lemma repositories_not_folded_across_images :
  let images :=
    [ ("1111", [ {| reference.Name := "busybox"; reference.Tag := "latest" |} ]);
      ("2222", [ {| reference.Name := "alpine"; reference.Tag := "3" |} ]) ] in
  let w := repositories_files images (NewWriter {| tar.quota := None |}) in
  map string_of_bytes (files_named "repositories" w)
  = [dq "{'busybox':{'latest':'1111'}}"; dq "{'alpine':{'3':'2222'}}"] /\
  json.Marshal (json.of_map (json.of_map json.Str) (spec_repositories images))
  = inr (bytes_of_string (dq "{'alpine':{'3':'2222'},'busybox':{'latest':'1111'}}")) /\
  (bytes_of_string (dq "{'alpine':{'3':'2222'},'busybox':{'latest':'1111'}}")
     ∉ files_named "repositories" w) /\
  tag_id (repositories_of "2222" [ {| reference.Name := "alpine"; reference.Tag := "3" |} ])
         "busybox" "latest"
  = None.
Proof.
  intros images w. split; [vm_compute; reflexivity |].
  split; [vm_compute; reflexivity |].
  split; [| vm_compute; reflexivity].
  intros Hin. apply list_elem_of_In in Hin. vm_compute in Hin.
  destruct Hin as [H | [H | []]]; discriminate H.
Qed.

(** ** The manifest *)

Lemma RepoTags_fold (repoTags : list reference.NamedTagged) :
  forall acc : list string,
    fold_left
      (fun tags tag => append tags (reference.Name tag +:+ ":" +:+ reference.Tag tag))
      repoTags (Slice acc)
    = Slice (acc ++ map (fun tag => reference.Name tag +:+ ":" +:+ reference.Tag tag) repoTags).
Proof.
  induction repoTags as [| t repoTags IH]; intros acc; simpl.
  - now rewrite app_nil_r.
  - unfold append at 2. simpl. rewrite IH, <- app_assoc. reflexivity.
Qed.

(** C4. For a config digest with hex part [h], [createManifest] on a
    writer that is ready adds one file at the path [manifest.json]: the
    JSON array of one item, whose [Config] is [h] followed by [.json],
    whose [RepoTags] are the strings [name:tag] of the tags in their
    order, with the name as the reference gives it, whose [Layers] are
    the layer paths as given, whose [Parent] is empty and which has no
    [LayerSources]. *)
Theorem createManifest_one_item (configDigest h : string) (layerPaths : slice string)
        (repoTags : list reference.NamedTagged) (w : Writer) :
  digest.Hex configDigest = Ret h ->
  ready (tar w) ->
  let item :=
    {| Config := h +:+ ".json";
       RepoTags := Slice (map (fun tag => reference.Name tag +:+ ":" +:+ reference.Tag tag)
                              repoTags);
       Layers := layerPaths;
       Parent := "";
       LayerSources := None |} in
  exists itemsBytes w',
    createManifest configDigest layerPaths repoTags w = (w', Ret None) /\
    archive w' = archive w ++ [file_entry "manifest.json" itemsBytes] /\
    json.Marshal (json.Arr [of_ManifestItem item]) = inr itemsBytes.
Proof.
  intros Hh Hr item. unfold createManifest, configPath. rewrite Hh.
  unfold manifest_item. rewrite RepoTags_fold. simpl app.
  fold item. cbn [map].
  destruct (Marshal_manifest (Config item) (RepoTags item) (Layers item)) as (b & Hb).
  change (json.Marshal (json.Arr [of_ManifestItem item]) = inr b) in Hb.
  rewrite Hb.
  destruct (sendBytes_ready manifestFileName b w Hr (manifest_header_ok b)) as (w' & Hs & _).
  rewrite Hs. exists b, w'. apply sendBytes_ok in Hs as (Ha & _).
  auto.
Qed.

(** An image of three layers with two tags, on a new writer. *)
Lemma createManifest_one_item_witness :
  let d := "sha256:ca978112ca1bbdcafac231b39a23dc4da786eff8147c4e72b9807785afee48bb" in
  let tags := [ {| reference.Name := "docker.io/library/busybox"; reference.Tag := "latest" |};
                {| reference.Name := "example.com/app"; reference.Tag := "v1" |} ] in
  let paths := Slice ["aa.tar"; "bb.tar"; "aa.tar"] in
  exists itemsBytes w',
    createManifest d paths tags (NewWriter {| tar.quota := None |}) = (w', Ret None) /\
    archive w' = [file_entry "manifest.json" itemsBytes] /\
    json.Marshal
      (json.Arr
         [of_ManifestItem
            {| Config := "ca978112ca1bbdcafac231b39a23dc4da786eff8147c4e72b9807785afee48bb.json";
               RepoTags := Slice ["docker.io/library/busybox:latest"; "example.com/app:v1"];
               Layers := paths; Parent := ""; LayerSources := None |}])
    = inr itemsBytes.
Proof.
  intros d tags paths.
  apply (createManifest_one_item d
           "ca978112ca1bbdcafac231b39a23dc4da786eff8147c4e72b9807785afee48bb"
           paths tags (NewWriter {| tar.quota := None |})).
  - reflexivity.
  - repeat split.
Defined.

(** The manifest of that call, as text; and the one of an image without
    layers, whose [Layers] are a [nil] slice. *)
Example manifest_example :
  let d := "sha256:ca978112ca1bbdcafac231b39a23dc4da786eff8147c4e72b9807785afee48bb" in
  let tags := [ {| reference.Name := "docker.io/library/busybox"; reference.Tag := "latest" |};
                {| reference.Name := "example.com/app"; reference.Tag := "v1" |} ] in
  let w := NewWriter {| tar.quota := None |} in
  map string_of_bytes
      (files_named "manifest.json"
                   (fst (createManifest d (Slice ["aa.tar"; "bb.tar"; "aa.tar"]) tags w)))
  = [dq ("[{'Config':'ca978112ca1bbdcafac231b39a23dc4da786eff8147c4e72b9807785afee48bb.json'," +:+
         "'RepoTags':['docker.io/library/busybox:latest','example.com/app:v1']," +:+
         "'Layers':['aa.tar','bb.tar','aa.tar']}]")] /\
  map string_of_bytes (files_named "manifest.json" (fst (createManifest d Nil [] w)))
  = [dq ("[{'Config':'ca978112ca1bbdcafac231b39a23dc4da786eff8147c4e72b9807785afee48bb.json'," +:+
         "'RepoTags':[],'Layers':null}]")] /\
  createManifest "ca978112" Nil [] w = (w, Panic (NoSeparatorInDigest "ca978112")).
Proof. vm_compute. repeat split. Qed.

(** ** No layers *)

(** C10. With no layer, [writeLegacyLayerMetadata] returns a [nil] slice
    of paths, an empty last ID and no error, leaves the writer as it
    was, whatever the configuration bytes are; and
    [createRepositoriesFile] with that ID writes the map that gives the
    empty string to every tag supplied, and to nothing else. *)
Theorem no_layers_no_metadata (configBytes : list byte)
        (repoTags : list reference.NamedTagged) (w : Writer) :
  writeLegacyLayerMetadata [] configBytes w = (w, Ret (Nil, "", None)) /\
  (forall t, t ∈ repoTags ->
             tag_id (repositories_of "" repoTags) (reference.Name t) (reference.Tag t)
             = Some "") /\
  (forall name tag id, tag_id (repositories_of "" repoTags) name tag = Some id -> id = "") /\
  exists b,
    json.Marshal (json.of_map (json.of_map json.Str) (repositories_of "" repoTags)) = inr b /\
    createRepositoriesFile "" repoTags w
    = match sendBytes "repositories" b w with
      | (w', Some err) => (w', Some (Wrap err "Error writing config json file"))
      | (w', None) => (w', None)
      end.
Proof.
  split; [reflexivity |]. split; [| split].
  - intros t Ht. apply tag_id_repositories. eauto.
  - intros name tag id H. now apply tag_id_repositories in H.
  - apply createRepositoriesFile_run.
Qed.

(** Bytes that are no JSON are not looked at when there is no layer, and
    are an error as soon as there is one. *)
Example no_layers_example :
  let w := NewWriter {| tar.quota := None |} in
  let malformed := bytes_of_string "{" in
  json.Unmarshal malformed = inl ErrJSONSyntax /\
  writeLegacyLayerMetadata [] malformed w = (w, Ret (Nil, "", None)) /\
  snd (writeLegacyLayerMetadata
         [ {| manifest.MediaType := ""; manifest.Size := 1; manifest.Digest := "sha256:ab" |} ]
         malformed w)
  = Ret (Nil, "", Some (Wrap ErrJSONSyntax "Error unmarshaling config")) /\
  map string_of_bytes
      (files_named "repositories"
         (fst (createRepositoriesFile ""
                 [ {| reference.Name := "busybox"; reference.Tag := "latest" |} ] w)))
  = [dq "{'busybox':{'latest':''}}"].
Proof. vm_compute. repeat split. Qed.

(** ** The legacy IDs and the entries of the layers *)

Lemma hex_encode_cons (b : Z) (l : list Z) : hex_encode (b :: l) <> "".
Proof. unfold hex_encode. simpl. discriminate. Qed.

(** A canonical digest has a hex part, which is not empty. *)
Lemma Hex_FromString (s : string) :
  digest.Hex (digest.FromString s) = Ret (sha256_hex s) /\ sha256_hex s <> "".
Proof.
  split; [reflexivity |]. unfold sha256_hex, sha256.Sum256.
  destruct (sha256.blocks _ _ _). simpl. apply hex_encode_cons.
Qed.

Lemma names_of_layers (outs : list layer_out) :
  map (fun e => tar.Name (tar.hdr e)) (flat_map layer_entries outs)
  = flat_map (fun id => [filepath.Join [id; "layer.tar"];
                         filepath.Join [id; "VERSION"];
                         filepath.Join [id; "json"]]) (map lo_id outs).
Proof. induction outs as [| o outs IH]; simpl; [reflexivity | now rewrite IH]. Qed.

(** C1. When [writeLegacyLayerMetadata] returns without error for a
    sequence of layers that is not empty, the legacy ID of the layer at
    index [i], which is the directory of its three entries and, for the
    last layer, the ID returned, is the hex part of the chain ID of the
    specification: the digest of the layer for the first layer, and for
    the others the canonical hash of the previous chain ID, a space and
    the digest of the layer. *)
Theorem legacy_id_is_hex_of_chain_id (layers : list manifest.Schema2Descriptor)
        (configBytes : list byte) (w w' : Writer) (paths : slice string) (lastID : string) :
  layers <> [] ->
  writeLegacyLayerMetadata layers configBytes w = (w', Ret (paths, lastID, None)) ->
  let digests := map manifest.Digest layers in
  (forall l rest, layers = l :: rest -> spec_chainID digests 0 = manifest.Digest l) /\
  (forall i l, layers !! S i = Some l ->
               spec_chainID digests (S i)
               = digest.FromString (spec_chainID digests i +:+ " " +:+ manifest.Digest l)) /\
  exists ids : list string,
    length ids = length layers /\
    (forall i id, ids !! i = Some id -> digest.Hex (spec_chainID digests i) = Ret id) /\
    map (fun e => tar.Name (tar.hdr e)) (archive w')
    = map (fun e => tar.Name (tar.hdr e)) (archive w)
      ++ flat_map (fun id => [filepath.Join [id; "layer.tar"];
                              filepath.Join [id; "VERSION"];
                              filepath.Join [id; "json"]]) ids /\
    last ids = Some lastID.
Proof.
  intros Hne Hrun digests. split; [| split].
  - intros l rest ->. reflexivity.
  - intros i l Hl. simpl. do 2 f_equal.
    unfold digests. rewrite nth_lookup, list_lookup_fmap, Hl. reflexivity.
  - apply legacy_run in Hrun as (outs & Hlen & Ha & _ & _ & Hlast & Hfacts).
    exists (map lo_id outs). rewrite length_map. split; [exact Hlen |]. split; [| split].
    + intros i id Hi. rewrite list_lookup_fmap in Hi.
      destruct (outs !! i) as [o |] eqn:Ho; [| discriminate]. simpl in Hi. simplify_eq.
      destruct (layers !! i) as [l |] eqn:Hl.
      * apply (Hfacts i l o Hl Ho).
      * apply lookup_ge_None in Hl. apply lookup_lt_Some in Ho. lia.
    + rewrite Ha, map_app, names_of_layers. reflexivity.
    + rewrite Hlast. destruct (last (map lo_id outs)) as [id |] eqn:Hl; [reflexivity |].
      apply last_None in Hl. destruct outs; [| discriminate].
      destruct layers; [contradiction | discriminate].
Qed.

(** Three layers, the first and the last with the same digest, on a new
    writer. *)
Lemma legacy_id_is_hex_of_chain_id_witness :
  let A := "sha256:ca978112ca1bbdcafac231b39a23dc4da786eff8147c4e72b9807785afee48bb" in
  let B := "sha256:3e23e8160039594a33894f6564e1b1348bbd7a0088d42c4acb73eeaed59c009d" in
  let d x := {| manifest.MediaType := "application/vnd.docker.image.rootfs.diff.tar.gzip";
                manifest.Size := 1024; manifest.Digest := x |} in
  exists ids : list string,
    length ids = 3%nat /\
    (forall i id, ids !! i = Some id -> digest.Hex (spec_chainID [A; B; A] i) = Ret id) /\
    last ids = Some "1472d34251a00ac55ede7b25cbe3c166a4229eae731490bfdeb83bc00f598be1".
Proof.
  intros A B d.
  pose (cfg := bytes_of_string (dq "{'architecture':'amd64','os':'linux'}")).
  pose (w := NewWriter {| tar.quota := None |}).
  destruct (legacy_id_is_hex_of_chain_id [d A; d B; d A] cfg w
              (fst (writeLegacyLayerMetadata [d A; d B; d A] cfg w))
              (Slice ["ca978112ca1bbdcafac231b39a23dc4da786eff8147c4e72b9807785afee48bb.tar";
                      "3e23e8160039594a33894f6564e1b1348bbd7a0088d42c4acb73eeaed59c009d.tar";
                      "ca978112ca1bbdcafac231b39a23dc4da786eff8147c4e72b9807785afee48bb.tar"])
              "1472d34251a00ac55ede7b25cbe3c166a4229eae731490bfdeb83bc00f598be1")
    as (_ & _ & ids & Hlen & Hids & _ & Hlast).
  - discriminate.
  - vm_compute. reflexivity.
  - exists ids. auto.
Defined.

(** The chain IDs of three layers of which the first and the last have
    the same digest. *)
Example chain_id_example :
  let A := "sha256:ca978112ca1bbdcafac231b39a23dc4da786eff8147c4e72b9807785afee48bb" in
  let B := "sha256:3e23e8160039594a33894f6564e1b1348bbd7a0088d42c4acb73eeaed59c009d" in
  map (spec_chainID [A; B; A]) [0; 1; 2]%nat
  = [A;
     "sha256:51c0c8ace48498d6f5fee6b0592cc06f2da0f3cbe09c5a34a97dce85c3889676";
     "sha256:1472d34251a00ac55ede7b25cbe3c166a4229eae731490bfdeb83bc00f598be1"].
Proof. vm_compute. reflexivity. Qed.





(** The archive of an image of two layers, as text: the second layer has
    a parent and the attributes of the image, the first has neither. *)
Example legacy_layers_example :
  let A := "sha256:ca978112ca1bbdcafac231b39a23dc4da786eff8147c4e72b9807785afee48bb" in
  let B := "sha256:3e23e8160039594a33894f6564e1b1348bbd7a0088d42c4acb73eeaed59c009d" in
  let d x := {| manifest.MediaType := ""; manifest.Size := 1024; manifest.Digest := x |} in
  let cfg := bytes_of_string (dq "{ 'architecture': 'amd64', 'os': 'linux', 'rootfs': {} }") in
  let r := writeLegacyLayerMetadata [d A; d B] cfg (NewWriter {| tar.quota := None |}) in
  let idA := "ca978112ca1bbdcafac231b39a23dc4da786eff8147c4e72b9807785afee48bb" in
  let idB := "51c0c8ace48498d6f5fee6b0592cc06f2da0f3cbe09c5a34a97dce85c3889676" in
  snd r
  = Ret (Slice [idA +:+ ".tar";
                "3e23e8160039594a33894f6564e1b1348bbd7a0088d42c4acb73eeaed59c009d.tar"],
         idB, None) /\
  map (fun e => (tar.Name (tar.hdr e), tar.Linkname (tar.hdr e), string_of_bytes (tar.data e)))
      (archive (fst r))
  = [ (idA +:+ "/layer.tar", "../" +:+ idA +:+ ".tar", "");
      (idA +:+ "/VERSION", "", "1.0");
      (idA +:+ "/json", "", dq ("{'id':'" +:+ idA +:+ "'}"));
      (idB +:+ "/layer.tar",
       "../3e23e8160039594a33894f6564e1b1348bbd7a0088d42c4acb73eeaed59c009d.tar", "");
      (idB +:+ "/VERSION", "", "1.0");
      (idB +:+ "/json", "",
       dq ("{'architecture':'amd64','config':null,'container':null," +:+
           "'container_config':null,'created':null,'docker_version':null," +:+
           "'id':'" +:+ idB +:+ "','os':'linux','parent':'" +:+ idA +:+ "'}")) ].
Proof. vm_compute. split; reflexivity. Qed.

(** The guard on a digest that is none: with a first digest that ends
    at its [:], which has no hex part, the first layer has the empty ID
    and the [json] file of the second layer is the object of a map
    without [parent]. *)
Lemma parent_missing_after_empty_id :
  let d x := {| manifest.MediaType := ""; manifest.Size := 1024; manifest.Digest := x |} in
  let cfg := bytes_of_string (dq "{'architecture':'amd64','os':'linux'}") in
  let r := writeLegacyLayerMetadata [d "sha256:"; d "sha256:ab"] cfg
                                    (NewWriter {| tar.quota := None |}) in
  let id1 := "e26a4e4eb538e50b70e03ef7bbbac9148e20bc0b57e9c7d5b3adef505cb32e93" in
  let json1 := dq ("{'architecture':'amd64','config':null,'container':null," +:+
                   "'container_config':null,'created':null,'docker_version':null," +:+
                   "'id':'" +:+ id1 +:+ "','os':'linux'}") in
  let config1 := top_config (match json.Unmarshal cfg with inr c => c | inl _ => ∅ end)
                            (<["id" := IString id1]> ∅) in
  snd r = Ret (Slice [".tar"; "ab.tar"], id1, None) /\
  digest.Hex (spec_chainID ["sha256:"; "sha256:ab"] 0) = Ret "" /\
  digest.Hex (spec_chainID ["sha256:"; "sha256:ab"] 1) = Ret id1 /\
  map (fun e => (tar.Name (tar.hdr e), string_of_bytes (tar.data e))) (archive (fst r))
  = [ ("layer.tar", ""); ("VERSION", "1.0"); ("json", dq "{'id':''}");
      (id1 +:+ "/layer.tar", ""); (id1 +:+ "/VERSION", "1.0"); (id1 +:+ "/json", json1) ] /\
  json.Marshal (json.of_map of_iface config1) = inr (bytes_of_string json1) /\
  config1 !! "parent" = None /\
  json.Marshal (json.of_map of_iface (<["parent" := IString ""]> config1))
  <> inr (bytes_of_string json1).
Proof.
  intros d cfg r id1 json1 config1.
  repeat split; try (vm_compute; reflexivity).
  vm_compute. discriminate.
Qed.

(** ** Repeated digests *)

(** The chain ID of the first layer is its digest, whatever follows. *)
Lemma first_chain_id_is_digest (A : string) (rest : list string) :
  spec_chainID (A :: rest) 0 = A /\ next_chainID "" A = A.
Proof. split; reflexivity. Qed.

(** The chain ID of a third layer is a canonical digest of a text that
    ends with the digest of the layer. *)
Lemma third_chain_id (A B C : string) :
  spec_chainID [A; B; C] 2
  = digest.FromString (digest.FromString (A +:+ " " +:+ B) +:+ " " +:+ C).
Proof. reflexivity. Qed.

(** It differs from the first digest when that one is no SHA-256 digest;
    for a first digest that is one, whether it can be the hash of a text
    that ends with itself is a question about SHA-256. *)
Lemma third_chain_id_differs (A B : string) :
  (forall h, A <> "sha256:" +:+ h) -> spec_chainID [A; B; A] 2 <> spec_chainID [A; B; A] 0.
Proof. intros HA H. rewrite third_chain_id in H. simpl in H. eapply HA. symmetry. exact H. Qed.

Example third_chain_id_example :
  let A := "sha256:ca978112ca1bbdcafac231b39a23dc4da786eff8147c4e72b9807785afee48bb" in
  let B := "sha256:3e23e8160039594a33894f6564e1b1348bbd7a0088d42c4acb73eeaed59c009d" in
  spec_chainID [A; B; A] 0 = A /\
  spec_chainID [A; B; A] 2
  = "sha256:1472d34251a00ac55ede7b25cbe3c166a4229eae731490bfdeb83bc00f598be1" /\
  spec_chainID [A; B; A] 2 <> spec_chainID [A; B; A] 0.
Proof. vm_compute. repeat split. discriminate. Qed.

(** ** When the legacy metadata is written without error *)

Lemma chars_app (a b : string) : chars (a +:+ b) = chars a ++ chars b.
Proof. induction a as [| c a IH]; simpl; [reflexivity | now rewrite IH]. Qed.

Lemma unchars_chars (s : string) : unchars (chars s) = s.
Proof. apply string_of_list_ascii_of_string. Qed.

Lemma hexdigit_hex_char (z : Z) : 0 <= z < 16 -> hex_char (hexdigit z) = true.
Proof.
  intros Hz.
  assert (z = 0 \/ z = 1 \/ z = 2 \/ z = 3 \/ z = 4 \/ z = 5 \/ z = 6 \/ z = 7 \/
          z = 8 \/ z = 9 \/ z = 10 \/ z = 11 \/ z = 12 \/ z = 13 \/ z = 14 \/ z = 15)
    as H by lia.
  repeat (destruct H as [-> | H]; [reflexivity |]). subst. reflexivity.
Qed.

Lemma byte_digits (b : Z) :
  0 <= Z.shiftr (Z.land b 255) 4 < 16 /\ 0 <= Z.land (Z.land b 255) 15 < 16.
Proof.
  assert (0 <= Z.land b 255 < 256) as Hb.
  { change 255 with (Z.ones 8). rewrite Z.land_ones by lia. apply Z.mod_pos_bound. lia. }
  split.
  - rewrite Z.shiftr_div_pow2 by lia. change (2 ^ 4) with 16.
    split; [apply Z.div_pos; lia | apply Z.div_lt_upper_bound; lia].
  - change 15 with (Z.ones 4). rewrite Z.land_ones by lia. apply Z.mod_pos_bound. lia.
Qed.

Lemma hex_encode_be_bytes (n : nat) (x : Z) (l : list Z) :
  forallb hex_char (chars (hex_encode l)) = true ->
  forallb hex_char (chars (hex_encode (sha256.be_bytes n x ++ l))) = true.
Proof.
  unfold hex_encode, chars, unchars. rewrite !list_ascii_of_string_of_list_ascii.
  unfold sha256.be_bytes. intros Hl.
  induction (rev (seq 0 n)) as [| i rest IH]; simpl; [exact Hl |].
  destruct (byte_digits (Z.shiftr x (8 * Z.of_nat i))) as (H1 & H2).
  rewrite !hexdigit_hex_char by assumption. exact IH.
Qed.

Lemma sha256_hex_hexstring (s : string) : hexstring (sha256_hex s).
Proof.
  split; [apply Hex_FromString |].
  unfold sha256_hex, sha256.Sum256. destruct (sha256.blocks _ _ _).
  cbn [flat_map]. repeat apply hex_encode_be_bytes. reflexivity.
Qed.

(** The legacy ID of a layer with a well-formed digest is a hex string. *)
Lemma next_chainID_hex (c d : string) :
  wellformed d -> exists id, digest.Hex (next_chainID c d) = Ret id /\ hexstring id.
Proof.
  intros Hd. unfold next_chainID. destruct (String.eqb c ""); [exact Hd |].
  eexists. split; [apply Hex_FromString | apply sha256_hex_hexstring].
Qed.

(** *** The paths of the entries *)

Lemma split_segment (l : list ascii) :
  forallb (fun c => negb (Ascii.eqb c "/"%char)) l = true ->
  forall cur, filepath.split cur l = [rev cur ++ l].
Proof.
  induction l as [| c l IH]; intros Hl cur; simpl in *.
  - now rewrite app_nil_r.
  - apply andb_prop in Hl as (Hc & Hl). apply negb_true_iff in Hc. rewrite Hc.
    rewrite IH by assumption. simpl. now rewrite <- app_assoc.
Qed.

Lemma split_slash (l rest : list ascii) :
  forallb (fun c => negb (Ascii.eqb c "/"%char)) l = true ->
  forall cur, filepath.split cur (l ++ "/"%char :: rest)
              = (rev cur ++ l) :: filepath.split [] rest.
Proof.
  induction l as [| c l IH]; intros Hl cur; simpl in *.
  - now rewrite app_nil_r.
  - apply andb_prop in Hl as (Hc & Hl). apply negb_true_iff in Hc. rewrite Hc.
    rewrite IH by assumption. simpl. now rewrite <- app_assoc.
Qed.

Lemma component_segment (rooted : bool) (kept : list string) (c : string) :
  segment c -> filepath.component rooted kept c = c :: kept.
Proof.
  intros (_ & H1 & H2 & H3). unfold filepath.component.
  apply String.eqb_neq in H1, H2, H3. now rewrite H1, H2, H3.
Qed.

Lemma Clean_two (a b : string) :
  (a = ".." \/ segment a) -> segment b ->
  filepath.Clean (a +:+ "/" +:+ b) = a +:+ "/" +:+ b.
Proof.
  intros Ha Hb. unfold filepath.Clean.
  assert (forallb (fun c => negb (Ascii.eqb c "/"%char)) (chars a) = true /\ a <> "")
    as (Hs & Hne).
  { destruct Ha as [-> | (? & ? & _)]; [split; [reflexivity | discriminate] | auto]. }
  assert (match a +:+ "/" +:+ b with
          | String.String "/" _ => true
          | _ => false
          end = false) as ->.
  { destruct a as [| c a]; [contradiction |]. simpl in *.
    apply andb_prop in Hs as (Hc & _). apply negb_true_iff in Hc.
    destruct (Ascii.eqb_spec c "/"%char); [discriminate |].
    destruct c as [[] [] [] [] [] [] [] []]; try reflexivity. contradiction. }
  rewrite chars_app. change (chars ("/" +:+ b)) with ("/"%char :: chars b).
  rewrite split_slash by assumption.
  rewrite split_segment by apply Hb. simpl.
  rewrite !unchars_chars.
  assert (filepath.component false [] a = [a]) as ->.
  { destruct Ha as [-> | Ha]; [reflexivity | now apply component_segment]. }
  assert (filepath.component false [a] b = [b; a]) as ->
      by now apply component_segment.
  reflexivity.
Qed.

Lemma Join_segments (a b : string) :
  (a = ".." \/ segment a) -> segment b ->
  filepath.Join [a; b] = a +:+ "/" +:+ b.
Proof.
  intros Ha Hb. unfold filepath.Join.
  assert (a <> "") as Hne by (destruct Ha as [-> | (_ & ? & _)]; [discriminate | assumption]).
  apply String.eqb_neq in Hne. rewrite Hne.
  change (filepath.concat_sep [a; b]) with (a +:+ "/" +:+ b).
  now apply Clean_two.
Qed.

Lemma hex_char_plain (c : ascii) :
  hex_char c = true -> c <> "/"%char /\ c <> "."%char /\ c <> "000"%char.
Proof. intros H. repeat split; intros ->; discriminate H. Qed.

Lemma hexstring_chars (h : string) (P : ascii -> bool) :
  (forall c, hex_char c = true -> P c = true) ->
  hexstring h -> forallb P (chars h) = true.
Proof.
  intros HP (_ & Hh). apply forallb_forall. intros c Hc.
  apply HP. eapply forallb_forall in Hh; eassumption.
Qed.

Lemma hexstring_first (h : string) :
  hexstring h -> exists c h', h = String.String c h' /\ hex_char c = true.
Proof.
  intros (Hne & Hh). destruct h as [| c h']; [contradiction |].
  simpl in Hh. apply andb_prop in Hh as (Hc & _). eauto.
Qed.

(** A hex string, with or without an extension, is a path element. *)
Lemma segment_hex (h ext : string) :
  hexstring h ->
  forallb (fun c => negb (Ascii.eqb c "/"%char)) (chars ext) = true ->
  segment (h +:+ ext).
Proof.
  intros Hh Hext. destruct (hexstring_first h Hh) as (c & h' & -> & Hc).
  apply hex_char_plain in Hc as (H1 & H2 & _).
  split; [| split; [| split]; simpl; intros H; inversion H; contradiction].
  rewrite chars_app, forallb_app, Hext, andb_true_r.
  apply hexstring_chars; [| exact Hh].
  intros c' Hc'. apply hex_char_plain in Hc' as (Hs & _).
  apply negb_true_iff. now destruct (Ascii.eqb_spec c' "/"%char).
Qed.

Lemma append_empty (s : string) : s +:+ "" = s.
Proof.
  induction s as [| c s IH]; [reflexivity |].
  change (String.String c (s +:+ "") = String.String c s). now rewrite IH.
Qed.

(** The paths of the three entries of a layer. *)
Lemma Join_layer_paths (id h : string) :
  hexstring id -> hexstring h ->
  filepath.Join [id; legacyLayerFileName] = id +:+ "/layer.tar" /\
  filepath.Join [id; legacyVersionFileName] = id +:+ "/VERSION" /\
  filepath.Join [id; legacyConfigFileName] = id +:+ "/json" /\
  filepath.Join [".."; h +:+ ".tar"] = "../" +:+ h +:+ ".tar".
Proof.
  intros Hid Hh.
  assert (segment id) as Hs by (rewrite <- (append_empty id); now apply segment_hex).
  repeat split; apply Join_segments; auto;
    try (repeat split; try discriminate; reflexivity).
  now apply segment_hex.
Qed.

(** *** The headers of the entries *)

Lemma hasNUL_app (a b : string) : tar.hasNUL (a +:+ b) = tar.hasNUL a || tar.hasNUL b.
Proof. unfold tar.hasNUL. now rewrite chars_app, existsb_app. Qed.

Lemma hasNUL_hex (h : string) : hexstring h -> tar.hasNUL h = false.
Proof.
  intros Hh. unfold tar.hasNUL. apply not_true_is_false. intros H.
  apply existsb_exists in H as (c & Hc & Hz).
  destruct Hh as (_ & Hh). eapply forallb_forall in Hh; [| exact Hc].
  apply hex_char_plain in Hh as (_ & _ & Hn).
  now destruct (Ascii.eqb_spec c "000"%char).
Qed.

Lemma hasSuffixSlash_app (a b : string) :
  b <> "" -> tar.hasSuffixSlash (a +:+ b) = tar.hasSuffixSlash b.
Proof.
  intros Hb. unfold tar.hasSuffixSlash. rewrite chars_app, rev_app_distr.
  destruct b as [| c b]; [contradiction |].
  destruct (rev (chars (String.String c b))) eqn:E; [| reflexivity].
  apply (f_equal (@length ascii)) in E. rewrite length_rev in E. discriminate E.
Qed.

Lemma file_header_ok (name : string) (b : list byte) :
  tar.hasNUL name = false -> tar.hasSuffixSlash name = false ->
  tar.allowedFormats (file_header name (len b)) = None.
Proof.
  intros Hn Hs. unfold tar.allowedFormats. simpl. rewrite Hn, Hs, andb_false_r. simpl.
  pose proof (len_nonneg b). destruct (len b <? 0) eqn:E; [lia | reflexivity].
Qed.

Lemma symlink_header_ok (name target : string) :
  tar.hasNUL name = false -> tar.hasNUL target = false ->
  tar.allowedFormats (symlink_header name target) = None.
Proof.
  intros Hn Ht. unfold tar.allowedFormats. simpl. now rewrite Hn, Ht, !andb_false_r.
Qed.

(** A name with a NUL is no ASCII string for [archive/tar], so it goes to
    a PAX record, which cannot hold it. *)
Lemma hasNUL_needsPAX (s : string) : tar.hasNUL s = true -> tar.needsPAX s = true.
Proof.
  unfold tar.hasNUL, tar.needsPAX, tar.isASCII. intros H.
  apply existsb_exists in H as (c & Hc & Hz). apply Ascii.eqb_eq in Hz as ->.
  apply orb_true_iff. left. apply negb_true_iff, not_true_is_false. intros Hall.
  eapply forallb_forall in Hall; [| exact Hc]. discriminate Hall.
Qed.

(** The headers of files that [archive/tar] can encode: a name without
    NUL that does not end with a slash, and a size that is not
    negative. *)
Lemma file_header_allowed (name : string) (sz : Z) :
  tar.allowedFormats (file_header name sz) = None
  <-> tar.hasNUL name = false /\ tar.hasSuffixSlash name = false /\ 0 <= sz.
Proof.
  unfold tar.allowedFormats. cbn [tar.Typeflag_ tar.Name tar.Linkname tar.Size file_header
                                   tar.isHeaderOnlyType negb andb].
  destruct (tar.hasSuffixSlash name); [split; [discriminate | intros (_ & [=] & _)] |].
  destruct (Z.ltb_spec sz 0); [split; [discriminate | lia] |].
  destruct (tar.hasNUL name) eqn:Hn.
  - rewrite (hasNUL_needsPAX name Hn). split; [discriminate | intros ([=] & _)].
  - rewrite andb_false_r. split; [auto | reflexivity].
Qed.

(** *** The configuration of a layer can be marshalled *)

Lemma insert_sorted_elem {V} (kv x : string * V) (l : list (string * V)) :
  x ∈ json.insert_sorted kv l -> x = kv \/ x ∈ l.
Proof.
  induction l as [| kv' l IH]; simpl.
  - intros ->%list_elem_of_singleton. now left.
  - destruct (String.ltb _ _).
    + intros [-> | H]%elem_of_cons; auto.
    + intros [-> | H]%elem_of_cons; [right; left |].
      destruct (IH H) as [-> | H']; [now left | right; now right].
Qed.

Lemma sorted_members_elem {V} (m : gmap string V) (kv : string * V) :
  kv ∈ json.sorted_members m -> m !! fst kv = Some (snd kv).
Proof.
  unfold json.sorted_members. intros H.
  assert (kv ∈ map_to_list m) as Hin.
  { induction (map_to_list m) as [| x l IH]; simpl in H; [inversion H |].
    apply insert_sorted_elem in H as [-> | H]; [left | right; auto]. }
  destruct kv as [k v]. now apply elem_of_map_to_list in Hin.
Qed.

Lemma encode_of_map_values {V} (f : V -> json.value) (m : gmap string V) :
  (forall k v, m !! k = Some v -> exists x, json.encode (f v) = inr x) ->
  exists x, json.encode (json.of_map f m) = inr x.
Proof.
  intros H. apply encode_Obj_total.
  intros kv (kv' & -> & Hin)%elem_of_map. simpl.
  eapply H, sorted_members_elem, Hin.
Qed.

Lemma encode_iface (config : gmap string (option (list byte))) (v : iface) :
  raw_valid config ->
  (forall m, v = IRawMessage (Some m) -> exists key, config !! key = Some (Some m)) ->
  exists x, json.encode (of_iface v) = inr x.
Proof.
  intros Hraw Hv. destruct v as [s | [m |]]; simpl; eauto.
  destruct (Hv m eq_refl) as (key & Hkey).
  unfold json.compact. rewrite (Hraw key m Hkey). eauto.
Qed.

Lemma base_config_values (id prev key : string) (v : iface) :
  base_config id prev !! key = Some v -> exists s, v = IString s.
Proof.
  destruct (decide (key = "id")) as [-> | H1].
  { rewrite base_config_id. intros [= <-]. eauto. }
  destruct (decide (key = "parent")) as [-> | H2].
  { rewrite base_config_parent. destruct (String.eqb prev ""); intros [= <-]. eauto. }
  rewrite base_config_other by assumption. discriminate.
Qed.

Lemma Marshal_base_config (id prev : string) :
  exists b, json.Marshal (json.of_map of_iface (base_config id prev)) = inr b.
Proof.
  apply Marshal_total, encode_of_map_values.
  intros k v (s & ->)%base_config_values. simpl. eauto.
Qed.

Lemma Marshal_top_config (config : gmap string (option (list byte))) (id prev : string) :
  raw_valid config ->
  exists b,
    json.Marshal (json.of_map of_iface (top_config config (base_config id prev))) = inr b.
Proof.
  intros Hraw. apply Marshal_total, encode_of_map_values.
  intros k v. rewrite top_config_lookup. destruct (decide (k ∈ attrs)).
  - intros [= <-]. apply (encode_iface config); [exact Hraw |].
    intros m [= Hm]. exists k. destruct (config !! k) as [[m' |] |]; simpl in Hm; congruence.
  - intros (s & ->)%base_config_values. simpl. eauto.
Qed.

(** *** The whole call *)

(** On a writer that is ready, a turn of the loop for a layer with a
    well-formed digest goes on to the next layer, and leaves the writer
    ready. *)
Lemma layer_returns n configBytes config i l v w :
  ready (tar w) ->
  wellformed (manifest.Digest l) ->
  json.Unmarshal configBytes = inr config ->
  raw_valid config ->
  exists w' v1, layer n configBytes i l v w = (w', Next v1) /\ ready (tar w').
Proof.
  intros Hr (h & Hh & Hhex) Hu Hraw.
  destruct (next_chainID_hex (chainID v) (manifest.Digest l)) as (id & Hid & Hidhex);
    [exists h; auto |].
  destruct (Join_layer_paths id h Hidhex Hhex) as (J1 & J2 & J3 & J4).
  pose proof (hasNUL_hex id Hidhex) as Nid. pose proof (hasNUL_hex h Hhex) as Nh.
  unfold layer. fold (next_chainID (chainID v) (manifest.Digest l)).
  unfold physicalLayerPath, mbind, body_bind, bind, call, check, checked, pure.
  rewrite Hid, Hh. cbv beta iota zeta. rewrite J1, J2, J3, J4.
  destruct (sendSymlink_ready (id +:+ "/layer.tar") ("../" +:+ h +:+ ".tar") w Hr)
    as (w1 & H1 & Hr1).
  { apply symlink_header_ok; rewrite !hasNUL_app, ?Nid, ?Nh; reflexivity. }
  rewrite H1.
  destruct (sendBytes_ready (id +:+ "/VERSION") (bytes_of_string "1.0") w1 Hr1)
    as (w2 & H2 & Hr2).
  { apply file_header_ok; [rewrite hasNUL_app, Nid; reflexivity |].
    now rewrite hasSuffixSlash_app. }
  rewrite H2.
  assert (forall b, exists w3,
               sendBytes (id +:+ "/json") b w2 = (w3, None) /\ ready (tar w3)) as H3.
  { intros b. apply sendBytes_ready; [exact Hr2 |].
    apply file_header_ok; [rewrite hasNUL_app, Nid; reflexivity |].
    now rewrite hasSuffixSlash_app. }
  fold (base_config id (lastLayerID v)).
  destruct (i =? n - 1).
  - rewrite Hu. fold (top_config config (base_config id (lastLayerID v))).
    destruct (Marshal_top_config config id (lastLayerID v) Hraw) as (b & ->).
    destruct (H3 b) as (w3 & -> & Hr3). eauto.
  - destruct (Marshal_base_config id (lastLayerID v)) as (b & ->).
    destruct (H3 b) as (w3 & -> & Hr3). eauto.
Qed.

Lemma layers_from_returns n configBytes config ls :
  Forall (fun l => wellformed (manifest.Digest l)) ls ->
  json.Unmarshal configBytes = inr config ->
  raw_valid config ->
  forall i v w,
    ready (tar w) ->
    exists w' v', layers_from n configBytes i ls v w = (w', Next v') /\ ready (tar w').
Proof.
  intros Hwf Hu Hraw. induction Hwf as [| l ls Hl _ IH]; intros i v w Hr; simpl.
  - unfold pure. eauto.
  - unfold mbind, body_bind, bind.
    destruct (layer_returns n configBytes config i l v w Hr Hl Hu Hraw)
      as (w1 & v1 & -> & Hr1).
    apply IH, Hr1.
Qed.

(** ** What the scanner accepted once, it accepts again *)

(** A value that the scanner accepted is accepted again when it stands
    alone or before other text that may follow a value. This is why the
    raw messages that [Unmarshal] stores can be marshalled. *)

Lemma space_cases (c : ascii) :
  json.is_space c = true ->
  c = " "%char \/ c = "009"%char \/ c = "010"%char \/ c = "013"%char.
Proof.
  unfold json.is_space. intros H. repeat apply orb_prop in H as [H | H];
    apply Ascii.eqb_eq in H; auto.
Qed.

Lemma delimiter_cases (c : ascii) :
  delimiter c = true ->
  json.is_space c = true \/ c = ","%char \/ c = "}"%char \/ c = "]"%char.
Proof.
  unfold delimiter. intros H.
  apply orb_prop in H as [H | H]; [apply orb_prop in H as [H | H] |];
    [apply orb_prop in H as [H | H] | |]; [auto | | |];
    apply Ascii.eqb_eq in H; auto.
Qed.

Ltac delimiter_char H :=
  apply delimiter_cases in H as [H | [-> | [-> | ->]]];
  [apply space_cases in H as [-> | [-> | [-> | ->]]] | | |].

Lemma skip_ws_spaces (ws x : list ascii) :
  forallb json.is_space ws = true -> json.skip_ws (ws ++ x) = json.skip_ws x.
Proof.
  induction ws as [| c ws IH]; simpl; [reflexivity |].
  intros (Hc & Hws)%andb_prop. rewrite Hc. auto.
Qed.

Lemma skip_ws_split (l : list ascii) :
  exists ws, l = ws ++ json.skip_ws l /\ forallb json.is_space ws = true.
Proof.
  induction l as [| c l (ws & Hl & Hws)]; simpl; [exists []; auto |].
  destruct (json.is_space c) eqn:Hc; [| exists []; auto].
  exists (c :: ws). simpl. rewrite Hc, Hws. split; [now f_equal | reflexivity].
Qed.

Lemma skip_ws_head (l : list ascii) (c : ascii) (r : list ascii) :
  json.skip_ws l = c :: r -> json.is_space c = false.
Proof.
  induction l as [| c' l IH]; simpl; [discriminate |].
  destruct (json.is_space c') eqn:Hc; [exact IH | now intros [= -> _]].
Qed.

Lemma skip_ws_nonspace (c : ascii) (r : list ascii) :
  json.is_space c = false -> json.skip_ws (c :: r) = c :: r.
Proof. simpl. now intros ->. Qed.

(** White space, then text that starts with another character. *)
Lemma skip_ws_to (ws : list ascii) (c : ascii) (r : list ascii) :
  forallb json.is_space ws = true -> json.is_space c = false ->
  json.skip_ws (ws ++ c :: r) = c :: r.
Proof. intros Hws Hc. now rewrite skip_ws_spaces, skip_ws_nonspace. Qed.

Lemma safe_after_spaces (ws : list ascii) (c : ascii) (r : list ascii) :
  forallb json.is_space ws = true -> delimiter c = true -> safe (ws ++ c :: r) = true.
Proof.
  destruct ws as [| s ws]; simpl; [auto |].
  intros (Hs & _)%andb_prop _. unfold delimiter. now rewrite Hs.
Qed.

Lemma str_frame (l : list ascii) :
  forall r, json.str l = Some r ->
            exists p, l = p ++ r /\ forall y, json.str (p ++ y) = Some y.
Proof.
  induction l as [l IH] using (induction_ltof1 _ (@length ascii)). unfold ltof in IH.
  intros r. destruct l as [| c r0]; simpl; [discriminate |].
  destruct (c =? dquote)%char eqn:Hq.
  { intros [= <-]. exists [c]. split; [reflexivity |]. intros y. simpl. now rewrite Hq. }
  destruct (c =? "\")%char eqn:Hb.
  - destruct r0 as [| e r']; [discriminate |].
    destruct (json.simple_escape e) eqn:He.
    + intros H. apply IH in H as (p & -> & Hp); [| simpl; lia].
      exists (c :: e :: p). split; [reflexivity |]. intros y. simpl.
      now rewrite Hq, Hb, He.
    + destruct (e =? "u")%char eqn:Hu; [| discriminate].
      destruct r' as [| a [| b [| c' [| d r'']]]]; try discriminate.
      destruct (json.is_hex a && json.is_hex b && json.is_hex c' && json.is_hex d) eqn:Hh;
        [| discriminate].
      intros H. apply IH in H as (p & -> & Hp); [| simpl; lia].
      exists (c :: e :: a :: b :: c' :: d :: p). split; [reflexivity |]. intros y. simpl.
      now rewrite Hq, Hb, He, Hu, Hh.
  - destruct (Zascii c <? 32) eqn:Hc; [discriminate |].
    intros H. apply IH in H as (p & -> & Hp); [| simpl; lia].
    exists (c :: p). split; [reflexivity |]. intros y. simpl. now rewrite Hq, Hb, Hc.
Qed.

Lemma digits_split (l : list ascii) :
  exists p, l = p ++ json.digits l /\ forallb json.is_digit p = true /\
            nondigit (json.digits l).
Proof.
  induction l as [| c l (p & Hl & Hp & Hn)]; simpl; [exists []; auto |].
  destruct (json.is_digit c) eqn:Hc; [| exists []; simpl; auto].
  exists (c :: p). simpl. rewrite Hc, Hp. repeat split; [now f_equal | assumption].
Qed.

Lemma digits_app (p y : list ascii) :
  forallb json.is_digit p = true -> nondigit y -> json.digits (p ++ y) = y.
Proof.
  induction p as [| c p IH]; simpl.
  - intros _ Hy. destruct y as [| c y]; [reflexivity |]. simpl in *. now rewrite Hy.
  - intros (Hc & Hp)%andb_prop Hy. rewrite Hc. auto.
Qed.

Lemma safe_nondigit (y : list ascii) : safe y = true -> nondigit y.
Proof.
  destruct y as [| c y]; simpl; [auto |]. intros H. delimiter_char H; reflexivity.
Qed.

Lemma exponent_frame (l r : list ascii) :
  json.exponent l = Some r ->
  exists p, l = p ++ r /\
            forall y, safe y = true -> nondigit (p ++ y) /\ json.exponent (p ++ y) = Some y.
Proof.
  assert (Hstay : forall y, safe y = true -> nondigit y /\ json.exponent y = Some y).
  { intros y Hy. split; [now apply safe_nondigit |].
    destruct y as [| c y]; [reflexivity |]. simpl in Hy. delimiter_char Hy; reflexivity. }
  unfold json.exponent at 1. destruct l as [| c r0].
  { intros [= <-]. exists []. auto. }
  destruct ((c =? "e")%char || (c =? "E")%char) eqn:He.
  2: { intros [= <-]. exists []. auto. }
  assert (Hc : json.is_digit c = false).
  { apply orb_prop in He as [->%Ascii.eqb_eq | ->%Ascii.eqb_eq]; reflexivity. }
  assert (Hrun : forall s d r'' x,
             r0 = s ++ d :: r'' -> json.is_digit d = true ->
             (s = [] \/ exists a, s = [a] /\ ((a =? "+")%char || (a =? "-")%char) = true) ->
             json.exponent (c :: s ++ d :: x) = Some (json.digits x)).
  { intros s d r'' x _ Hd Hs. unfold json.exponent. rewrite He.
    destruct Hs as [-> | (a & -> & Ha)]; simpl.
    - destruct ((d =? "+")%char || (d =? "-")%char) eqn:Hsign.
      + apply orb_prop in Hsign as [->%Ascii.eqb_eq | ->%Ascii.eqb_eq]; discriminate.
      + now rewrite Hd.
    - now rewrite Ha, Hd. }
  assert (Hshape : forall r1, json.exponent (c :: r0) = Some r1 ->
             exists s d r'', r0 = s ++ d :: r'' /\ json.is_digit d = true /\
               (s = [] \/ exists a, s = [a] /\ ((a =? "+")%char || (a =? "-")%char) = true) /\
               r1 = json.digits r'').
  { intros r1. unfold json.exponent. rewrite He. destruct r0 as [| s r']; [discriminate |].
    destruct ((s =? "+")%char || (s =? "-")%char) eqn:Hs.
    - destruct r' as [| d r'']; [discriminate |].
      destruct (json.is_digit d) eqn:Hd; [| discriminate]. intros [= <-].
      exists [s], d, r''. repeat split; eauto.
    - destruct (json.is_digit s) eqn:Hd; [| discriminate]. intros [= <-].
      exists [], s, r'. repeat split; eauto. }
  intros H. assert (H' : json.exponent (c :: r0) = Some r).
  { unfold json.exponent. rewrite He. exact H. }
  destruct (Hshape _ H') as (s & d & r'' & Hr0 & Hd & Hs & ->).
  destruct (digits_split r'') as (pd & Hsplit & Hpd & _).
  exists (c :: s ++ d :: pd). split.
  { simpl. rewrite <- app_assoc. simpl. now rewrite <- Hsplit, <- Hr0. }
  intros y Hy. split; [simpl; exact Hc |].
  replace ((c :: s ++ d :: pd) ++ y) with (c :: s ++ d :: pd ++ y)
    by (simpl; rewrite <- app_assoc; reflexivity).
  rewrite (Hrun s d r'' (pd ++ y) Hr0 Hd Hs). f_equal. apply digits_app; [assumption | now apply safe_nondigit].
Qed.

Lemma fraction_frame (l r : list ascii) :
  json.fraction l = Some r ->
  exists p, l = p ++ r /\
            forall y, safe y = true -> nondigit (p ++ y) /\ json.fraction (p ++ y) = Some y.
Proof.
  assert (Hstay : forall y, safe y = true -> json.fraction y = json.exponent y).
  { intros [| c y] Hy; [reflexivity |]. simpl in Hy. delimiter_char Hy; reflexivity. }
  destruct l as [| c r0].
  { simpl. intros [= <-]. exists []. split; [reflexivity |]. intros y Hy.
    split; [now apply safe_nondigit |]. simpl. rewrite (Hstay _ Hy).
    destruct y as [| c y]; [reflexivity |]. simpl in Hy. delimiter_char Hy; reflexivity. }
  unfold json.fraction at 1. destruct (c =? ".")%char eqn:Hdot.
  - destruct r0 as [| d r']; [discriminate |].
    destruct (json.is_digit d) eqn:Hd; [| discriminate]. intros H.
    destruct (digits_split r') as (pd & Hsplit & Hpd & _).
    apply exponent_frame in H as (pe & Hpe & Hrun).
    exists (c :: d :: pd ++ pe). split.
    { simpl. rewrite <- app_assoc, <- Hpe, <- Hsplit. reflexivity. }
    intros y Hy. destruct (Hrun y Hy) as (Hn & He). split.
    { simpl. apply Ascii.eqb_eq in Hdot as ->. reflexivity. }
    simpl. rewrite Hdot, Hd, <- app_assoc, digits_app; auto.
  - intros H. apply exponent_frame in H as (p & Hp & Hrun).
    exists p. split; [assumption |]. intros y Hy. destruct (Hrun y Hy) as (Hn & He).
    split; [assumption |]. destruct p as [| c' p].
    + simpl in *. now rewrite Hstay.
    + simpl in Hp. injection Hp as <- _. simpl. rewrite Hdot. exact He.
Qed.

Lemma number_frame (l r : list ascii) :
  json.number l = Some r ->
  exists p, l = p ++ r /\ p <> [] /\
            forall y, safe y = true -> json.number (p ++ y) = Some y.
Proof.
  set (unsigned := fun l' : list ascii =>
         match l' with
         | c :: r =>
             if (c =? "0")%char then json.fraction r
             else if json.is_digit c then json.fraction (json.digits r)
             else None
         | [] => None
         end).
  assert (U : forall l' r', unsigned l' = Some r' ->
              exists c p, l' = c :: p ++ r' /\ (c =? "-")%char = false /\
                          forall y, safe y = true -> unsigned (c :: p ++ y) = Some y).
  { intros [| c r0] r'; unfold unsigned; [discriminate |].
    destruct (c =? "0")%char eqn:H0.
    - intros (pf & -> & Hrun)%fraction_frame. exists c, pf. split; [reflexivity |].
      split; [apply Ascii.eqb_eq in H0 as ->; reflexivity |].
      intros y Hy. rewrite H0. now apply Hrun.
    - destruct (json.is_digit c) eqn:Hd; [| discriminate].
      intros (pf & Hpf & Hrun)%fraction_frame.
      destruct (digits_split r0) as (pd & Hsplit & Hpd & _).
      exists c, (pd ++ pf). split; [rewrite <- app_assoc, <- Hpf, <- Hsplit; reflexivity |].
      split.
      { destruct (c =? "-")%char eqn:Hm; [| reflexivity].
        apply Ascii.eqb_eq in Hm as ->. discriminate. }
      intros y Hy. destruct (Hrun y Hy) as (Hn & Hf).
      rewrite H0, Hd, <- app_assoc, digits_app; auto. }
  destruct l as [| c r0]; [discriminate |].
  destruct (c =? "-")%char eqn:Hm.
  - intros H. assert (Hu : unsigned r0 = Some r).
    { revert H. unfold json.number. now rewrite Hm. }
    apply U in Hu as (c' & p & -> & _ & Hrun).
    exists (c :: c' :: p). split; [reflexivity |]. split; [discriminate |].
    intros y Hy. specialize (Hrun y Hy). revert Hrun. unfold json.number, unsigned. simpl.
    now rewrite Hm.
  - intros H. assert (Hu : unsigned (c :: r0) = Some r).
    { revert H. unfold json.number. now rewrite Hm. }
    apply U in Hu as (c' & p & [= <- ->] & _ & Hrun).
    exists (c :: p). split; [reflexivity |]. split; [discriminate |].
    intros y Hy. specialize (Hrun y Hy). revert Hrun. unfold json.number, unsigned. simpl.
    now rewrite Hm.
Qed.

Lemma literal_frame (w l r : list ascii) :
  json.literal w l = Some r -> l = w ++ r.
Proof.
  revert l. induction w as [| a w IH]; intros l; simpl; [now intros [= ->] |].
  destruct l as [| b l]; [discriminate |].
  destruct (Ascii.eqb a b) eqn:Hab; [| discriminate].
  apply Ascii.eqb_eq in Hab as ->. intros H. now rewrite (IH _ H).
Qed.

Lemma literal_app (w y : list ascii) : json.literal w (w ++ y) = Some y.
Proof.
  induction w as [| a w IH]; simpl; [destruct y; reflexivity |].
  now rewrite Ascii.eqb_refl.
Qed.

Lemma literal_shape (w : list ascii) (c : ascii) (r0 r : list ascii) :
  w <> [] -> json.literal w (c :: r0) = Some r -> exists p, w = c :: p /\ r0 = p ++ r.
Proof.
  intros Hw H. apply literal_frame in H. destruct w as [| a w]; [contradiction |].
  simpl in H. injection H as -> ->. eauto.
Qed.

(** A value starts with neither white space nor a closing bracket. *)
Lemma skip_value_head (n : nat) (c : ascii) (r0 r : list ascii) :
  json.skip_value n (c :: r0) = Some r ->
  json.is_space c = false /\ (c =? "]")%char = false.
Proof.
  destruct n as [| n]; [discriminate |]. intros H. split.
  - destruct (json.is_space c) eqn:Hc; [| reflexivity].
    apply space_cases in Hc as [-> | [-> | [-> | ->]]]; discriminate.
  - destruct (c =? "]")%char eqn:Hc; [| reflexivity].
    apply Ascii.eqb_eq in Hc as ->. discriminate.
Qed.

Lemma skip_frame (n : nat) :
  (forall l r, json.skip_value n l = Some r ->
     exists c p, l = c :: p ++ r /\
       forall m y, (length p < m)%nat -> safe y = true ->
                   json.skip_value m (c :: p ++ y) = Some y)
  /\ (forall l r, json.skip_members n l = Some r ->
     exists c p, l = c :: p ++ r /\ json.is_space c = false /\
       forall m y, (length p < m)%nat -> json.skip_members m (c :: p ++ y) = Some y)
  /\ (forall l r, json.skip_elements n l = Some r ->
     exists c p, l = c :: p ++ r /\ json.is_space c = false /\
       forall m y, (length p < m)%nat -> json.skip_elements m (c :: p ++ y) = Some y).
Proof.
  induction n as [| n (IHv & IHm & IHe)]; [repeat split; discriminate |].
  split; [| split].
  - intros [| c r0] r; [discriminate |]. cbn [json.skip_value].
    destruct (c =? dquote)%char eqn:Hq.
    { intros (p & -> & Hp)%str_frame. exists c, p. split; [reflexivity |].
      intros [| m] y Hm _; [lia |]. cbn [json.skip_value]. now rewrite Hq. }
    destruct (c =? "{")%char eqn:Ho.
    { destruct (skip_ws_split r0) as (ws & Hr0 & Hws).
      destruct (json.skip_ws r0) as [| c' r'] eqn:Hskip; [discriminate |].
      pose proof (skip_ws_head _ _ _ Hskip) as Hc'.
      destruct (c' =? "}")%char eqn:Hclose.
      - intros [= <-]. exists c, (ws ++ [c']). split.
        { rewrite <- app_assoc. simpl. now rewrite <- Hr0. }
        intros [| m] y Hm _; [lia |]. cbn [json.skip_value]. rewrite Hq, Ho.
        rewrite <- app_assoc. simpl. rewrite skip_ws_to by assumption. now rewrite Hclose.
      - intros (cm & pm & [= <- ->] & _ & Hpm)%IHm. exists c, (ws ++ c' :: pm). split.
        { rewrite <- app_assoc. simpl. now rewrite <- Hr0. }
        intros [| m] y Hm _; [lia |]. cbn [json.skip_value]. rewrite Hq, Ho.
        rewrite <- app_assoc. simpl. rewrite skip_ws_to by assumption. rewrite Hclose.
        apply Hpm. rewrite length_app in Hm. simpl in Hm. lia. }
    destruct (c =? "[")%char eqn:Ha.
    { destruct (skip_ws_split r0) as (ws & Hr0 & Hws).
      destruct (json.skip_ws r0) as [| c' r'] eqn:Hskip; [discriminate |].
      pose proof (skip_ws_head _ _ _ Hskip) as Hc'.
      destruct (c' =? "]")%char eqn:Hclose.
      - intros [= <-]. exists c, (ws ++ [c']). split.
        { rewrite <- app_assoc. simpl. now rewrite <- Hr0. }
        intros [| m] y Hm _; [lia |]. cbn [json.skip_value]. rewrite Hq, Ho, Ha.
        rewrite <- app_assoc. simpl. rewrite skip_ws_to by assumption. now rewrite Hclose.
      - intros (cm & pm & [= <- ->] & _ & Hpm)%IHe. exists c, (ws ++ c' :: pm). split.
        { rewrite <- app_assoc. simpl. now rewrite <- Hr0. }
        intros [| m] y Hm _; [lia |]. cbn [json.skip_value]. rewrite Hq, Ho, Ha.
        rewrite <- app_assoc. simpl. rewrite skip_ws_to by assumption. rewrite Hclose.
        apply Hpm. rewrite length_app in Hm. simpl in Hm. lia. }
    assert (Hword : forall w, w <> [] -> json.literal w (c :: r0) = Some r ->
              exists p, c :: r0 = c :: p ++ r /\
                        forall y, json.literal w (c :: p ++ y) = Some y).
    { intros w Hw (p & -> & ->)%literal_shape; [| assumption]. exists p.
      split; [reflexivity |]. intros y. apply (literal_app (c :: p)). }
    destruct (c =? "t")%char eqn:Ht.
    { intros (p & Hp & Hrun)%Hword; [| discriminate]. exists c, p. split; [assumption |].
      intros [| m] y Hm _; [lia |]. cbn [json.skip_value]. now rewrite Hq, Ho, Ha, Ht. }
    destruct (c =? "f")%char eqn:Hf.
    { intros (p & Hp & Hrun)%Hword; [| discriminate]. exists c, p. split; [assumption |].
      intros [| m] y Hm _; [lia |]. cbn [json.skip_value]. now rewrite Hq, Ho, Ha, Ht, Hf. }
    destruct (c =? "n")%char eqn:Hn.
    { intros (p & Hp & Hrun)%Hword; [| discriminate]. exists c, p. split; [assumption |].
      intros [| m] y Hm _; [lia |]. cbn [json.skip_value].
      now rewrite Hq, Ho, Ha, Ht, Hf, Hn. }
    intros (p & Hp & Hne & Hrun)%number_frame.
    destruct p as [| c' p]; [contradiction |]. simpl in Hp. injection Hp as <- ->.
    exists c, p. split; [reflexivity |].
    intros [| m] y Hm Hy; [lia |]. cbn [json.skip_value].
    rewrite Hq, Ho, Ha, Ht, Hf, Hn. now apply Hrun.
  - intros [| c r0] r; [discriminate |]. cbn [json.skip_members].
    destruct (c =? dquote)%char eqn:Hq; [| discriminate].
    destruct (json.str r0) as [r1 |] eqn:Hstr; [| discriminate].
    apply str_frame in Hstr as (ps & -> & Hps).
    destruct (skip_ws_split r1) as (ws1 & Hr1 & Hws1).
    destruct (json.skip_ws r1) as [| c1 r2] eqn:Hskip1; [discriminate |].
    pose proof (skip_ws_head _ _ _ Hskip1) as Hc1.
    destruct (c1 =? ":")%char eqn:Hcolon; [| discriminate].
    destruct (skip_ws_split r2) as (ws2 & Hr2 & Hws2).
    destruct (json.skip_value n (json.skip_ws r2)) as [r3 |] eqn:Hval; [| discriminate].
    destruct (IHv _ _ Hval) as (cv & pv & Hv & Hpv).
    rewrite Hv in Hval. apply skip_value_head in Hval as (Hcv & _).
    destruct (skip_ws_split r3) as (ws3 & Hr3 & Hws3).
    destruct (json.skip_ws r3) as [| c3 r4] eqn:Hskip3; [discriminate |].
    pose proof (skip_ws_head _ _ _ Hskip3) as Hc3.
    assert (Hc : json.is_space c = false).
    { apply Ascii.eqb_eq in Hq as ->. reflexivity. }
    destruct (c3 =? ",")%char eqn:Hcomma.
    + destruct (skip_ws_split r4) as (ws4 & Hr4 & Hws4).
      intros (cm & pm & Hm4 & Hcm & Hpm)%IHm.
      exists c, (ps ++ ws1 ++ c1 :: ws2 ++ (cv :: pv) ++ ws3 ++ c3 :: ws4 ++ cm :: pm).
      split.
      { f_equal. repeat (rewrite <- ?app_assoc; simpl).
        rewrite <- Hm4, <- Hr4, <- Hr3. rewrite <- Hv, <- Hr2, <- Hr1. reflexivity. }
      split; [assumption |].
      intros [| m] y Hm; [lia |]. cbn [json.skip_members]. rewrite Hq.
      repeat (rewrite <- ?app_assoc; simpl). rewrite Hps.
      rewrite skip_ws_to by assumption. rewrite Hcolon.
      rewrite skip_ws_to by assumption.
      rewrite Hpv.
      2: { repeat (rewrite ?length_app in Hm; simpl in Hm). lia. }
      2: { apply safe_after_spaces; [assumption |]. unfold delimiter.
           rewrite Hcomma. now rewrite !orb_true_r. }
      rewrite skip_ws_to by assumption. rewrite Hcomma.
      rewrite skip_ws_to by assumption.
      apply Hpm. repeat (rewrite ?length_app in Hm; simpl in Hm). lia.
    + destruct (c3 =? "}")%char eqn:Hclose; [| discriminate]. intros [= <-].
      exists c, (ps ++ ws1 ++ c1 :: ws2 ++ (cv :: pv) ++ ws3 ++ [c3]).
      split.
      { f_equal. repeat (rewrite <- ?app_assoc; simpl).
        rewrite <- Hr3. rewrite <- Hv, <- Hr2, <- Hr1. reflexivity. }
      split; [assumption |].
      intros [| m] y Hm; [lia |]. cbn [json.skip_members]. rewrite Hq.
      repeat (rewrite <- ?app_assoc; simpl). rewrite Hps.
      rewrite skip_ws_to by assumption. rewrite Hcolon.
      rewrite skip_ws_to by assumption.
      rewrite Hpv.
      2: { repeat (rewrite ?length_app in Hm; simpl in Hm). lia. }
      2: { apply safe_after_spaces; [assumption |]. unfold delimiter.
           rewrite Hclose. now rewrite !orb_true_r. }
      rewrite skip_ws_to by assumption. now rewrite Hcomma, Hclose.
  - intros l r. cbn [json.skip_elements].
    destruct (json.skip_value n l) as [r1 |] eqn:Hval; [| discriminate].
    destruct (IHv _ _ Hval) as (cv & pv & Hv & Hpv).
    rewrite Hv in Hval. apply skip_value_head in Hval as (Hcv & _).
    destruct (skip_ws_split r1) as (ws1 & Hr1 & Hws1).
    destruct (json.skip_ws r1) as [| c1 r2] eqn:Hskip1; [discriminate |].
    pose proof (skip_ws_head _ _ _ Hskip1) as Hc1.
    destruct (c1 =? ",")%char eqn:Hcomma.
    + destruct (skip_ws_split r2) as (ws2 & Hr2 & Hws2).
      intros (ce & pe & He & Hce & Hpe)%IHe.
      exists cv, (pv ++ ws1 ++ c1 :: ws2 ++ ce :: pe). split.
      { rewrite Hv. f_equal. repeat (rewrite <- ?app_assoc; simpl).
        now rewrite <- He, <- Hr2, <- Hr1. }
      split; [assumption |].
      intros [| m] y Hm; [lia |]. cbn [json.skip_elements].
      repeat (rewrite <- ?app_assoc; simpl).
      rewrite Hpv.
      2: { repeat (rewrite ?length_app in Hm; simpl in Hm). lia. }
      2: { apply safe_after_spaces; [assumption |]. unfold delimiter.
           rewrite Hcomma. now rewrite !orb_true_r. }
      rewrite skip_ws_to by assumption. rewrite Hcomma.
      rewrite skip_ws_to by assumption.
      apply Hpe. repeat (rewrite ?length_app in Hm; simpl in Hm). lia.
    + destruct (c1 =? "]")%char eqn:Hclose; [| discriminate]. intros [= <-].
      exists cv, (pv ++ ws1 ++ [c1]). split.
      { rewrite Hv. f_equal. repeat (rewrite <- ?app_assoc; simpl). now rewrite <- Hr1. }
      split; [assumption |].
      intros [| m] y Hm; [lia |]. cbn [json.skip_elements].
      repeat (rewrite <- ?app_assoc; simpl).
      rewrite Hpv.
      2: { repeat (rewrite ?length_app in Hm; simpl in Hm). lia. }
      2: { apply safe_after_spaces; [assumption |]. unfold delimiter.
           rewrite Hclose. now rewrite !orb_true_r. }
      rewrite skip_ws_to by assumption. now rewrite Hcomma, Hclose.
Qed.

Lemma of_bytes_to_bytes (l : list ascii) : json.of_bytes (json.to_bytes l) = l.
Proof.
  unfold json.of_bytes, json.to_bytes. rewrite map_map.
  induction l as [| c l IH]; simpl; [reflexivity |].
  now rewrite ascii_of_byte_of_ascii, IH.
Qed.

(** The text of a value the scanner accepted is valid JSON by itself. *)
Lemma skip_value_valid (n : nat) (v r : list ascii) :
  json.skip_value n v = Some r ->
  json.Valid (firstn (length v - length r) v) = true.
Proof.
  intros H. destruct (skip_frame n) as (Hv & _).
  destruct (Hv _ _ H) as (c & p & -> & Hrun).
  apply skip_value_head in H as (Hc & _).
  replace (length (c :: p ++ r) - length r)%nat with (length (c :: p))
    by (simpl; rewrite length_app; lia).
  change (c :: p ++ r) with ((c :: p) ++ r). rewrite firstn_app, firstn_all, Nat.sub_diag.
  simpl firstn. rewrite app_nil_r. unfold json.Valid.
  rewrite skip_ws_nonspace by assumption.
  specialize (Hrun (S (length (c :: p))) [] ltac:(simpl; lia) eq_refl).
  rewrite app_nil_r in Hrun. now rewrite Hrun.
Qed.

Lemma fields_raw_valid (n : nat) :
  forall l m, raw_valid m -> raw_valid (json.fields n l m).
Proof.
  induction n as [| n IH]; intros l m Hm; [exact Hm |]. cbn [json.fields].
  destruct l as [| c r]; [exact Hm |].
  destruct (json.str r) as [r1 |]; [| exact Hm].
  destruct (json.skip_ws r1) as [| c1 r2]; [exact Hm |].
  destruct (json.skip_value _ (json.skip_ws r2)) as [r3 |] eqn:Hval; [| exact Hm].
  apply skip_value_valid in Hval. cbv zeta.
  set (item := firstn _ (json.skip_ws r2)) in *.
  set (key := json.unquote_key _).
  set (p := match item with [] => _ | _ :: _ => _ end).
  assert (Hins : raw_valid (<[key := p]> m)).
  { intros k x. destruct (decide (k = key)) as [-> | Hne].
    - rewrite lookup_insert_eq. intros [= Hp]. subst p.
      assert (x = json.to_bytes item) as ->.
      { destruct item as [| a item']; [congruence |].
        destruct (a =? "n")%char; congruence. }
      now rewrite of_bytes_to_bytes.
    - rewrite lookup_insert_ne by congruence. apply Hm. }
  destruct (json.skip_ws r3) as [| c3 r4]; [exact Hins |].
  destruct (c3 =? ",")%char; [now apply IH | exact Hins].
Qed.

(** Every raw message that [Unmarshal] stores in the map is a JSON value. *)
Lemma Unmarshal_raw_valid (data : list byte) (config : gmap string (option (list byte))) :
  json.Unmarshal data = inr config -> raw_valid config.
Proof.
  assert (Hempty : raw_valid ∅) by (intros k x; now rewrite lookup_empty).
  unfold json.Unmarshal. destruct (negb _); [discriminate |].
  destruct (json.skip_ws _) as [| c r]; [discriminate |].
  destruct (c =? "{")%char.
  - destruct (json.skip_ws r) as [| c' r']; [now intros [= <-] |].
    destruct (c' =? "}")%char; intros [= <-]; [assumption |].
    now apply fields_raw_valid.
  - destruct (c =? "n")%char; [now intros [= <-] |].
    destruct (c =? "[")%char; [discriminate |].
    destruct ((c =? "t")%char || (c =? "f")%char); [discriminate |].
    destruct (c =? dquote)%char; discriminate.
Qed.

(** ** The legacy metadata is written *)

(** X1. On a writer that is ready, [writeLegacyLayerMetadata] returns without
    error for layers with well-formed digests and a configuration that
    is a JSON object (or [null]). *)
Theorem writeLegacyLayerMetadata_returns layers configBytes config w :
  ready (tar w) ->
  Forall (fun l => wellformed (manifest.Digest l)) layers ->
  json.Unmarshal configBytes = inr config ->
  exists w' paths lastID,
    writeLegacyLayerMetadata layers configBytes w = (w', Ret (paths, lastID, None)) /\
    ready (tar w').
Proof.
  intros Hr Hwf Hu. pose proof (Unmarshal_raw_valid _ _ Hu) as Hraw.
  unfold writeLegacyLayerMetadata.
  destruct (layers_from_returns (len layers) configBytes config layers Hwf Hu Hraw 0
              {| chainID := ""; lastLayerID := ""; layerPaths := Nil |} w Hr)
    as (w' & v' & -> & Hr').
  eauto.
Qed.

(** Two layers and a small configuration, on a new writer. *)
Lemma writeLegacyLayerMetadata_returns_witness :
  let l0 := {| manifest.MediaType := ""; manifest.Size := 1; manifest.Digest := "sha256:ab" |} in
  let l1 := {| manifest.MediaType := ""; manifest.Size := 2; manifest.Digest := "sha256:cd" |} in
  let configBytes := bytes_of_string (dq "{'os':'linux','config':{'Env':['A=1']}}") in
  exists w' paths lastID,
    writeLegacyLayerMetadata [l0; l1] configBytes (NewWriter {| tar.quota := None |})
    = (w', Ret (paths, lastID, None)) /\
    ready (tar w').
Proof.
  intros l0 l1 configBytes.
  apply (writeLegacyLayerMetadata_returns [l0; l1] configBytes
           (match json.Unmarshal configBytes with inr c => c | inl _ => ∅ end)
           (NewWriter {| tar.quota := None |})).
  - repeat split.
  - repeat constructor; [exists "ab" | exists "cd"]; repeat split; discriminate.
  - vm_compute. reflexivity.
Defined.

(** ** The entries of the layers *)



(** * Further properties of the writer *)

(** ** A tar writer that failed, and a writer that is closed *)

Lemma set_tar_same (w : Writer) : set_tar w (tar w) = w.
Proof. now destruct w. Qed.

Lemma WriteHeader_failed (h : tar.Header) (tw : tar.Writer) (e : error) :
  tar.err tw = Some e -> tar.WriteHeader h tw = (tw, Some e).
Proof. intros He. unfold tar.WriteHeader, tar.Flush. now rewrite He. Qed.

Lemma sendSymlink_failed (path target : string) (w : Writer) (e : error) :
  tar.err (tar w) = Some e -> sendSymlink path target w = (w, Some e).
Proof.
  intros He. unfold sendSymlink. rewrite FileInfoHeader_symlink.
  now rewrite (WriteHeader_failed _ _ _ He), set_tar_same.
Qed.

Lemma sendFile_failed (path : string) (n : Z) (stream : io.Reader) (w : Writer) (e : error) :
  tar.err (tar w) = Some e -> sendFile path n stream w = (w, Some e).
Proof.
  intros He. unfold sendFile. rewrite FileInfoHeader_file.
  now rewrite (WriteHeader_failed _ _ _ He), set_tar_same.
Qed.

Lemma createRepositoriesFile_failed rootLayerID repoTags (w : Writer) (e : error) :
  tar.err (tar w) = Some e ->
  createRepositoriesFile rootLayerID repoTags w
  = (w, Some (Wrap e "Error writing config json file")).
Proof.
  intros He. destruct (createRepositoriesFile_run rootLayerID repoTags w) as (b & _ & ->).
  unfold sendBytes. now rewrite (sendFile_failed _ _ _ _ _ He).
Qed.

(** What [createManifest] does, in terms of [sendBytes]. *)
Lemma createManifest_run (configDigest h : string) (layerPaths : slice string)
      (repoTags : list reference.NamedTagged) (w : Writer) :
  digest.Hex configDigest = Ret h ->
  exists b,
    json.Marshal (json.Arr [of_ManifestItem (manifest_item (h +:+ ".json") layerPaths repoTags)])
    = inr b /\
    createManifest configDigest layerPaths repoTags w
    = (fst (sendBytes manifestFileName b w), Ret (snd (sendBytes manifestFileName b w))).
Proof.
  intros Hh.
  destruct (Marshal_manifest (h +:+ ".json")
              (RepoTags (manifest_item (h +:+ ".json") layerPaths repoTags)) layerPaths)
    as (b & Hb).
  exists b. split; [exact Hb |]. unfold createManifest, configPath. rewrite Hh.
  cbn [map].
  change (json.Marshal
            (json.Arr [of_ManifestItem (manifest_item (h +:+ ".json") layerPaths repoTags)])
          = inr b) in Hb.
  rewrite Hb. now destruct (sendBytes manifestFileName b w).
Qed.

Lemma first_layer_failed (l : manifest.Schema2Descriptor) (ls : list manifest.Schema2Descriptor)
      (configBytes : list byte) (h : string) (w : Writer) (e : error) :
  digest.Hex (manifest.Digest l) = Ret h ->
  tar.err (tar w) = Some e ->
  writeLegacyLayerMetadata (l :: ls) configBytes w
  = (w, Ret (Nil, "", Some (Wrap e "Error creating layer symbolic link"))).
Proof.
  intros Hh He. unfold writeLegacyLayerMetadata. cbn [layers_from].
  unfold mbind, body_bind, bind, layer. cbn [chainID String.eqb].
  unfold physicalLayerPath, mbind, body_bind, bind, call, check. rewrite Hh.
  now rewrite (sendSymlink_failed _ _ _ _ He).
Qed.

(** X19. Once the tar writer has failed, every operation of the writer
    reports the error the tar writer keeps, wrapped in a message where
    the operation wraps the error of its first write, and leaves the
    writer as it is. *)
Theorem failed_writer_reports_its_error (w : Writer) (e : error) :
  tar.err (tar w) = Some e ->
  (forall path target, sendSymlink path target w = (w, Some e)) /\
  (forall path n stream, sendFile path n stream w = (w, Some e)) /\
  (forall path b, sendBytes path b w = (w, Some e)) /\
  (forall rootLayerID repoTags,
      createRepositoriesFile rootLayerID repoTags w
      = (w, Some (Wrap e "Error writing config json file"))) /\
  (forall configDigest h layerPaths repoTags,
      digest.Hex configDigest = Ret h ->
      createManifest configDigest layerPaths repoTags w = (w, Ret (Some e))) /\
  (forall l ls configBytes h,
      digest.Hex (manifest.Digest l) = Ret h ->
      writeLegacyLayerMetadata (l :: ls) configBytes w
      = (w, Ret (Nil, "", Some (Wrap e "Error creating layer symbolic link")))).
Proof.
  intros He. split; [| split; [| split; [| split; [| split]]]].
  - intros. now apply sendSymlink_failed.
  - intros. now apply sendFile_failed.
  - intros. now apply sendFile_failed.
  - intros. now apply createRepositoriesFile_failed.
  - intros d h paths tags Hh.
    destruct (createManifest_run d h paths tags w Hh) as (b & _ & ->).
    unfold sendBytes. now rewrite (sendFile_failed _ _ _ _ _ He).
  - intros. eapply first_layer_failed; eassumption.
Qed.

(** A writer whose destination refused a write. *)
Lemma failed_writer_reports_its_error_witness :
  let w := {| tar := tar.fail (tar.NewWriter {| tar.quota := Some O |}) ErrDestination;
              blobs := ∅ |} in
  sendSymlink "a/layer.tar" "../a.tar" w = (w, Some ErrDestination) /\
  createRepositoriesFile "a" [] w
  = (w, Some (Wrap ErrDestination "Error writing config json file")).
Proof.
  intros w.
  destruct (failed_writer_reports_its_error w ErrDestination eq_refl)
    as (H1 & _ & _ & H4 & _).
  split; [apply H1 | apply H4].
Defined.

Lemma Close_ready (w : Writer) :
  ready (tar w) ->
  Close w = ({| tar := {| tar.entries := tar.entries (tar w); tar.nb := 0;
                          tar.err := Some tar.ErrWriteAfterClose; tar.w := tar.w (tar w) |};
                blobs := blobs w |}, None).
Proof.
  intros (He & Hn & Hq). unfold Close, tar.Close, tar.Flush. rewrite He, Hn.
  cbn [Z.ltb Z.compare]. rewrite (dest_write_ready _ Hq).
  cbn [tar.zero_blocks tar.w tar.entries tar.nb].
  rewrite !(dest_write_ready _ Hq). reflexivity.
Qed.

(** X20. [Close] on a writer that is ready returns [nil] and adds no entry.
    After it nothing can be added: every operation returns the error
    of a write after the close and leaves the archive as it is; closing
    again returns [nil]. *)
Theorem nothing_is_added_after_Close (w : Writer) :
  ready (tar w) ->
  exists w1,
    Close w = (w1, None) /\
    archive w1 = archive w /\ blobs w1 = blobs w /\
    (forall path target, sendSymlink path target w1 = (w1, Some tar.ErrWriteAfterClose)) /\
    (forall path n stream, sendFile path n stream w1 = (w1, Some tar.ErrWriteAfterClose)) /\
    (forall rootLayerID repoTags,
        createRepositoriesFile rootLayerID repoTags w1
        = (w1, Some (Wrap tar.ErrWriteAfterClose "Error writing config json file"))) /\
    (forall configDigest h layerPaths repoTags,
        digest.Hex configDigest = Ret h ->
        createManifest configDigest layerPaths repoTags w1
        = (w1, Ret (Some tar.ErrWriteAfterClose))) /\
    Close w1 = (w1, None).
Proof.
  intros Hr. rewrite (Close_ready w Hr). eexists. split; [reflexivity |].
  set (w1 := {| tar := _; blobs := _ |}).
  assert (He : tar.err (tar w1) = Some tar.ErrWriteAfterClose) by reflexivity.
  do 2 (split; [reflexivity |]). split; [| split; [| split; [| split]]].
  - intros. now apply sendSymlink_failed.
  - intros. now apply sendFile_failed.
  - intros. now apply createRepositoriesFile_failed.
  - intros d h paths tags Hh.
    destruct (createManifest_run d h paths tags w1 Hh) as (b & _ & ->).
    unfold sendBytes. now rewrite (sendFile_failed _ _ _ _ _ He).
  - reflexivity.
Qed.

(** A new writer that is closed at once. *)
Lemma nothing_is_added_after_Close_witness :
  exists w1,
    Close (NewWriter {| tar.quota := None |}) = (w1, None) /\
    archive w1 = [] /\
    sendFile "blob.tar" 2 (io.NewReader (bytes_of_string "ab")) w1
    = (w1, Some tar.ErrWriteAfterClose) /\
    Close w1 = (w1, None).
Proof.
  destruct (nothing_is_added_after_Close (NewWriter {| tar.quota := None |}))
    as (w1 & Hc & Ha & _ & _ & Hf & _ & _ & Hc2); [repeat split |].
  exists w1. repeat split; [exact Hc | exact Ha | apply Hf | exact Hc2].
Defined.

(** ** A stream that is shorter or longer than declared *)

Lemma allowed_size (path : string) (n : Z) :
  tar.allowedFormats (file_header path n) = None -> 0 <= n.
Proof.
  unfold tar.allowedFormats. simpl. destruct (tar.hasSuffixSlash path); [discriminate |].
  simpl. destruct (n <? 0) eqn:Hn; [discriminate | lia].
Qed.

(** Chunks that fit in the current entry are all written. *)
Lemma copy_fits cs final :
  forall written tw,
    tar.err tw = None -> tar.quota (tar.w tw) = None ->
    len (concat cs) <= tar.nb tw ->
    exists tw',
      io.copy cs final written tw = (tw', (written + len (concat cs), final)) /\
      tar.entries tw' = tar.add_data (concat cs) (tar.entries tw) /\
      tar.nb tw' = tar.nb tw - len (concat cs) /\
      tar.err tw' = None /\ tar.quota (tar.w tw') = None.
Proof.
  induction cs as [| c cs IH]; intros written tw He Hq Hfit; simpl.
  - exists tw. rewrite add_data_nil. unfold len. simpl.
    repeat split; auto; try lia. do 2 f_equal. lia.
  - simpl in Hfit. rewrite len_app in Hfit.
    pose proof (len_nonneg c). pose proof (len_nonneg (concat cs)).
    destruct (0 <? len c) eqn:Hc.
    + unfold tar.Write. rewrite He.
      destruct (tar.nb tw <? len c) eqn:Hov; [lia |].
      rewrite Hc, (dest_write_ready _ Hq), Z.eqb_refl.
      match goal with
      | |- context [io.copy cs final ?wr ?t] =>
          destruct (IH wr t) as (tw' & Hrun & Hent & Hnb & He' & Hq');
            [reflexivity | assumption | simpl; lia |]
      end.
      exists tw'. rewrite Hrun. simpl in *. rewrite Hent, Hnb, add_data_app, len_app.
      repeat split; auto; try lia. do 2 f_equal. lia.
    + assert (c = []) as -> by (apply len_zero; lia). simpl.
      change (len (@nil byte)) with 0 in Hfit. apply IH; auto; lia.
Qed.

Lemma len_firstn {A} (n : Z) (l : list A) :
  0 <= n <= len l -> len (firstn (Z.to_nat n) l) = n.
Proof. unfold len. intros H. rewrite length_firstn. lia. Qed.

(** Chunks that do not fit are written as far as they fit, and the
    write that goes too far is reported. *)
Lemma copy_overflow cs final :
  forall written tw,
    tar.err tw = None -> tar.quota (tar.w tw) = None ->
    0 <= tar.nb tw < len (concat cs) ->
    exists tw',
      io.copy cs final written tw = (tw', (written + tar.nb tw, Some ErrWriteTooLong)) /\
      tar.entries tw'
      = tar.add_data (firstn (Z.to_nat (tar.nb tw)) (concat cs)) (tar.entries tw) /\
      tar.nb tw' = 0 /\ tar.err tw' = None /\ tar.quota (tar.w tw') = None.
Proof.
  induction cs as [| c cs IH]; intros written tw He Hq Hnb; simpl.
  - simpl in Hnb. unfold len in Hnb. simpl in Hnb. lia.
  - simpl in Hnb. rewrite len_app in Hnb.
    pose proof (len_nonneg c). pose proof (len_nonneg (concat cs)).
    destruct (0 <? len c) eqn:Hc.
    + unfold tar.Write. rewrite He.
      destruct (tar.nb tw <? len c) eqn:Hov.
      * assert (Hcut : firstn (Z.to_nat (tar.nb tw)) (c ++ concat cs)
                       = firstn (Z.to_nat (tar.nb tw)) c).
        { rewrite firstn_app.
          replace (Z.to_nat (tar.nb tw) - length c)%nat with O by (unfold len in *; lia).
          simpl. now rewrite app_nil_r. }
        rewrite Hcut.
        assert (Hlen : len (firstn (Z.to_nat (tar.nb tw)) c) = tar.nb tw)
          by (apply len_firstn; lia).
        rewrite Hlen. destruct (0 <? tar.nb tw) eqn:Hpos.
        -- rewrite (dest_write_ready _ Hq). eexists. split; [reflexivity |].
           simpl. repeat split; auto; lia.
        -- exists tw. assert (tar.nb tw = 0) as Hz by lia. rewrite Hz. simpl.
           rewrite add_data_nil. repeat split; auto.
      * rewrite Hc, (dest_write_ready _ Hq), Z.eqb_refl.
        match goal with
        | |- context [io.copy cs final ?wr ?t] =>
            destruct (IH wr t) as (tw' & Hrun & Hent & Hnb' & He' & Hq');
              [reflexivity | assumption | simpl; lia |]
        end.
        exists tw'. rewrite Hrun. simpl in *. rewrite Hent, add_data_app.
        assert (Hcut : firstn (Z.to_nat (tar.nb tw)) (c ++ concat cs)
                       = c ++ firstn (Z.to_nat (tar.nb tw - len c)) (concat cs)).
        { rewrite firstn_app, firstn_all2 by (unfold len in *; lia).
          do 2 f_equal. unfold len in *. lia. }
        rewrite Hcut. repeat split; auto. do 2 f_equal. lia.
    + assert (c = []) as -> by (apply len_zero; lia). simpl.
      change (len (@nil byte)) with 0 in Hnb. apply IH; auto; lia.
Qed.

Lemma WriteHeader_file (path : string) (n : Z) (tw : tar.Writer) :
  ready tw -> tar.allowedFormats (file_header path n) = None ->
  exists t, tar.WriteHeader (file_header path n) tw = (t, None) /\
            tar.entries t = tar.entries tw ++ [{| tar.hdr := file_header path n; tar.data := [] |}] /\
            tar.nb t = n /\ tar.err t = None /\ tar.quota (tar.w t) = None.
Proof.
  intros Hr Hh. destruct (WriteHeader_ready _ _ Hr Hh) as (t & Ht & Hq).
  exists t. split; [exact Ht |].
  apply WriteHeader_ok in Ht as (Hent & Hnb & He & _ & _). auto.
Qed.

Lemma missed_writing (tw : tar.Writer) :
  tar.err tw = None -> 0 < tar.nb tw ->
  (forall h, tar.WriteHeader h tw = (tw, Some (ErrMissedWriting (tar.nb tw)))) /\
  snd (tar.Close tw) = Some (ErrMissedWriting (tar.nb tw)).
Proof.
  intros He Hn. apply Z.ltb_lt in Hn. split.
  - intros h. unfold tar.WriteHeader, tar.Flush. now rewrite He, Hn.
  - unfold tar.Close, tar.Flush. now rewrite He, Hn.
Qed.

(** X16. On a writer that is ready, for a header that [archive/tar] can
    encode (a path without NUL that does not end with a slash), a stream
    that ends before [expectedSize] bytes: [sendFile] reports the size
    mismatch with the number of bytes it copied. The entry, whose
    header declares [expectedSize] bytes, is left short, so that no entry
    can follow it and [Close] fails: the tar writer reports the bytes that
    were not written. *)
Theorem short_stream_leaves_entry_short (path : string) (expectedSize : Z)
        (stream : io.Reader) (w : Writer) :
  ready (tar w) ->
  tar.allowedFormats (file_header path expectedSize) = None ->
  io.rerr stream = None ->
  len (io.content stream) < expectedSize ->
  let missed := ErrMissedWriting (expectedSize - len (io.content stream)) in
  exists w',
    sendFile path expectedSize stream w
    = (w', Some (ErrSizeMismatch path expectedSize (len (io.content stream)))) /\
    archive w' = archive w ++ [{| tar.hdr := file_header path expectedSize;
                                  tar.data := io.content stream |}] /\
    (forall p t, sendSymlink p t w' = (w', Some missed)) /\
    (forall p n s, sendFile p n s w' = (w', Some missed)) /\
    snd (Close w') = Some missed.
Proof.
  intros Hr Hh Hrerr Hshort missed.
  assert (exists t',
             sendFile path expectedSize stream w
             = (set_tar w t',
                Some (ErrSizeMismatch path expectedSize (len (io.content stream)))) /\
             tar.entries t'
             = tar.entries (tar w) ++ [{| tar.hdr := file_header path expectedSize;
                                          tar.data := io.content stream |}] /\
             tar.nb t' = expectedSize - len (io.content stream) /\
             tar.err t' = None) as (t' & Hrun & Hent & Hnb & He).
  { unfold sendFile. rewrite FileInfoHeader_file.
    destruct (WriteHeader_file path expectedSize (tar w) Hr Hh)
      as (t & -> & Hent & Hnb & He & Hq).
    unfold io.Copy, io.content in *.
    destruct (copy_fits (io.chunks stream) (io.rerr stream) 0 t He Hq)
      as (t' & -> & Hent' & Hnb' & He' & Hq'); [lia |].
    rewrite Hrerr, Z.add_0_l.
    destruct (len (concat (io.chunks stream)) =? expectedSize) eqn:Heq; [lia |]. simpl.
    exists t'. rewrite Hent', Hent, add_data_snoc, Hnb', Hnb. auto. }
  exists (set_tar w t'). split; [exact Hrun |].
  destruct (missed_writing t' He) as (Hw & Hc); [lia |].
  rewrite Hnb in Hw, Hc. fold missed in Hw, Hc.
  split; [exact Hent | split; [| split]].
  - intros p tg. unfold sendSymlink. rewrite FileInfoHeader_symlink.
    cbn [tar set_tar]. now rewrite Hw.
  - intros p n s. unfold sendFile. rewrite FileInfoHeader_file.
    cbn [tar set_tar]. now rewrite Hw.
  - unfold Close. cbn [tar set_tar]. destruct (tar.Close t'). exact Hc.
Qed.

(** A stream of two bytes declared as five. *)
Lemma short_stream_leaves_entry_short_witness :
  exists w',
    sendFile "blob.tar" 5 (io.NewReader (bytes_of_string "ab")) (NewWriter {| tar.quota := None |})
    = (w', Some (ErrSizeMismatch "blob.tar" 5 2)) /\
    archive w' = [{| tar.hdr := file_header "blob.tar" 5; tar.data := bytes_of_string "ab" |}] /\
    snd (Close w') = Some (ErrMissedWriting 3).
Proof.
  destruct (short_stream_leaves_entry_short "blob.tar" 5 (io.NewReader (bytes_of_string "ab"))
              (NewWriter {| tar.quota := None |}))
    as (w' & H1 & H2 & _ & _ & H5);
    [repeat split | reflexivity | reflexivity | reflexivity |].
  exists w'. repeat split; [exact H1 | exact H2 | exact H5].
Defined.

(** X17. On a writer that is ready, for a header that [archive/tar] can
    encode (a path without NUL that does not end with a slash, a size
    that is not negative), a stream with more than [expectedSize] bytes:
    [sendFile] reports the write that went too far, not a size mismatch.
    The entry holds
    the first [expectedSize] bytes of the stream and is complete, and
    the writer can take further entries. *)
Theorem long_stream_is_cut (path : string) (expectedSize : Z)
        (stream : io.Reader) (w : Writer) :
  ready (tar w) ->
  tar.allowedFormats (file_header path expectedSize) = None ->
  expectedSize < len (io.content stream) ->
  exists w',
    sendFile path expectedSize stream w = (w', Some ErrWriteTooLong) /\
    archive w' = archive w ++ [{| tar.hdr := file_header path expectedSize;
                                  tar.data := firstn (Z.to_nat expectedSize)
                                                     (io.content stream) |}] /\
    ready (tar w').
Proof.
  intros Hr Hh Hlong. unfold sendFile. rewrite FileInfoHeader_file.
  pose proof (allowed_size _ _ Hh) as Hpos.
  destruct (WriteHeader_file path expectedSize (tar w) Hr Hh)
    as (t & -> & Hent & Hnb & He & Hq).
  unfold io.Copy, io.content in *.
  destruct (copy_overflow (io.chunks stream) (io.rerr stream) 0 t He Hq)
    as (t' & -> & Hent' & Hnb' & He' & Hq'); [lia |].
  eexists. split; [reflexivity |]. split.
  - unfold archive. simpl. rewrite Hent', Hent, Hnb, add_data_snoc. reflexivity.
  - repeat split; assumption.
Qed.

(** A stream of four bytes, in two chunks, declared as three. *)
Lemma long_stream_is_cut_witness :
  let stream := {| io.chunks := [bytes_of_string "ab"; bytes_of_string "cd"];
                   io.rerr := None |} in
  exists w',
    sendFile "blob.tar" 3 stream (NewWriter {| tar.quota := None |})
    = (w', Some ErrWriteTooLong) /\
    archive w' = [{| tar.hdr := file_header "blob.tar" 3; tar.data := bytes_of_string "abc" |}] /\
    ready (tar w').
Proof.
  intros stream.
  apply (long_stream_is_cut "blob.tar" 3 stream (NewWriter {| tar.quota := None |}));
    [repeat split | reflexivity | reflexivity].
Defined.

(** X18. On a writer that is ready, for a header that [archive/tar] can
    encode (a path without NUL that does not end with a slash, a size
    that is not negative), a read error of the stream, after bytes that
    fit in the entry, is what [sendFile] returns, without a message of
    its own; the bytes read before it are in the archive. *)
Theorem read_error_is_returned (path : string) (expectedSize : Z)
        (stream : io.Reader) (w : Writer) (e : error) :
  ready (tar w) ->
  tar.allowedFormats (file_header path expectedSize) = None ->
  io.rerr stream = Some e ->
  len (io.content stream) <= expectedSize ->
  exists w',
    sendFile path expectedSize stream w = (w', Some e) /\
    archive w' = archive w ++ [{| tar.hdr := file_header path expectedSize;
                                  tar.data := io.content stream |}].
Proof.
  intros Hr Hh Hrerr Hfit. unfold sendFile. rewrite FileInfoHeader_file.
  destruct (WriteHeader_file path expectedSize (tar w) Hr Hh)
    as (t & -> & Hent & Hnb & He & Hq).
  unfold io.Copy, io.content in *.
  destruct (copy_fits (io.chunks stream) (io.rerr stream) 0 t He Hq)
    as (t' & -> & Hent' & Hnb' & He' & Hq'); [lia |].
  rewrite Hrerr. eexists. split; [reflexivity |].
  unfold archive. simpl. rewrite Hent', Hent, add_data_snoc. reflexivity.
Qed.

(** A stream that fails after two bytes. *)
Lemma read_error_is_returned_witness :
  let stream := {| io.chunks := [bytes_of_string "ab"];
                   io.rerr := Some (ErrRead "unexpected EOF") |} in
  exists w',
    sendFile "blob.tar" 2 stream (NewWriter {| tar.quota := None |})
    = (w', Some (ErrRead "unexpected EOF")) /\
    archive w' = [{| tar.hdr := file_header "blob.tar" 2; tar.data := bytes_of_string "ab" |}].
Proof.
  intros stream.
  apply (read_error_is_returned "blob.tar" 2 stream (NewWriter {| tar.quota := None |}));
    [repeat split | reflexivity | reflexivity | vm_compute; discriminate].
Defined.

(** ** The ways in which the legacy metadata is not written *)

(** What a turn of the loop does on a writer that is ready, for a layer
    with a well-formed digest: the symbolic link and the [VERSION] file
    are written, and the turn goes on with the configuration. *)
Lemma layer_prefix n configBytes i l v w :
  ready (tar w) ->
  wellformed (manifest.Digest l) ->
  exists id h w2,
    digest.Hex (next_chainID (chainID v) (manifest.Digest l)) = Ret id /\ hexstring id /\
    digest.Hex (manifest.Digest l) = Ret h /\ hexstring h /\
    ready (tar w2) /\
    archive w2 = archive w ++ [symlink_entry (id +:+ "/layer.tar") ("../" +:+ h +:+ ".tar");
                               file_entry (id +:+ "/VERSION") (bytes_of_string "1.0")] /\
    (forall b, exists w3, sendBytes (id +:+ "/json") b w2 = (w3, None) /\
                          archive w3 = archive w2 ++ [file_entry (id +:+ "/json") b] /\
                          ready (tar w3)) /\
    layer n configBytes i l v w
    = bind (if i =? n - 1
            then bind (checked (json.Unmarshal configBytes) (failed "Error unmarshaling config"))
                      (fun config => pure (top_config config (base_config id (lastLayerID v))))
            else pure (base_config id (lastLayerID v)))
           (fun layerConfig =>
              bind (checked (json.Marshal (json.of_map of_iface layerConfig))
                            (failed "Error marshaling layer config"))
                   (fun b =>
                      bind (check (sendBytes (id +:+ "/json") b)
                                  (failed "Error writing config json file"))
                           (fun _ =>
                              pure {| chainID := next_chainID (chainID v) (manifest.Digest l);
                                      lastLayerID := id;
                                      layerPaths := append (layerPaths v) (h +:+ ".tar") |})))
           w2.
Proof.
  intros Hr (h & Hh & Hhex).
  destruct (next_chainID_hex (chainID v) (manifest.Digest l)) as (id & Hid & Hidhex);
    [exists h; auto |].
  destruct (Join_layer_paths id h Hidhex Hhex) as (J1 & J2 & J3 & J4).
  pose proof (hasNUL_hex id Hidhex) as Nid. pose proof (hasNUL_hex h Hhex) as Nh.
  destruct (sendSymlink_ready (id +:+ "/layer.tar") ("../" +:+ h +:+ ".tar") w Hr)
    as (w1 & H1 & Hr1).
  { apply symlink_header_ok; rewrite !hasNUL_app, ?Nid, ?Nh; reflexivity. }
  destruct (sendBytes_ready (id +:+ "/VERSION") (bytes_of_string "1.0") w1 Hr1)
    as (w2 & H2 & Hr2).
  { apply file_header_ok; [rewrite hasNUL_app, Nid; reflexivity |].
    now rewrite hasSuffixSlash_app. }
  exists id, h, w2. do 5 (split; [assumption |]). split; [| split].
  - pose proof (sendSymlink_ok _ _ _ _ H1) as (A1 & _).
    pose proof (sendBytes_ok _ _ _ _ H2) as (A2 & _).
    rewrite A2, A1, <- app_assoc. reflexivity.
  - intros b.
    destruct (sendBytes_ready (id +:+ "/json") b w2 Hr2) as (w3 & H3 & Hr3).
    { apply file_header_ok; [rewrite hasNUL_app, Nid; reflexivity |].
      now rewrite hasSuffixSlash_app. }
    exists w3. pose proof (sendBytes_ok _ _ _ _ H3) as (A3 & _). auto.
  - unfold layer. fold (next_chainID (chainID v) (manifest.Digest l)).
    unfold physicalLayerPath, mbind, body_bind, bind, call, check, checked, pure.
    rewrite Hid, Hh. cbv beta iota zeta. rewrite J1, J2, J3, J4, H1, H2.
    fold (base_config id (lastLayerID v)).
    destruct (i =? n - 1); [| reflexivity].
    destruct (json.Unmarshal configBytes); reflexivity.
Qed.

(** A turn of the loop for a layer that is not the last one. *)
Lemma layer_inner n configBytes i l v w :
  ready (tar w) ->
  wellformed (manifest.Digest l) ->
  (i =? n - 1) = false ->
  exists w' v1 o,
    layer n configBytes i l v w = (w', Next v1) /\ ready (tar w') /\
    archive w' = archive w ++ layer_entries o.
Proof.
  intros Hr Hl Hi.
  destruct (layer_prefix n configBytes i l v w Hr Hl)
    as (id & h & w2 & _ & _ & _ & _ & _ & _ & H3 & Hrun).
  rewrite Hi in Hrun. unfold bind, pure, checked, check in Hrun.
  destruct (Marshal_base_config id (lastLayerID v)) as (b & Hb). rewrite Hb in Hrun.
  destruct (H3 b) as (w3 & Hs & _ & Hr3). rewrite Hs in Hrun.
  pose proof (layer_ok _ _ _ _ _ _ _ _ Hrun) as (o & _ & Ha & _).
  eauto 10.
Qed.

Lemma layers_from_inner n configBytes ls :
  Forall (fun l => wellformed (manifest.Digest l)) ls ->
  forall i v w,
    ready (tar w) -> i + len ls < n ->
    exists w' v' outs,
      layers_from n configBytes i ls v w = (w', Next v') /\ ready (tar w') /\
      length outs = length ls /\
      archive w' = archive w ++ flat_map layer_entries outs.
Proof.
  induction 1 as [| l ls Hl _ IH]; intros i v w Hr Hi; simpl.
  - exists w, v, []. simpl. rewrite app_nil_r. auto.
  - unfold len in Hi. simpl length in Hi. unfold mbind, body_bind, bind.
    destruct (layer_inner n configBytes i l v w Hr Hl) as (w1 & v1 & o & -> & Hr1 & Ha1);
      [lia |].
    destruct (IH (i + 1) v1 w1 Hr1) as (w' & v' & outs & Hrun & Hr' & Hlen & Ha');
      [unfold len; lia |].
    exists w', v', (o :: outs). simpl.
    rewrite Hrun, Ha', Ha1, Hlen, <- app_assoc. auto.
Qed.

Lemma layers_from_app n configBytes ls1 ls2 :
  forall i v w,
    layers_from n configBytes i (ls1 ++ ls2) v w
    = match layers_from n configBytes i ls1 v w with
      | (w', Next v') => layers_from n configBytes (i + len ls1) ls2 v' w'
      | other => other
      end.
Proof.
  induction ls1 as [| l ls1 IH]; intros i v w; simpl.
  - unfold pure, len. simpl. now rewrite Z.add_0_r.
  - unfold mbind, body_bind, bind.
    destruct (layer n configBytes i l v w) as [w1 [v1 | r | p]]; [| reflexivity ..].
    rewrite IH. replace (i + 1 + len ls1) with (i + len (l :: ls1)); [reflexivity |].
    unfold len. simpl length. lia.
Qed.

(** X3. The configuration of the image is parsed only in the turn of the
    last layer. When it is no JSON object, [writeLegacyLayerMetadata]
    returns the error of [json.Unmarshal], with no path and no ID, but
    the entries of all the layers before the last one, and the symbolic
    link and the [VERSION] file of the last one, are in the archive by
    then. *)
Theorem bad_config_is_found_late (layers : list manifest.Schema2Descriptor)
        (l : manifest.Schema2Descriptor) (configBytes : list byte) (e : error) (w : Writer) :
  ready (tar w) ->
  Forall (fun l => wellformed (manifest.Digest l)) (layers ++ [l]) ->
  json.Unmarshal configBytes = inl e ->
  exists w' outs id h,
    writeLegacyLayerMetadata (layers ++ [l]) configBytes w
    = (w', Ret (Nil, "", Some (Wrap e "Error unmarshaling config"))) /\
    length outs = length layers /\
    digest.Hex (manifest.Digest l) = Ret h /\
    archive w'
    = archive w ++ flat_map layer_entries outs
      ++ [symlink_entry (id +:+ "/layer.tar") ("../" +:+ h +:+ ".tar");
          file_entry (id +:+ "/VERSION") (bytes_of_string "1.0")].
Proof.
  intros Hr (Hwf & Hl)%Forall_app Hu. apply Forall_inv in Hl.
  unfold writeLegacyLayerMetadata. rewrite layers_from_app.
  set (n := len (layers ++ [l])).
  assert (Hn : n = len layers + 1) by (unfold n, len; rewrite length_app; simpl; lia).
  destruct (layers_from_inner n configBytes layers Hwf 0
              {| chainID := ""; lastLayerID := ""; layerPaths := Nil |} w Hr)
    as (w1 & v1 & outs & -> & Hr1 & Hlen & Ha1); [lia |].
  cbn [layers_from]. unfold mbind, body_bind.
  destruct (layer_prefix n configBytes (0 + len layers) l v1 w1 Hr1 Hl)
    as (id & h & w2 & _ & _ & Hh & _ & _ & Ha2 & _ & Hrun).
  unfold bind at 1. rewrite Hrun.
  replace (0 + len layers =? n - 1) with true by (symmetry; apply Z.eqb_eq; lia).
  rewrite Hu. unfold bind, checked, failed.
  exists w2, outs, id, h. rewrite Ha2, Ha1, <- app_assoc. auto.
Qed.

(** Two layers and a configuration that breaks off. *)
Lemma bad_config_is_found_late_witness :
  let l0 := {| manifest.MediaType := ""; manifest.Size := 1; manifest.Digest := "sha256:ab" |} in
  let l1 := {| manifest.MediaType := ""; manifest.Size := 2; manifest.Digest := "sha256:cd" |} in
  exists w' outs id h,
    writeLegacyLayerMetadata ([l0] ++ [l1]) (bytes_of_string "{") (NewWriter {| tar.quota := None |})
    = (w', Ret (Nil, "", Some (Wrap ErrJSONSyntax "Error unmarshaling config"))) /\
    length outs = 1%nat /\
    digest.Hex "sha256:cd" = Ret h /\
    archive w'
    = flat_map layer_entries outs
      ++ [symlink_entry (id +:+ "/layer.tar") ("../" +:+ h +:+ ".tar");
          file_entry (id +:+ "/VERSION") (bytes_of_string "1.0")].
Proof.
  intros l0 l1.
  apply (bad_config_is_found_late [l0] l1 (bytes_of_string "{") ErrJSONSyntax
           (NewWriter {| tar.quota := None |})).
  - repeat split.
  - repeat constructor; [exists "ab" | exists "cd"]; repeat split; discriminate.
  - reflexivity.
Defined.

(** A turn of the loop for a layer whose digest has no [:] panics before
    it writes anything: in [chainID.Hex()] for the first layer, in
    [physicalLayerPath] for a later one. *)
Lemma layer_panics n configBytes i l v w :
  digest.sepIndex (manifest.Digest l) = None ->
  layer n configBytes i l v w = (w, Panics (NoSeparatorInDigest (manifest.Digest l))).
Proof.
  intros Hsep. unfold layer, physicalLayerPath, mbind, body_bind, bind, call.
  destruct (String.eqb (chainID v) "").
  - unfold digest.Hex. now rewrite Hsep.
  - destruct (Hex_FromString (digest.String (chainID v) +:+ " "
                              +:+ digest.String (manifest.Digest l))) as (-> & _).
    unfold digest.Hex at 1. now rewrite Hsep.
Qed.

(** X4. A digest without [:] makes the writer panic, where the code takes
    the hex part of the digest: [writeLegacyLayerMetadata] panics at the
    first layer with such a digest, after it wrote the entries of the
    layers before it, whatever follows and whatever the configuration
    is; [createManifest] panics for such a config digest before it
    writes anything. *)
Theorem digest_without_separator_panics :
  (forall (good : list manifest.Schema2Descriptor) (bad : manifest.Schema2Descriptor)
          (rest : list manifest.Schema2Descriptor) (configBytes : list byte) (w : Writer),
      digest.sepIndex (manifest.Digest bad) = None ->
      ready (tar w) ->
      Forall (fun l => wellformed (manifest.Digest l)) good ->
      exists w' outs,
        writeLegacyLayerMetadata (good ++ bad :: rest) configBytes w
        = (w', Panic (NoSeparatorInDigest (manifest.Digest bad))) /\
        length outs = length good /\
        archive w' = archive w ++ flat_map layer_entries outs) /\
  (forall (configDigest : string) (layerPaths : slice string)
          (repoTags : list reference.NamedTagged) (w : Writer),
      digest.sepIndex configDigest = None ->
      createManifest configDigest layerPaths repoTags w
      = (w, Panic (NoSeparatorInDigest configDigest))).
Proof.
  split.
  - intros good bad rest configBytes w Hsep Hr Hwf.
    unfold writeLegacyLayerMetadata. rewrite layers_from_app.
    set (n := len (good ++ bad :: rest)).
    assert (Hn : len good < n).
    { unfold n, len. rewrite length_app. simpl. lia. }
    destruct (layers_from_inner n configBytes good Hwf 0
                {| chainID := ""; lastLayerID := ""; layerPaths := Nil |} w Hr)
      as (w1 & v1 & outs & -> & Hr1 & Hlen & Ha1); [lia |].
    cbn [layers_from]. unfold mbind, body_bind, bind at 1.
    rewrite (layer_panics _ _ _ _ _ _ Hsep). eauto.
  - intros configDigest layerPaths repoTags w Hsep.
    unfold createManifest, configPath, digest.Hex. now rewrite Hsep.
Qed.

(** A layer, then a layer whose digest has no separator; and such a
    config digest. *)
Lemma digest_without_separator_panics_witness :
  let l0 := {| manifest.MediaType := ""; manifest.Size := 1; manifest.Digest := "sha256:ab" |} in
  let l1 := {| manifest.MediaType := ""; manifest.Size := 2; manifest.Digest := "abcd" |} in
  let w := NewWriter {| tar.quota := None |} in
  (exists w' outs,
      writeLegacyLayerMetadata ([l0] ++ l1 :: [l0]) [] w = (w', Panic (NoSeparatorInDigest "abcd")) /\
      length outs = 1%nat /\
      archive w' = flat_map layer_entries outs) /\
  createManifest "abcd" Nil [] w = (w, Panic (NoSeparatorInDigest "abcd")).
Proof.
  intros l0 l1 w. destruct digest_without_separator_panics as (H1 & H2). split.
  - apply (H1 [l0] l1 [l0] [] w); [reflexivity | repeat split |].
    repeat constructor. exists "ab". repeat split. discriminate.
  - apply H2. reflexivity.
Defined.

(** The messages under which [writeLegacyLayerMetadata] returns an
    error. *)
Lemma layer_return_cause n configBytes i l v w w' r :
  layer n configBytes i l v w = (w', Return r) ->
  exists cause msg,
    r = failed msg cause /\
    In msg ["Error creating layer symbolic link"; "Error writing VERSION file";
            "Error unmarshaling config"; "Error writing config json file"].
Proof.
  unfold layer. unfold_body.
  destruct (digest.Hex _) as [id |]; [| intros [=]].
  destruct (physicalLayerPath _); [| intros [=]].
  destruct (sendSymlink _ _ w) as [w1 [e |]]; [intros [= <- <-]; eauto 10 |].
  destruct (sendBytes _ _ w1) as [w2 [e |]]; [intros [= <- <-]; eauto 10 |].
  fold (base_config id (lastLayerID v)).
  destruct (i =? n - 1).
  - destruct (json.Unmarshal configBytes) as [e | config] eqn:Hu;
      [intros [= <- <-]; eauto 10 |].
    destruct (Marshal_top_config config id (lastLayerID v) (Unmarshal_raw_valid _ _ Hu))
      as (b & Hb).
    unfold top_config, attrs in Hb. cbn [fold_left] in Hb. rewrite Hb.
    destruct (sendBytes _ b w2) as [w3 [e |]]; intros H; simplify_eq; eauto 10.
  - destruct (Marshal_base_config id (lastLayerID v)) as (b & ->).
    destruct (sendBytes _ b w2) as [w3 [e |]]; intros H; simplify_eq; eauto 10.
Qed.

Lemma layers_from_return_cause n configBytes ls :
  forall i v w w' r,
    layers_from n configBytes i ls v w = (w', Return r) ->
    exists cause msg,
      r = failed msg cause /\
      In msg ["Error creating layer symbolic link"; "Error writing VERSION file";
              "Error unmarshaling config"; "Error writing config json file"].
Proof.
  induction ls as [| l ls IH]; intros i v w w' r; simpl.
  - intros [=].
  - unfold mbind, body_bind, bind.
    destruct (layer n configBytes i l v w) as [w1 [v1 | r1 | p]] eqn:Hl.
    + apply IH.
    + intros H. simplify_eq. eapply layer_return_cause, Hl.
    + intros [=].
Qed.

(** X2. When [writeLegacyLayerMetadata] returns an error, it returns no
    path and no ID with it, and the error wraps its cause under the
    message of the step that failed: the symbolic link, the [VERSION]
    file, the parsing of the configuration or the [json] file. It never
    fails to marshal the configuration of a layer, since the raw
    messages that [json.Unmarshal] stored are JSON values. *)
Theorem error_comes_with_no_result (layers : list manifest.Schema2Descriptor)
        (configBytes : list byte) (w w' : Writer) (paths : slice string)
        (lastID : string) (err : error) :
  writeLegacyLayerMetadata layers configBytes w = (w', Ret (paths, lastID, Some err)) ->
  paths = Nil /\ lastID = "" /\
  exists cause msg,
    err = Wrap cause msg /\
    In msg ["Error creating layer symbolic link"; "Error writing VERSION file";
            "Error unmarshaling config"; "Error writing config json file"].
Proof.
  unfold writeLegacyLayerMetadata.
  destruct (layers_from _ _ _ _ _ w) as [w1 [v1 | r | p]] eqn:Hrun; intros [= <- H];
    try discriminate.
  apply layers_from_return_cause in Hrun as (cause & msg & -> & Hmsg).
  unfold failed in H. injection H as <- <- <-. eauto 10.
Qed.

(** A layer and a configuration that is an array. *)
Lemma error_comes_with_no_result_witness :
  let l0 := {| manifest.MediaType := ""; manifest.Size := 1; manifest.Digest := "sha256:ab" |} in
  let r := writeLegacyLayerMetadata [l0] (bytes_of_string "[]")
                                    (NewWriter {| tar.quota := None |}) in
  snd r = Ret (Nil, "", Some (Wrap (ErrJSONType "array") "Error unmarshaling config")) /\
  exists cause msg,
    Wrap (ErrJSONType "array") "Error unmarshaling config" = Wrap cause msg /\
    In msg ["Error creating layer symbolic link"; "Error writing VERSION file";
            "Error unmarshaling config"; "Error writing config json file"].
Proof.
  intros l0 r. split; [reflexivity |].
  apply (error_comes_with_no_result [l0] (bytes_of_string "[]")
           (NewWriter {| tar.quota := None |}) (fst r) Nil ""
           (Wrap (ErrJSONType "array") "Error unmarshaling config")).
  reflexivity.
Defined.

(** ** Where the symbolic link of a layer leads *)

Lemma not_rooted (a rest : string) :
  segment a ->
  match a +:+ rest with
  | String.String "/" _ => true
  | _ => false
  end = false.
Proof.
  intros (Hs & Hne & _). destruct a as [| c a]; [contradiction |]. simpl in *.
  apply andb_prop in Hs as (Hc & _). apply negb_true_iff in Hc.
  destruct (Ascii.eqb_spec c "/"%char); [discriminate |].
  destruct c as [[] [] [] [] [] [] [] []]; try reflexivity. contradiction.
Qed.

(** A directory, [..] and a path element: [Clean] goes back out of the
    directory. *)
Lemma Clean_up (a b : string) :
  segment a -> segment b -> filepath.Clean (a +:+ "/" +:+ "../" +:+ b) = b.
Proof.
  intros Ha Hb. unfold filepath.Clean. rewrite (not_rooted a _ Ha).
  rewrite chars_app. change (chars ("/" +:+ "../" +:+ b)) with ("/"%char :: chars ("../" +:+ b)).
  rewrite split_slash by apply Ha.
  change (chars ("../" +:+ b)) with (chars ".." ++ "/"%char :: chars b).
  rewrite split_slash by reflexivity.
  rewrite split_segment by apply Hb. cbn [rev app map fold_left].
  rewrite !unchars_chars.
  rewrite (component_segment false [] a Ha).
  change (unchars (chars "..")) with "..".
  assert (filepath.component false [a] ".." = []) as ->.
  { unfold filepath.component. cbn [String.eqb Ascii.eqb Bool.eqb orb].
    destruct Ha as (_ & _ & _ & Hdd). apply String.eqb_neq in Hdd. now rewrite Hdd. }
  rewrite (component_segment false [] b Hb). reflexivity.
Qed.

(** X6. The symbolic link of a layer lies in the directory named by the
    legacy ID of the layer, and its target, followed from that
    directory, is the path of the blob of the layer at the root of the
    archive. *)
Theorem layer_link_leads_to_blob (layerID layerDigest : string) :
  hexstring layerID ->
  wellformed layerDigest ->
  exists physicalLayerPath',
    physicalLayerPath layerDigest = Ret physicalLayerPath' /\
    filepath.Join [layerID; legacyLayerFileName] = layerID +:+ "/layer.tar" /\
    filepath.Join [layerID; filepath.Join [".."; physicalLayerPath']] = physicalLayerPath'.
Proof.
  intros Hid (h & Hh & Hhex). exists (h +:+ ".tar"). unfold physicalLayerPath. rewrite Hh.
  destruct (Join_layer_paths layerID h Hid Hhex) as (J1 & _ & _ & J4).
  split; [reflexivity |]. split; [exact J1 |]. rewrite J4.
  assert (segment layerID) as Hs by (rewrite <- (append_empty layerID); now apply segment_hex).
  assert (segment (h +:+ ".tar")) as Hp by now apply segment_hex.
  unfold filepath.Join. destruct Hs as (Hs1 & Hne & Hs3).
  apply String.eqb_neq in Hne as Hne'. rewrite Hne'.
  change (filepath.concat_sep [layerID; "../" +:+ h +:+ ".tar"])
    with (layerID +:+ "/" +:+ "../" +:+ (h +:+ ".tar")).
  now apply Clean_up.
Qed.

(** The layer [sha256:ab] in the directory [cd]. *)
Lemma layer_link_leads_to_blob_witness :
  exists p,
    physicalLayerPath "sha256:ab" = Ret p /\
    filepath.Join ["cd"; legacyLayerFileName] = "cd/layer.tar" /\
    filepath.Join ["cd"; filepath.Join [".."; p]] = p.
Proof.
  apply (layer_link_leads_to_blob "cd" "sha256:ab").
  - split; [discriminate | reflexivity].
  - exists "ab". repeat split. discriminate.
Defined.

(** ** What a return value of the top-level files says *)

(** X14. [createRepositoriesFile] and [createManifest] never fail to marshal
    what they built: an error they return is the error of writing the
    file to the tar writer, for [createRepositoriesFile] under the
    message of the [json] file of a layer. *)
Theorem top_level_errors_are_write_errors :
  (forall (rootLayerID : string) (repoTags : list reference.NamedTagged)
          (w w' : Writer) (err : error),
      createRepositoriesFile rootLayerID repoTags w = (w', Some err) ->
      exists b cause,
        json.Marshal (json.of_map (json.of_map json.Str)
                                  (repositories_of rootLayerID repoTags)) = inr b /\
        sendBytes legacyRepositoriesFileName b w = (w', Some cause) /\
        err = Wrap cause "Error writing config json file") /\
  (forall (configDigest : string) (layerPaths : slice string)
          (repoTags : list reference.NamedTagged) (w w' : Writer) (err : error),
      createManifest configDigest layerPaths repoTags w = (w', Ret (Some err)) ->
      exists h b,
        digest.Hex configDigest = Ret h /\
        json.Marshal
          (json.Arr [of_ManifestItem (manifest_item (h +:+ ".json") layerPaths repoTags)])
        = inr b /\
        sendBytes manifestFileName b w = (w', Some err)).
Proof.
  split.
  - intros rootLayerID repoTags w w' err.
    destruct (createRepositoriesFile_run rootLayerID repoTags w) as (b & Hb & ->).
    destruct (sendBytes _ b w) as [w1 [e |]] eqn:Hs; intros [= <- <-]. eauto.
  - intros configDigest layerPaths repoTags w w' err H.
    destruct (digest.Hex configDigest) as [h |] eqn:Hh.
    + destruct (createManifest_run configDigest h layerPaths repoTags w Hh) as (b & Hb & Hrun).
      rewrite Hrun in H. exists h, b. split; [reflexivity |]. split; [exact Hb |].
      destruct (sendBytes _ b w). simpl in H. congruence.
    + unfold createManifest, configPath in H. rewrite Hh in H. discriminate H.
Qed.

(** A writer whose destination has refused a write. *)
Lemma top_level_errors_are_write_errors_witness :
  let w := {| tar := tar.fail (tar.NewWriter {| tar.quota := Some O |}) ErrDestination;
              blobs := ∅ |} in
  (exists b cause,
      json.Marshal (json.of_map (json.of_map json.Str) (repositories_of "ab" [])) = inr b /\
      sendBytes legacyRepositoriesFileName b w = (w, Some cause) /\
      Wrap ErrDestination "Error writing config json file"
      = Wrap cause "Error writing config json file") /\
  (exists h b,
      digest.Hex "sha256:ab" = Ret h /\
      json.Marshal (json.Arr [of_ManifestItem (manifest_item (h +:+ ".json") Nil [])]) = inr b /\
      sendBytes manifestFileName b w = (w, Some ErrDestination)).
Proof.
  intros w. destruct top_level_errors_are_write_errors as (H1 & H2). split.
  - apply (H1 "ab" [] w w). reflexivity.
  - apply (H2 "sha256:ab" Nil [] w w). reflexivity.
Defined.

(** X15. A [nil] error means that the entry is in the archive, on any
    writer: a symbolic link with its target for [sendSymlink], a file
    with all its bytes for [sendBytes], the marshalled map for
    [createRepositoriesFile] and the marshalled one-item list for
    [createManifest]. Nothing else is added and no recorded blob
    changes. *)
Theorem nil_means_written :
  (forall (path target : string) (w w' : Writer),
      sendSymlink path target w = (w', None) ->
      archive w' = archive w ++ [symlink_entry path target] /\ blobs w' = blobs w) /\
  (forall (path : string) (b : list byte) (w w' : Writer),
      sendBytes path b w = (w', None) ->
      archive w' = archive w ++ [file_entry path b] /\ blobs w' = blobs w) /\
  (forall (rootLayerID : string) (repoTags : list reference.NamedTagged) (w w' : Writer),
      createRepositoriesFile rootLayerID repoTags w = (w', None) ->
      exists b,
        json.Marshal (json.of_map (json.of_map json.Str)
                                  (repositories_of rootLayerID repoTags)) = inr b /\
        archive w' = archive w ++ [file_entry legacyRepositoriesFileName b] /\
        blobs w' = blobs w) /\
  (forall (configDigest : string) (layerPaths : slice string)
          (repoTags : list reference.NamedTagged) (w w' : Writer),
      createManifest configDigest layerPaths repoTags w = (w', Ret None) ->
      exists h b,
        digest.Hex configDigest = Ret h /\
        json.Marshal
          (json.Arr [of_ManifestItem (manifest_item (h +:+ ".json") layerPaths repoTags)])
        = inr b /\
        archive w' = archive w ++ [file_entry manifestFileName b] /\
        blobs w' = blobs w).
Proof.
  split; [| split; [| split]].
  - intros path target w w' H. apply sendSymlink_ok in H as (Ha & Hb & _). auto.
  - intros path b w w' H. apply sendBytes_ok in H as (Ha & Hb & _). auto.
  - intros rootLayerID repoTags w w'.
    destruct (createRepositoriesFile_run rootLayerID repoTags w) as (b & Hb & ->).
    destruct (sendBytes _ b w) as [w1 [e |]] eqn:Hs; intros [= <-].
    apply sendBytes_ok in Hs as (Ha & Hbl & _). eauto.
  - intros configDigest layerPaths repoTags w w' H.
    destruct (digest.Hex configDigest) as [h |] eqn:Hh.
    + destruct (createManifest_run configDigest h layerPaths repoTags w Hh) as (b & Hb & Hrun).
      rewrite Hrun in H. exists h, b. split; [reflexivity |]. split; [exact Hb |].
      destruct (sendBytes _ b w) as [w1 e] eqn:Hs. simpl in H.
      assert (w1 = w' /\ e = None) as (-> & ->) by (split; congruence).
      apply sendBytes_ok in Hs as (Ha & Hbl & _). auto.
    + unfold createManifest, configPath in H. rewrite Hh in H. discriminate H.
Qed.

(** On a new writer. *)
Lemma nil_means_written_witness :
  let w := NewWriter {| tar.quota := None |} in
  (archive (fst (sendSymlink "cd/layer.tar" "../ab.tar" w))
   = [symlink_entry "cd/layer.tar" "../ab.tar"]) /\
  (archive (fst (sendBytes "cd/VERSION" (bytes_of_string "1.0") w))
   = [file_entry "cd/VERSION" (bytes_of_string "1.0")]).
Proof.
  intros w. destruct nil_means_written as (H1 & H2 & _). split.
  - apply (H1 "cd/layer.tar" "../ab.tar" w). reflexivity.
  - apply (H2 "cd/VERSION" (bytes_of_string "1.0") w). reflexivity.
Defined.

(** ** What the legacy metadata depends on *)

Lemma layer_digest n configBytes i l1 l2 v :
  manifest.Digest l1 = manifest.Digest l2 ->
  layer n configBytes i l1 v = layer n configBytes i l2 v.
Proof. intros H. unfold layer. now rewrite H. Qed.

Lemma layers_from_digests n configBytes ls1 :
  forall ls2 i v w,
    map manifest.Digest ls1 = map manifest.Digest ls2 ->
    layers_from n configBytes i ls1 v w = layers_from n configBytes i ls2 v w.
Proof.
  induction ls1 as [| l1 ls1 IH]; intros [| l2 ls2] i v w H; try discriminate H.
  - reflexivity.
  - simpl in H. injection H as Hd Hds. simpl. unfold mbind, body_bind, bind.
    rewrite (layer_digest n configBytes i l1 l2 v Hd).
    destruct (layer n configBytes i l2 v w) as [w1 [v1 | r | p]]; [| reflexivity ..].
    now apply IH.
Qed.

(** X7. Of the layer descriptors [writeLegacyLayerMetadata] uses the
    digests only: the media types and the sizes change nothing in what
    it writes and returns. *)
Theorem only_the_digests_matter (layers1 layers2 : list manifest.Schema2Descriptor)
        (configBytes : list byte) (w : Writer) :
  map manifest.Digest layers1 = map manifest.Digest layers2 ->
  writeLegacyLayerMetadata layers1 configBytes w
  = writeLegacyLayerMetadata layers2 configBytes w.
Proof.
  intros H. unfold writeLegacyLayerMetadata.
  assert (len layers1 = len layers2) as ->.
  { unfold len. apply (f_equal (@length string)) in H. rewrite !length_map in H. lia. }
  now rewrite (layers_from_digests _ _ layers1 layers2).
Qed.

(** The same digest with another media type and another size. *)
Lemma only_the_digests_matter_witness :
  let w := NewWriter {| tar.quota := None |} in
  writeLegacyLayerMetadata
    [{| manifest.MediaType := "application/x-tar"; manifest.Size := 7;
        manifest.Digest := "sha256:ab" |}] (bytes_of_string "{}") w
  = writeLegacyLayerMetadata
      [{| manifest.MediaType := ""; manifest.Size := 0; manifest.Digest := "sha256:ab" |}]
      (bytes_of_string "{}") w.
Proof.
  intros w. apply only_the_digests_matter. reflexivity.
Defined.

Lemma layer_config n cfg1 cfg2 c1 c2 i l v w :
  json.Unmarshal cfg1 = inr c1 ->
  json.Unmarshal cfg2 = inr c2 ->
  Forall (fun attr => default None (c1 !! attr) = default None (c2 !! attr)) attrs ->
  layer n cfg1 i l v w = layer n cfg2 i l v w.
Proof.
  intros H1 H2 Hattrs. unfold attrs in Hattrs. rewrite !Forall_cons in Hattrs.
  destruct Hattrs as (A1 & A2 & A3 & A4 & A5 & A6 & A7 & _).
  unfold layer. unfold_body.
  destruct (digest.Hex _) as [id |]; [| reflexivity].
  destruct (physicalLayerPath _); [| reflexivity].
  destruct (sendSymlink _ _ w) as [w1 [e |]]; [reflexivity |].
  destruct (sendBytes _ _ w1) as [w2 [e |]]; [reflexivity |].
  destruct (i =? n - 1); [| reflexivity].
  rewrite H1, H2. now rewrite A1, A2, A3, A4, A5, A6, A7.
Qed.

(** X8. Of the configuration of the image [writeLegacyLayerMetadata] uses
    the seven attributes only, and takes a missing one for a [null]:
    two configurations that parse and agree on them give the same
    archive and the same result. *)
Theorem only_seven_attributes_matter (layers : list manifest.Schema2Descriptor)
        (cfg1 cfg2 : list byte) (c1 c2 : gmap string (option (list byte))) (w : Writer) :
  json.Unmarshal cfg1 = inr c1 ->
  json.Unmarshal cfg2 = inr c2 ->
  Forall (fun attr => default None (c1 !! attr) = default None (c2 !! attr)) attrs ->
  writeLegacyLayerMetadata layers cfg1 w = writeLegacyLayerMetadata layers cfg2 w.
Proof.
  intros H1 H2 Hattrs. unfold writeLegacyLayerMetadata.
  assert (forall ls i v w,
             layers_from (len layers) cfg1 i ls v w = layers_from (len layers) cfg2 i ls v w)
    as ->; [| reflexivity].
  induction ls as [| l ls IH]; intros i v w0; simpl; [reflexivity |].
  unfold mbind, body_bind, bind.
  rewrite (layer_config _ cfg1 cfg2 c1 c2 i l v w0 H1 H2 Hattrs).
  destruct (layer _ cfg2 i l v w0) as [w1 [v1 | r | p]]; [| reflexivity ..].
  apply IH.
Qed.

(** Two configurations that differ in a key that is not used, and in
    that one leaves out what the other gives as [null]. *)
Lemma only_seven_attributes_matter_witness :
  let l0 := {| manifest.MediaType := ""; manifest.Size := 1; manifest.Digest := "sha256:ab" |} in
  let cfg1 := bytes_of_string (dq "{'os':'linux','rootfs':{'type':'layers'}}") in
  let cfg2 := bytes_of_string (dq "{'created':null,'os':'linux'}") in
  let w := NewWriter {| tar.quota := None |} in
  writeLegacyLayerMetadata [l0] cfg1 w = writeLegacyLayerMetadata [l0] cfg2 w.
Proof.
  intros l0 cfg1 cfg2 w.
  apply (only_seven_attributes_matter [l0] cfg1 cfg2
           (match json.Unmarshal cfg1 with inr c => c | inl _ => ∅ end)
           (match json.Unmarshal cfg2 with inr c => c | inl _ => ∅ end) w).
  - vm_compute. reflexivity.
  - vm_compute. reflexivity.
  - repeat constructor; vm_compute; reflexivity.
Defined.

(** ** The paths that are returned *)

(** X5. When [writeLegacyLayerMetadata] returns without error, the paths it
    returns are those of the blobs of the layers, one for each layer in
    the order of the layers; there is no path, a [nil] slice, exactly
    when there is no layer. *)
Theorem returned_paths_are_blob_paths (layers : list manifest.Schema2Descriptor)
        (configBytes : list byte) (w w' : Writer) (paths : slice string) (lastID : string) :
  writeLegacyLayerMetadata layers configBytes w = (w', Ret (paths, lastID, None)) ->
  Forall2 (fun l p => physicalLayerPath (manifest.Digest l) = Ret p) layers (elems paths) /\
  (paths = Nil <-> layers = []).
Proof.
  intros Hrun. apply legacy_run in Hrun as (outs & Hlen & _ & _ & -> & _ & Hfacts). split.
  - rewrite elems_layerPaths. apply Forall2_same_length_lookup_2.
    + rewrite length_map. congruence.
    + intros k l p Hl Hp. rewrite list_lookup_fmap in Hp.
      destruct (outs !! k) as [o |] eqn:Ho; [| discriminate]. simpl in Hp. simplify_eq.
      apply (Hfacts k l o Hl Ho).
  - destruct outs as [| o outs]; destruct layers as [| l layers]; try discriminate Hlen;
      simpl; split; intros H; try reflexivity; discriminate H.
Qed.

(** Two layers with the same digest. *)
Lemma returned_paths_are_blob_paths_witness :
  let l0 := {| manifest.MediaType := ""; manifest.Size := 1; manifest.Digest := "sha256:ab" |} in
  let r := writeLegacyLayerMetadata [l0; l0] (bytes_of_string "{}")
                                    (NewWriter {| tar.quota := None |}) in
  snd r = Ret (Slice ["ab.tar"; "ab.tar"],
               "0ba76af79692827f13dab870fad70a4f733cc4e792ba30b81dd4822813bf4c36", None) /\
  Forall2 (fun l p => physicalLayerPath (manifest.Digest l) = Ret p) [l0; l0]
          ["ab.tar"; "ab.tar"].
Proof.
  intros l0 r.
  assert (H : snd r
              = Ret (Slice ["ab.tar"; "ab.tar"],
                     "0ba76af79692827f13dab870fad70a4f733cc4e792ba30b81dd4822813bf4c36", None))
    by (vm_compute; reflexivity).
  split; [exact H |].
  apply (returned_paths_are_blob_paths [l0; l0] (bytes_of_string "{}")
           (NewWriter {| tar.quota := None |}) (fst r) (Slice ["ab.tar"; "ab.tar"])
           "0ba76af79692827f13dab870fad70a4f733cc4e792ba30b81dd4822813bf4c36").
  rewrite (surjective_pairing r) at 1. fold r. now rewrite H.
Defined.

(** ** The blobs that are recorded *)

Lemma tryReusingBlob_blobs (info : types.BlobInfo) (w1 w2 : Writer) :
  blobs w1 = blobs w2 -> tryReusingBlob info w1 = tryReusingBlob info w2.
Proof. intros H. unfold tryReusingBlob. now rewrite H. Qed.

Lemma sendSymlink_blobs path target w : blobs (fst (sendSymlink path target w)) = blobs w.
Proof.
  unfold sendSymlink. rewrite FileInfoHeader_symlink.
  now destruct (tar.WriteHeader _ _).
Qed.

Lemma sendFile_blobs path n stream w : blobs (fst (sendFile path n stream w)) = blobs w.
Proof.
  unfold sendFile. rewrite FileInfoHeader_file.
  destruct (tar.WriteHeader _ _) as [t [e |]]; [reflexivity |].
  destruct (io.Copy t stream) as [t' [sz [e |]]]; [reflexivity |].
  now destruct (negb _).
Qed.

Lemma layer_blobs n configBytes i l v w :
  blobs (fst (layer n configBytes i l v w)) = blobs w.
Proof.
  unfold layer. unfold_body.
  destruct (digest.Hex _) as [id |]; [| reflexivity].
  destruct (physicalLayerPath _); [| reflexivity].
  pose proof (sendSymlink_blobs (filepath.Join [id; legacyLayerFileName])
                                (filepath.Join [".."; a]) w) as H1.
  destruct (sendSymlink _ _ w) as [w1 [e |]]; [exact H1 |]. simpl in H1.
  assert (forall path b, blobs (fst (sendBytes path b w1)) = blobs w) as H2.
  { intros path b. rewrite <- H1. apply sendFile_blobs. }
  pose proof (H2 (filepath.Join [id; legacyVersionFileName]) (bytes_of_string "1.0")) as H2'.
  destruct (sendBytes _ _ w1) as [w2 [e |]]; [exact H2' |]. simpl in H2'.
  assert (forall path b, blobs (fst (sendBytes path b w2)) = blobs w) as H3.
  { intros path b. rewrite <- H2'. apply sendFile_blobs. }
  destruct (i =? n - 1).
  - destruct (json.Unmarshal configBytes); [exact H2' |].
    destruct (json.Marshal _) as [e | b]; [exact H2' |].
    specialize (H3 (filepath.Join [id; legacyConfigFileName]) b).
    now destruct (sendBytes _ b w2) as [w3 [e |]].
  - destruct (json.Marshal _) as [e | b]; [exact H2' |].
    specialize (H3 (filepath.Join [id; legacyConfigFileName]) b).
    now destruct (sendBytes _ b w2) as [w3 [e |]].
Qed.

Lemma layers_from_blobs n configBytes ls :
  forall i v w, blobs (fst (layers_from n configBytes i ls v w)) = blobs w.
Proof.
  induction ls as [| l ls IH]; intros i v w; simpl; [reflexivity |].
  unfold mbind, body_bind, bind.
  pose proof (layer_blobs n configBytes i l v w) as Hl.
  destruct (layer n configBytes i l v w) as [w1 [v1 | r | p]]; simpl in Hl;
    [| exact Hl ..].
  now rewrite IH.
Qed.

(** X21. Writing to the archive never changes which blobs are recorded:
    after any operation that writes entries, on any outcome, and after
    [Close], [tryReusingBlob] answers as before. *)
Theorem writing_keeps_the_blobs (info : types.BlobInfo) (w : Writer) :
  (forall path target,
      tryReusingBlob info (fst (sendSymlink path target w)) = tryReusingBlob info w) /\
  (forall path expectedSize stream,
      tryReusingBlob info (fst (sendFile path expectedSize stream w))
      = tryReusingBlob info w) /\
  (forall layers configBytes,
      tryReusingBlob info (fst (writeLegacyLayerMetadata layers configBytes w))
      = tryReusingBlob info w) /\
  (forall rootLayerID repoTags,
      tryReusingBlob info (fst (createRepositoriesFile rootLayerID repoTags w))
      = tryReusingBlob info w) /\
  (forall configDigest layerPaths repoTags,
      tryReusingBlob info (fst (createManifest configDigest layerPaths repoTags w))
      = tryReusingBlob info w) /\
  tryReusingBlob info (fst (Close w)) = tryReusingBlob info w.
Proof.
  split; [| split; [| split; [| split; [| split]]]]; intros; apply tryReusingBlob_blobs.
  - apply sendSymlink_blobs.
  - apply sendFile_blobs.
  - unfold writeLegacyLayerMetadata.
    pose proof (layers_from_blobs (len layers) configBytes layers 0
                  {| chainID := ""; lastLayerID := ""; layerPaths := Nil |} w) as H.
    now destruct (layers_from _ _ _ _ _ w) as [w1 [v1 | r | p]].
  - unfold createRepositoriesFile. destruct (json.Marshal _) as [e | b]; [reflexivity |].
    pose proof (sendFile_blobs legacyRepositoriesFileName (len b) (io.NewReader b) w) as H.
    unfold sendBytes. now destruct (sendFile _ _ _ w) as [w1 [e |]].
  - unfold createManifest. destruct (configPath _); [| reflexivity].
    destruct (json.Marshal _) as [e | b]; [reflexivity |].
    pose proof (sendFile_blobs manifestFileName (len b) (io.NewReader b) w) as H.
    unfold sendBytes. now destruct (sendFile _ _ _ w) as [w1 e].
  - unfold Close. now destruct (tar.Close (tar w)).
Qed.

(** ** An image from the first layer to the footer *)

(** X9. On a writer that is ready, for layers with well-formed digests, a
    configuration that is a JSON object and a config digest with a hex
    part, the legacy metadata, the repositories file for the ID of the
    last layer, the manifest for the paths that were returned, and
    [Close] all return without error, one after the other; the archive
    gains the three entries of every layer, in the order of the layers,
    then [repositories], then [manifest.json], and nothing else. *)
Theorem image_is_written (layers : list manifest.Schema2Descriptor)
        (configBytes : list byte) (config : gmap string (option (list byte)))
        (configDigest h : string) (repoTags : list reference.NamedTagged) (w : Writer) :
  ready (tar w) ->
  Forall (fun l => wellformed (manifest.Digest l)) layers ->
  json.Unmarshal configBytes = inr config ->
  digest.Hex configDigest = Ret h ->
  exists w1 paths lastID w2 w3 w4 ids,
    writeLegacyLayerMetadata layers configBytes w = (w1, Ret (paths, lastID, None)) /\
    createRepositoriesFile lastID repoTags w1 = (w2, None) /\
    createManifest configDigest paths repoTags w2 = (w3, Ret None) /\
    Close w3 = (w4, None) /\
    length ids = length layers /\
    map (fun e => tar.Name (tar.hdr e)) (archive w4)
    = map (fun e => tar.Name (tar.hdr e)) (archive w)
      ++ flat_map (fun id => [filepath.Join [id; "layer.tar"];
                              filepath.Join [id; "VERSION"];
                              filepath.Join [id; "json"]]) ids
      ++ ["repositories"; "manifest.json"].
Proof.
  intros Hr Hwf Hu Hh.
  assert (exists w1 paths lastID,
             writeLegacyLayerMetadata layers configBytes w = (w1, Ret (paths, lastID, None)) /\
             ready (tar w1)) as (w1 & paths & lastID & H1 & Hr1).
  { unfold writeLegacyLayerMetadata.
    destruct (layers_from_returns (len layers) configBytes config layers Hwf Hu
                (Unmarshal_raw_valid _ _ Hu) 0
                {| chainID := ""; lastLayerID := ""; layerPaths := Nil |} w Hr)
      as (w' & v' & -> & Hr').
    eauto. }
  pose proof (legacy_run _ _ _ _ _ _ H1) as (outs & Hlen & Ha1 & _).
  destruct (createRepositoriesFile_ready lastID repoTags w1 Hr1)
    as (b2 & w2 & _ & H2 & Ha2 & _ & Hr2).
  destruct (createManifest_run configDigest h paths repoTags w2 Hh) as (b3 & _ & H3).
  destruct (sendBytes_ready manifestFileName b3 w2 Hr2 (manifest_header_ok b3))
    as (w3 & Hs3 & Hr3).
  rewrite Hs3 in H3. simpl in H3.
  pose proof (sendBytes_ok _ _ _ _ Hs3) as (Ha3 & _).
  pose proof (Close_ready w3 Hr3) as H4.
  eexists w1, paths, lastID, w2, w3, _, (map lo_id outs).
  do 4 (split; [eassumption |]). rewrite length_map. split; [exact Hlen |].
  unfold archive at 1. cbn [tar tar.entries]. fold (archive w3).
  rewrite Ha3, Ha2, Ha1, !map_app, names_of_layers, <- !app_assoc. reflexivity.
Qed.

(** An image of two layers with one tag, on a new writer. *)
Lemma image_is_written_witness :
  let l0 := {| manifest.MediaType := ""; manifest.Size := 1; manifest.Digest := "sha256:ab" |} in
  let l1 := {| manifest.MediaType := ""; manifest.Size := 2; manifest.Digest := "sha256:cd" |} in
  let configBytes := bytes_of_string (dq "{'os':'linux'}") in
  let tags := [ {| reference.Name := "example.com/app"; reference.Tag := "v1" |} ] in
  exists w1 paths lastID w2 w3 w4 ids,
    writeLegacyLayerMetadata [l0; l1] configBytes (NewWriter {| tar.quota := None |})
    = (w1, Ret (paths, lastID, None)) /\
    createRepositoriesFile lastID tags w1 = (w2, None) /\
    createManifest "sha256:ef" paths tags w2 = (w3, Ret None) /\
    Close w3 = (w4, None) /\
    length ids = 2%nat /\
    map (fun e => tar.Name (tar.hdr e)) (archive w4)
    = flat_map (fun id => [filepath.Join [id; "layer.tar"];
                           filepath.Join [id; "VERSION"];
                           filepath.Join [id; "json"]]) ids
      ++ ["repositories"; "manifest.json"].
Proof.
  intros l0 l1 configBytes tags.
  apply (image_is_written [l0; l1] configBytes
           (match json.Unmarshal configBytes with inr c => c | inl _ => ∅ end)
           "sha256:ef" "ef" tags (NewWriter {| tar.quota := None |})).
  - repeat split.
  - repeat constructor; [exists "ab" | exists "cd"]; repeat split; discriminate.
  - vm_compute. reflexivity.
  - reflexivity.
Defined.

(** ** The JSON files are JSON *)

(** What [json.Marshal] writes is accepted by the scanner of
    [json.Valid]: first for strings, then for numbers and raw messages,
    then for every value. *)

Lemma Zascii_range (c : ascii) : 0 <= Zascii c < 256.
Proof. unfold Zascii. pose proof (nat_ascii_bounded c). lia. Qed.

Lemma asciiZ_Zascii (c : ascii) : asciiZ (Zascii c) = c.
Proof. unfold asciiZ, Zascii. rewrite Nat2Z.id. apply ascii_nat_embedding. Qed.

Lemma Zascii_asciiZ (z : Z) : 0 <= z < 256 -> Zascii (asciiZ z) = z.
Proof.
  intros Hz. unfold asciiZ, Zascii. rewrite nat_ascii_embedding by lia. lia.
Qed.

Lemma asciiZ_eqb (z : Z) (c : ascii) :
  0 <= z < 256 -> (asciiZ z =? c)%char = (z =? Zascii c).
Proof.
  intros Hz. destruct (Ascii.eqb_spec (asciiZ z) c) as [<- | Hne].
  - rewrite Zascii_asciiZ by assumption. now rewrite Z.eqb_refl.
  - symmetry. apply Z.eqb_neq. intros ->. apply Hne, asciiZ_Zascii.
Qed.

(** A byte that the scanner takes as a character of a string. *)
Lemma str_plain (b : Z) (rest : list ascii) :
  32 <= b < 256 -> b <> 34 -> b <> 92 ->
  json.str (asciiZ b :: rest) = json.str rest.
Proof.
  intros Hb H34 H92. cbn [json.str].
  rewrite !asciiZ_eqb by lia. change (Zascii dquote) with 34. change (Zascii "\") with 92.
  rewrite Zascii_asciiZ by lia.
  destruct (b =? 34) eqn:E1; [lia |]. destruct (b =? 92) eqn:E2; [lia |].
  destruct (b <? 32) eqn:E3; [lia | reflexivity].
Qed.

Lemma str_plain_run (p : list Z) (rest : list ascii) :
  Forall (fun b => 128 <= b < 256) p ->
  json.str (map asciiZ p ++ rest) = json.str rest.
Proof.
  induction 1 as [| b p Hb _ IH]; simpl; [reflexivity |].
  change (json.str (asciiZ b :: map asciiZ p ++ rest) = json.str rest).
  rewrite str_plain by lia. exact IH.
Qed.

Lemma is_hex_hexdigit (z : Z) : 0 <= z < 16 -> json.is_hex (hexdigit z) = true.
Proof.
  intros Hz.
  assert (z = 0 \/ z = 1 \/ z = 2 \/ z = 3 \/ z = 4 \/ z = 5 \/ z = 6 \/ z = 7 \/
          z = 8 \/ z = 9 \/ z = 10 \/ z = 11 \/ z = 12 \/ z = 13 \/ z = 14 \/ z = 15)
    as H by lia.
  repeat (destruct H as [-> | H]; [reflexivity |]). subst. reflexivity.
Qed.

(** An escape [\uXXXX] with four hexadecimal digits. *)
Lemma str_u4 (a b c d : ascii) (rest : list ascii) :
  json.is_hex a = true -> json.is_hex b = true ->
  json.is_hex c = true -> json.is_hex d = true ->
  json.str ("\"%char :: "u"%char :: a :: b :: c :: d :: rest) = json.str rest.
Proof. intros Ha Hb Hc Hd. cbn [json.str]. simpl. now rewrite Ha, Hb, Hc, Hd. Qed.

Lemma str_escape (b : Z) (rest : list ascii) :
  0 <= b < 128 -> json.str (json.escape b ++ rest) = json.str rest.
Proof.
  intros Hb. unfold json.escape.
  destruct (b =? 92) eqn:E92.
  { apply Z.eqb_eq in E92 as ->. reflexivity. }
  destruct (b =? 34) eqn:E34.
  { apply Z.eqb_eq in E34 as ->. reflexivity. }
  cbn [orb]. destruct (b =? 10); [reflexivity |]. destruct (b =? 13); [reflexivity |].
  destruct (b =? 9); [reflexivity |].
  change (chars "\u00" ++ [hexdigit (Z.shiftr b 4); hexdigit (Z.land b 15)])
    with ["\"%char; "u"%char; "0"%char; "0"%char;
          hexdigit (Z.shiftr b 4); hexdigit (Z.land b 15)].
  cbn [app]. apply str_u4; try reflexivity; apply is_hex_hexdigit.
  - rewrite Z.shiftr_div_pow2 by lia. change (2 ^ 4) with 16.
    split; [apply Z.div_pos; lia | apply Z.div_lt_upper_bound; lia].
  - change 15 with (Z.ones 4). rewrite Z.land_ones by lia. apply Z.mod_pos_bound. lia.
Qed.

(** The bytes of a rune that [DecodeRune] accepts, other than an ASCII
    one, are all above the ASCII range. *)
Lemma DecodeRune_high (l : list Z) (c : Z) (size : nat) :
  Forall (fun b => 0 <= b < 256) l ->
  match l with b :: _ => 128 <= b | [] => False end ->
  utf8.DecodeRune l = (c, size) ->
  ((c =? utf8.RuneError) && Nat.eqb size 1) = false ->
  Forall (fun b => 128 <= b < 256) (firstn size l).
Proof.
  intros Hl Hhigh. destruct l as [| b0 r]; [contradiction |].
  unfold utf8.DecodeRune. destruct (b0 <? 128) eqn:E0; [lia |].
  assert (Hfail : (utf8.RuneError, 1%nat) = (c, size) ->
                  ((c =? utf8.RuneError) && Nat.eqb size 1) = false ->
                  Forall (fun b => 128 <= b < 256) (firstn size (b0 :: r))).
  { intros [= <- <-]. discriminate. }
  apply Forall_cons in Hl as (Hb0 & Hr). unfold utf8.cont.
  destruct ((194 <=? b0) && (b0 <=? 223)).
  { destruct r as [| b1 r]; [exact Hfail |]. apply Forall_cons in Hr as (Hb1 & Hr).
    destruct ((128 <=? b1) && (b1 <=? 191)) eqn:E1; [| exact Hfail].
    intros [= <- <-] _. cbn [firstn]. repeat constructor; lia. }
  destruct ((224 <=? b0) && (b0 <=? 239)).
  { destruct r as [| b1 [| b2 r]]; try exact Hfail.
    apply Forall_cons in Hr as (Hb1 & Hr). apply Forall_cons in Hr as (Hb2 & Hr).
    destruct (_ && _ && _) eqn:E1; [| exact Hfail].
    intros [= <- <-] _. cbn [firstn].
    destruct (b0 =? 224), (b0 =? 237); repeat constructor; lia. }
  destruct ((240 <=? b0) && (b0 <=? 244)); [| exact Hfail].
  destruct r as [| b1 [| b2 [| b3 r]]]; try exact Hfail.
  apply Forall_cons in Hr as (Hb1 & Hr). apply Forall_cons in Hr as (Hb2 & Hr).
  apply Forall_cons in Hr as (Hb3 & Hr).
  destruct (_ && _ && _ && _) eqn:E1; [| exact Hfail].
  intros [= <- <-] _. cbn [firstn].
  destruct (b0 =? 240), (b0 =? 244); repeat constructor; lia.
Qed.

(** The inside of an encoded string, up to the closing quote, is what
    the scanner takes for the inside of a string. *)
Lemma str_quote_body (n : nat) :
  forall (l : list Z) (y : list ascii),
    Forall (fun b => 0 <= b < 256) l ->
    json.str (json.quote_body n l ++ dquote :: y) = Some y.
Proof.
  induction n as [| n IH]; intros l y Hl; [reflexivity |].
  destruct l as [| b r]; [reflexivity |]. cbn [json.quote_body].
  pose proof Hl as Hl0. apply Forall_cons in Hl as (Hb & Hr).
  destruct (b <? 128) eqn:E0.
  - rewrite <- app_assoc. destruct (json.htmlSafe b) eqn:Hsafe.
    + unfold json.htmlSafe in Hsafe. cbn [app].
      rewrite str_plain; [now apply IH | lia ..].
    + rewrite str_escape by lia. now apply IH.
  - destruct (utf8.DecodeRune (b :: r)) as [c size] eqn:Hd.
    destruct ((c =? utf8.RuneError) && Nat.eqb size 1) eqn:Herr.
    + rewrite <- app_assoc.
      change (chars "\ufffd" ++ json.quote_body n r ++ dquote :: y)
        with ("\"%char :: "u"%char :: "f"%char :: "f"%char :: "f"%char :: "d"%char
                 :: json.quote_body n r ++ dquote :: y).
      rewrite str_u4 by reflexivity. now apply IH.
    + assert (Hskip : Forall (fun b => 0 <= b < 256) (skipn size (b :: r)))
        by now apply Forall_drop.
      destruct ((c =? 8232) || (c =? 8233)) eqn:Hls.
      * rewrite <- !app_assoc.
        change (chars "\u202" ++ [hexdigit (Z.land c 15)]
                      ++ json.quote_body n (skipn size (b :: r)) ++ dquote :: y)
          with ("\"%char :: "u"%char :: "2"%char :: "0"%char :: "2"%char
                   :: hexdigit (Z.land c 15)
                   :: json.quote_body n (skipn size (b :: r)) ++ dquote :: y).
        rewrite str_u4; [now apply IH | reflexivity .. |].
        apply orb_prop in Hls as [->%Z.eqb_eq | ->%Z.eqb_eq]; reflexivity.
      * rewrite <- app_assoc, str_plain_run; [now apply IH |].
        apply (DecodeRune_high (b :: r) c size); auto. lia.
Qed.

(** An encoded string is a value for the scanner. *)
Lemma skip_value_quote (s : string) (m : nat) (y : list ascii) :
  json.skip_value (S m) (json.quote s ++ y) = Some y.
Proof.
  unfold json.quote. cbn [app json.skip_value]. rewrite Ascii.eqb_refl.
  rewrite <- app_assoc. apply str_quote_body.
  apply Forall_forall. intros b (c & -> & _)%elem_of_map. apply Zascii_range.
Qed.

(** *** Numbers *)

Lemma exponent_safe (y : list ascii) : safe y = true -> json.exponent y = Some y.
Proof.
  intros Hy. destruct y as [| c y]; [reflexivity |]. simpl in Hy.
  delimiter_char Hy; reflexivity.
Qed.

Lemma fraction_safe (y : list ascii) : safe y = true -> json.fraction y = Some y.
Proof.
  intros Hy. destruct y as [| c y]; [reflexivity |]. simpl in Hy.
  delimiter_char Hy; reflexivity.
Qed.

Lemma uint_digits (d : Decimal.uint) :
  forallb json.is_digit (chars (DecimalString.NilEmpty.string_of_uint d)) = true.
Proof. induction d; simpl; auto. Qed.

Lemma nzhead_nonzero (d : Decimal.uint) :
  match Decimal.nzhead d with Decimal.D0 _ => False | _ => True end.
Proof. induction d; simpl; auto. Qed.

Lemma to_uint_nonzero (p : positive) :
  match Pos.to_uint p with Decimal.Nil | Decimal.D0 _ => False | _ => True end.
Proof.
  pose proof (DecimalPos.Unsigned.to_of (Pos.to_uint p)) as H.
  rewrite DecimalPos.Unsigned.of_to in H. change (N.to_uint (N.pos p)) with (Pos.to_uint p) in H.
  pose proof (DecimalPos.Unsigned.to_uint_nonzero p) as Hz.
  pose proof (nzhead_nonzero (Pos.to_uint p)) as Hn.
  unfold Decimal.unorm in H.
  destruct (Decimal.nzhead (Pos.to_uint p)) eqn:E; rewrite H; try exact I; auto.
Qed.

(** The digits of a number without a leading zero, or a single zero. *)
Lemma number_uint (d : Decimal.uint) (y : list ascii) :
  match d with Decimal.Nil | Decimal.D0 _ => False | _ => True end ->
  safe y = true ->
  json.number (chars (DecimalString.NilEmpty.string_of_uint d) ++ y) = Some y.
Proof.
  intros Hd Hy. pose proof (safe_nondigit y Hy) as Hn.
  destruct d as [| d | d | d | d | d | d | d | d | d | d]; try contradiction;
    cbn [DecimalString.NilEmpty.string_of_uint chars list_ascii_of_string app];
    unfold json.number; simpl;
    (rewrite digits_app; [now apply fraction_safe | apply uint_digits | exact Hn]).
Qed.

Lemma skip_value_number (l : list ascii) (m : nat) :
  match l with
  | c :: _ => json.is_digit c = true \/ c = "-"%char
  | [] => False
  end ->
  json.skip_value (S m) l = json.number l.
Proof.
  destruct l as [| c r]; [contradiction |]. intros Hc. cbn [json.skip_value].
  assert ((c =? dquote)%char = false /\ (c =? "{")%char = false /\ (c =? "[")%char = false /\
          (c =? "t")%char = false /\ (c =? "f")%char = false /\ (c =? "n")%char = false)
    as (-> & -> & -> & -> & -> & ->); [| reflexivity].
  destruct Hc as [Hc | ->]; [| repeat split; reflexivity].
  repeat split; apply Ascii.eqb_neq; intros ->; discriminate Hc.
Qed.

Lemma number_neg (l : list ascii) :
  match l with
  | c :: _ => json.is_digit c = true
  | [] => False
  end ->
  json.number ("-"%char :: l) = json.number l.
Proof.
  destruct l as [| c r]; [contradiction |]. intros Hc. unfold json.number.
  cbn [Ascii.eqb Bool.eqb]. destruct (c =? "-")%char eqn:E; [| reflexivity].
  apply Ascii.eqb_eq in E as ->. discriminate Hc.
Qed.

Lemma encode_Num (z : Z) : marshals (json.Num z).
Proof.
  intros x [= <-]. split.
  - destruct z as [| p | p]; simpl; [discriminate | |].
    + pose proof (to_uint_nonzero p). destruct (Pos.to_uint p); try contradiction; discriminate.
    + discriminate.
  - intros m y Hm Hy. destruct m as [| m].
    { destruct z as [| p | p]; simpl in Hm; try lia.
      pose proof (to_uint_nonzero p). destruct (Pos.to_uint p); try contradiction;
        simpl in Hm; lia. }
    destruct z as [| p | p]; cbn [Z.to_int DecimalString.NilZero.string_of_int].
    + rewrite skip_value_number by (left; reflexivity).
      unfold json.number. simpl. now apply fraction_safe.
    + pose proof (to_uint_nonzero p) as Hp.
      assert (DecimalString.NilZero.string_of_uint (Pos.to_uint p)
              = DecimalString.NilEmpty.string_of_uint (Pos.to_uint p)) as ->.
      { destruct (Pos.to_uint p); [contradiction | reflexivity ..]. }
      rewrite skip_value_number; [now apply number_uint |].
      pose proof (uint_digits (Pos.to_uint p)) as Hd.
      destruct (Pos.to_uint p); try contradiction; left; reflexivity.
    + pose proof (to_uint_nonzero p) as Hp.
      assert (DecimalString.NilZero.string_of_uint (Pos.to_uint p)
              = DecimalString.NilEmpty.string_of_uint (Pos.to_uint p)) as ->.
      { destruct (Pos.to_uint p); [contradiction | reflexivity ..]. }
      change (chars (String "-" (DecimalString.NilEmpty.string_of_uint (Pos.to_uint p))) ++ y)
        with ("-"%char :: chars (DecimalString.NilEmpty.string_of_uint (Pos.to_uint p)) ++ y).
      rewrite skip_value_number by (right; reflexivity).
      rewrite number_neg; [now apply number_uint |].
      destruct (Pos.to_uint p); try contradiction; reflexivity.
Qed.

(** *** Raw messages *)

(** One step of [compact], with its two tests written out. *)
Lemma compact_scan_step (in_str esc : bool) (c : Z) (r : list Z) :
  json.compact_scan in_str esc (c :: r)
  = if html c then
      chars "\u00" ++ [hexdigit (Z.shiftr c 4); hexdigit (Z.land c 15)]
            ++ json.compact_scan in_str false r
    else
      match line_separator c r with
      | Some (x, r') =>
          chars "\u202" ++ [hexdigit (Z.land x 15)] ++ json.compact_scan in_str false r'
      | None =>
          if in_str then
            asciiZ c :: (if esc then json.compact_scan true false r
                         else if c =? 92 then json.compact_scan true true r
                         else if c =? 34 then json.compact_scan false false r
                         else json.compact_scan true false r)
          else if json.is_space (asciiZ c) then json.compact_scan false false r
          else asciiZ c :: json.compact_scan (c =? 34) false r
      end.
Proof.
  cbn [json.compact_scan]. unfold html.
  destruct ((c =? 60) || (c =? 62) || (c =? 38)); [reflexivity |].
  unfold line_separator.
  destruct (c =? 226) eqn:Ec.
  - apply Z.eqb_eq in Ec as ->. destruct r as [| b [| x r']]; try reflexivity.
    + destruct b as [| p | p]; try reflexivity.
      repeat (destruct p as [p | p |]; try reflexivity).
    + destruct (b =? 128) eqn:Eb.
      * apply Z.eqb_eq in Eb as ->. cbn [andb].
        destruct (x =? 168) eqn:E8; [apply Z.eqb_eq in E8 as ->; reflexivity |].
        destruct (x =? 169) eqn:E9; [apply Z.eqb_eq in E9 as ->; reflexivity |].
        cbn [orb]. destruct x as [| p | p]; try reflexivity.
        repeat (destruct p as [p | p |]; try reflexivity; try discriminate).
      * cbn [andb]. destruct b as [| p | p]; try reflexivity.
        repeat (destruct p as [p | p |]; try reflexivity; try discriminate).
  - assert (match r with
            | b :: x :: r' =>
                if (false && (b =? 128) && ((x =? 168) || (x =? 169)))%bool
                then Some (x, r') else None
            | _ => None
            end = None) as -> by (destruct r as [| b [| x r']]; reflexivity).
    destruct c as [| p | p]; try reflexivity.
    repeat (destruct p as [p | p |]; try reflexivity; try discriminate).
Qed.

Lemma Zascii_eqb (c d : ascii) : (Zascii c =? Zascii d) = (c =? d)%char.
Proof.
  destruct (Ascii.eqb_spec c d) as [-> | Hne]; [apply Z.eqb_refl |].
  apply Z.eqb_neq. intros H. apply Hne.
  rewrite <- (asciiZ_Zascii c), <- (asciiZ_Zascii d). now rewrite H.
Qed.

Lemma compacted_cons (in_str esc : bool) (c : ascii) (r : list ascii) :
  compacted in_str esc (c :: r)
  = if html (Zascii c) then
      chars "\u00" ++ [hexdigit (Z.shiftr (Zascii c) 4); hexdigit (Z.land (Zascii c) 15)]
            ++ compacted in_str false r
    else
      match line_separator (Zascii c) (map Zascii r) with
      | Some (x, r') =>
          chars "\u202" ++ [hexdigit (Z.land x 15)] ++ json.compact_scan in_str false r'
      | None =>
          if in_str then
            c :: (if esc then compacted true false r
                  else if (c =? "\")%char then compacted true true r
                  else if (c =? dquote)%char then compacted false false r
                  else compacted true false r)
          else if json.is_space c then compacted false false r
          else c :: compacted (c =? dquote)%char false r
      end.
Proof.
  unfold compacted. cbn [map]. rewrite compact_scan_step, asciiZ_Zascii.
  change 92 with (Zascii "\"). change 34 with (Zascii dquote).
  now rewrite !Zascii_eqb.
Qed.

Lemma line_separator_other (c : Z) (r : list Z) : c <> 226 -> line_separator c r = None.
Proof.
  intros Hc. unfold line_separator. destruct r as [| b [| x r']]; try reflexivity.
  apply Z.eqb_neq in Hc. now rewrite Hc.
Qed.

Lemma line_separator_Some (c : ascii) (r : list ascii) (x : Z) (r' : list Z) :
  line_separator (Zascii c) (map Zascii r) = Some (x, r') ->
  exists b x0 r1,
    r = b :: x0 :: r1 /\ 128 <= Zascii b /\ 128 <= Zascii x0 /\
    x = Zascii x0 /\ (x = 168 \/ x = 169) /\ r' = map Zascii r1.
Proof.
  unfold line_separator. destruct r as [| b [| x0 r1]]; try discriminate. cbn [map].
  destruct (Zascii c =? 226); [| discriminate]. cbn [andb].
  destruct (Zascii b =? 128) eqn:Eb; [| discriminate]. cbn [andb].
  destruct ((Zascii x0 =? 168) || (Zascii x0 =? 169)) eqn:Ex; [| discriminate].
  intros [= <- <-]. exists b, x0, r1. apply Z.eqb_eq in Eb.
  apply orb_prop in Ex as [Ex | Ex]; apply Z.eqb_eq in Ex; repeat split; auto; lia.
Qed.

(** A character that [compact] copies. *)
Lemma compacted_ordinary (in_str esc : bool) (c : ascii) (r : list ascii) :
  html (Zascii c) = false -> Zascii c <> 226 ->
  compacted in_str esc (c :: r)
  = if in_str then
      c :: (if esc then compacted true false r
            else if (c =? "\")%char then compacted true true r
            else if (c =? dquote)%char then compacted false false r
            else compacted true false r)
    else if json.is_space c then compacted false false r
    else c :: compacted (c =? dquote)%char false r.
Proof.
  intros Hh Hc. now rewrite compacted_cons, Hh, line_separator_other.
Qed.

Lemma str_high (c : ascii) (rest : list ascii) :
  128 <= Zascii c -> json.str (c :: rest) = json.str rest.
Proof.
  intros Hc. rewrite <- (asciiZ_Zascii c) at 1. pose proof (Zascii_range c).
  apply str_plain; lia.
Qed.

Lemma is_hex_ordinary (a : ascii) :
  json.is_hex a = true -> html (Zascii a) = false /\ Zascii a <> 226.
Proof.
  unfold json.is_hex, unhex, html. intros H. apply bool_decide_eq_true in H.
  destruct ((48 <=? Zascii a) && (Zascii a <=? 57)) eqn:E1.
  { split; [| lia]. destruct (Zascii a =? 60) eqn:?, (Zascii a =? 62) eqn:?,
      (Zascii a =? 38) eqn:?; try reflexivity; lia. }
  destruct ((97 <=? Zascii a) && (Zascii a <=? 102)) eqn:E2.
  { split; [| lia]. destruct (Zascii a =? 60) eqn:?, (Zascii a =? 62) eqn:?,
      (Zascii a =? 38) eqn:?; try reflexivity; lia. }
  destruct ((65 <=? Zascii a) && (Zascii a <=? 70)) eqn:E3.
  { split; [| lia]. destruct (Zascii a =? 60) eqn:?, (Zascii a =? 62) eqn:?,
      (Zascii a =? 38) eqn:?; try reflexivity; lia. }
  destruct H as (x & [=]).
Qed.

Lemma simple_escape_cases (e : ascii) :
  json.simple_escape e = true ->
  e = dquote \/ e = "\"%char \/ e = "/"%char \/ e = "b"%char \/ e = "f"%char \/
  e = "n"%char \/ e = "r"%char \/ e = "t"%char.
Proof.
  unfold json.simple_escape. intros H.
  repeat (apply orb_prop in H as [H | H]); apply Ascii.eqb_eq in H; auto 10.
Qed.

Lemma html_cases (c : ascii) :
  html (Zascii c) = true -> c = "<"%char \/ c = ">"%char \/ c = "&"%char.
Proof.
  unfold html. intros H.
  repeat (apply orb_prop in H as [H | H]); apply Z.eqb_eq in H;
    rewrite <- (asciiZ_Zascii c), H; auto.
Qed.

Lemma line_separator_tail (c : ascii) (q y1 y2 : list ascii) :
  line_separator (Zascii c) (map Zascii ((q ++ [dquote]) ++ y1)) = None ->
  line_separator (Zascii c) (map Zascii ((q ++ [dquote]) ++ y2)) = None.
Proof.
  unfold line_separator. destruct q as [| b [| x q]]; cbn [app map].
  - intros _. destruct (map Zascii y2); [reflexivity |].
    change (Zascii dquote) with 34. cbn [Z.eqb Pos.eqb andb]. now rewrite andb_false_r.
  - intros _. change (Zascii dquote) with 34. cbn [Z.eqb Pos.eqb orb].
    now rewrite andb_false_r.
  - destruct (_ && _ && _); [discriminate | reflexivity].
Qed.

(** A string that the scanner accepted is compacted to a string that it
    accepts, and [compact] is outside the string after it. *)
Lemma compacted_str (l : list ascii) :
  forall r,
    json.str l = Some r ->
    exists q p',
      l = (q ++ [dquote]) ++ r /\
      (forall x, compacted true false ((q ++ [dquote]) ++ x)
                 = p' ++ compacted false false x) /\
      (forall y, json.str (p' ++ y) = Some y).
Proof.
  induction l as [l IH] using (induction_ltof1 _ (@length ascii)). unfold ltof in IH.
  intros r. destruct l as [| c r0]; [discriminate |]. cbn [json.str].
  destruct (c =? dquote)%char eqn:Hq.
  { intros [= <-]. apply Ascii.eqb_eq in Hq as ->. exists [], [dquote].
    split; [reflexivity |]. split; [| reflexivity].
    intros x. cbn [app]. now rewrite compacted_ordinary by (reflexivity || discriminate). }
  destruct (c =? "\")%char eqn:Hb.
  - apply Ascii.eqb_eq in Hb as ->. destruct r0 as [| e r']; [discriminate |].
    destruct (json.simple_escape e) eqn:He.
    + intros H. apply IH in H as (q & p' & -> & Hc & Hs); [| simpl; lia].
      exists ("\"%char :: e :: q), ("\"%char :: e :: p').
      split; [reflexivity |]. split.
      * intros x. cbn [app]. rewrite compacted_ordinary by (reflexivity || discriminate).
        cbn [Ascii.eqb Bool.eqb].
        apply simple_escape_cases in He as [-> | [-> | [-> | [-> | [-> | [-> | [-> | ->]]]]]]];
          (rewrite compacted_ordinary by (reflexivity || discriminate));
          now rewrite Hc.
      * intros y. cbn [app json.str]. cbn [Ascii.eqb Bool.eqb]. rewrite He. apply Hs.
    + destruct (e =? "u")%char eqn:Hu; [| discriminate].
      apply Ascii.eqb_eq in Hu as ->.
      destruct r' as [| a [| b [| c' [| d r'']]]]; try discriminate.
      destruct (json.is_hex a && json.is_hex b && json.is_hex c' && json.is_hex d) eqn:Hh;
        [| discriminate].
      apply andb_prop in Hh as (Hh & Hd). apply andb_prop in Hh as (Hh & Hc').
      apply andb_prop in Hh as (Ha & Hb').
      intros H. apply IH in H as (q & p' & -> & Hc & Hs); [| simpl; lia].
      exists ("\"%char :: "u"%char :: a :: b :: c' :: d :: q),
        ("\"%char :: "u"%char :: a :: b :: c' :: d :: p').
      split; [reflexivity |]. split.
      * intros x. cbn [app].
        rewrite compacted_ordinary by (reflexivity || discriminate). cbn [Ascii.eqb Bool.eqb].
        rewrite compacted_ordinary by (reflexivity || discriminate).
        assert (forall h, json.is_hex h = true ->
                          (h =? "\")%char = false /\ (h =? dquote)%char = false) as Hplain.
        { intros h Hhex. split; apply Ascii.eqb_neq; intros ->; discriminate Hhex. }
        rewrite (compacted_ordinary true false a) by apply (is_hex_ordinary a Ha).
        destruct (Hplain a Ha) as (-> & ->).
        rewrite (compacted_ordinary true false b) by apply (is_hex_ordinary b Hb').
        destruct (Hplain b Hb') as (-> & ->).
        rewrite (compacted_ordinary true false c') by apply (is_hex_ordinary c' Hc').
        destruct (Hplain c' Hc') as (-> & ->).
        rewrite (compacted_ordinary true false d) by apply (is_hex_ordinary d Hd).
        destruct (Hplain d Hd) as (-> & ->).
        now rewrite Hc.
      * intros y. cbn [app]. rewrite str_u4 by assumption. apply Hs.
  - destruct (Zascii c <? 32) eqn:Hc32; [discriminate |]. intros H.
    destruct (html (Zascii c)) eqn:Hhtml.
    { apply IH in H as (q & p' & -> & Hc & Hs); [| simpl; lia].
      exists (c :: q),
        (chars "\u00" ++ [hexdigit (Z.shiftr (Zascii c) 4); hexdigit (Z.land (Zascii c) 15)]
               ++ p').
      split; [reflexivity |]. split.
      - intros x. cbn [app]. rewrite compacted_cons, Hhtml.
        now rewrite Hc, <- !app_assoc.
      - intros y. rewrite <- !app_assoc.
        apply html_cases in Hhtml as [-> | [-> | ->]];
          (etransitivity; [apply (str_u4 "0" "0"); reflexivity | apply Hs]). }
    destruct (line_separator (Zascii c) (map Zascii r0)) as [[x r'] |] eqn:Hls.
    + pose proof Hls as Hls'.
      apply line_separator_Some in Hls' as (b & x0 & r1 & -> & Hb128 & Hx128 & -> & Hx & ->).
      rewrite !str_high in H by assumption.
      apply IH in H as (q & p' & -> & Hc & Hs); [| simpl; lia].
      exists (c :: b :: x0 :: q), (chars "\u202" ++ [hexdigit (Z.land (Zascii x0) 15)] ++ p').
      split; [reflexivity |]. split.
      * intros y. cbn [app]. rewrite compacted_cons, Hhtml.
        assert (line_separator (Zascii c) (map Zascii (b :: x0 :: (q ++ [dquote]) ++ y))
                = Some (Zascii x0, map Zascii ((q ++ [dquote]) ++ y))) as ->.
        { revert Hls. unfold line_separator. cbn [map].
          destruct (_ && _ && _); [reflexivity | discriminate]. }
        fold (compacted true false ((q ++ [dquote]) ++ y)).
        now rewrite Hc, <- !app_assoc.
      * intros y. rewrite <- !app_assoc.
        etransitivity; [| apply Hs].
        apply (str_u4 "2" "0" "2"); try reflexivity.
        destruct Hx as [-> | ->]; reflexivity.
    + apply IH in H as (q & p' & -> & Hc & Hs); [| simpl; lia].
      exists (c :: q), (c :: p'). split; [reflexivity |]. split.
      * intros y. change ((c :: q) ++ [dquote]) with (c :: (q ++ [dquote])).
        cbn [app]. rewrite compacted_cons, Hhtml.
        rewrite (line_separator_tail c q r y Hls).
        rewrite Hb, Hq. now rewrite Hc.
      * intros y. cbn [app json.str]. rewrite Hq, Hb, Hc32. apply Hs.
Qed.

Lemma compacts_nil : compacts [] [].
Proof. intros x. reflexivity. Qed.

Lemma compacts_app (p1 p1' p2 p2' : list ascii) :
  compacts p1 p1' -> compacts p2 p2' -> compacts (p1 ++ p2) (p1' ++ p2').
Proof. intros H1 H2 x. now rewrite <- !app_assoc, H1, H2. Qed.

Lemma compacts_char (c : ascii) : plainchar c = true -> compacts [c] [c].
Proof.
  unfold plainchar. intros H.
  apply andb_prop in H as (H & Hq). apply andb_prop in H as (H & Hs).
  apply andb_prop in H as (Hh & He).
  apply negb_true_iff in Hq, Hs, Hh, He. apply Z.eqb_neq in He.
  intros x. cbn [app]. now rewrite compacted_ordinary, Hs, Hq.
Qed.

Lemma compacts_chars (p : list ascii) : forallb plainchar p = true -> compacts p p.
Proof.
  induction p as [| c p IH]; [intros _; apply compacts_nil |].
  cbn [forallb]. intros (Hc & Hp)%andb_prop.
  apply (compacts_app [c] [c] p p); [now apply compacts_char | now apply IH].
Qed.

Lemma compacts_spaces (ws : list ascii) : forallb json.is_space ws = true -> compacts ws [].
Proof.
  induction ws as [| c ws IH]; [intros _; apply compacts_nil |].
  cbn [forallb]. intros (Hc & Hws)%andb_prop x. cbn [app].
  rewrite compacted_ordinary, Hc; [now apply IH | |];
    apply space_cases in Hc as [-> | [-> | [-> | ->]]]; (reflexivity || discriminate).
Qed.

(** A string, from its opening quote on. *)
Lemma compacts_str (l r : list ascii) :
  json.str l = Some r ->
  exists p p',
    l = p ++ r /\ compacts (dquote :: p) (dquote :: p') /\
    forall y, json.str (p' ++ y) = Some y.
Proof.
  intros (q & p' & -> & Hc & Hs)%compacted_str. exists (q ++ [dquote]), p'.
  split; [reflexivity |]. split; [| exact Hs].
  intros x. cbn [app]. rewrite compacted_ordinary by (reflexivity || discriminate).
  cbn [json.is_space Ascii.eqb Bool.eqb orb]. change (dquote =? dquote)%char with true.
  cbn iota. now rewrite Hc.
Qed.

Lemma numchar_plain (c : ascii) : numchar c = true -> plainchar c = true.
Proof.
  unfold numchar. intros H.
  repeat (apply orb_prop in H as [H | H]);
    try (apply Ascii.eqb_eq in H as ->; reflexivity).
  unfold json.is_digit in H. apply andb_prop in H as (H1 & H2).
  unfold plainchar, html.
  assert ((Zascii c =? 60) = false) as -> by lia.
  assert ((Zascii c =? 62) = false) as -> by lia.
  assert ((Zascii c =? 38) = false) as -> by lia.
  assert ((Zascii c =? 226) = false) as -> by lia.
  assert (json.is_space c = false) as ->.
  { destruct (json.is_space c) eqn:Hs; [| reflexivity].
    apply space_cases in Hs as [-> | [-> | [-> | ->]]]; discriminate. }
  destruct (Ascii.eqb_spec c dquote) as [-> | ]; [discriminate | reflexivity].
Qed.

Lemma digits_numchar (p : list ascii) :
  forallb json.is_digit p = true -> forallb numchar p = true.
Proof.
  induction p as [| c p IH]; [reflexivity |]. cbn [forallb].
  intros (Hc & Hp)%andb_prop. unfold numchar at 1. rewrite Hc. cbn [orb andb]. auto.
Qed.

Lemma exponent_chars (l r : list ascii) :
  json.exponent l = Some r -> exists p, l = p ++ r /\ forallb numchar p = true.
Proof.
  unfold json.exponent. destruct l as [| c r0]; [intros [= <-]; now exists [] |].
  destruct ((c =? "e")%char || (c =? "E")%char) eqn:He; [| intros [= <-]; now exists []].
  assert (Hc : numchar c = true).
  { unfold numchar. apply orb_prop in He as [-> | ->]; now rewrite ?orb_true_r. }
  assert (Hd : forall d r'', json.is_digit d = true ->
             exists pd, d :: r'' = (d :: pd) ++ json.digits r'' /\
                        forallb numchar (d :: pd) = true).
  { intros d r'' Hdig. destruct (digits_split r'') as (pd & Hsplit & Hpd & _).
    exists pd. split; [simpl; now f_equal |].
    apply (digits_numchar (d :: pd)). simpl. now rewrite Hdig. }
  destruct r0 as [| s r']; [discriminate |].
  destruct ((s =? "+")%char || (s =? "-")%char) eqn:Hs.
  - destruct r' as [| d r'']; [discriminate |].
    destruct (json.is_digit d) eqn:Hdig; [| discriminate]. intros [= <-].
    destruct (Hd d r'' Hdig) as (pd & -> & Hpd). exists (c :: s :: d :: pd).
    split; [reflexivity |]. cbn [forallb]. rewrite Hc. cbn [andb].
    assert (numchar s = true) as ->; [| exact Hpd].
    unfold numchar. apply orb_prop in Hs as [-> | ->]; now rewrite ?orb_true_r.
  - destruct (json.is_digit s) eqn:Hdig; [| discriminate]. intros [= <-].
    destruct (Hd s r' Hdig) as (pd & -> & Hpd). exists (c :: s :: pd).
    split; [reflexivity |]. cbn [forallb]. rewrite Hc. exact Hpd.
Qed.

Lemma fraction_chars (l r : list ascii) :
  json.fraction l = Some r -> exists p, l = p ++ r /\ forallb numchar p = true.
Proof.
  unfold json.fraction. destruct l as [| c r0]; [apply exponent_chars |].
  destruct (c =? ".")%char eqn:Hdot; [| apply exponent_chars].
  apply Ascii.eqb_eq in Hdot as ->.
  destruct r0 as [| d r']; [discriminate |].
  destruct (json.is_digit d) eqn:Hdig; [| discriminate].
  intros (pe & Hpe & Hce)%exponent_chars.
  destruct (digits_split r') as (pd & Hsplit & Hpd & _).
  exists ("."%char :: d :: pd ++ pe). split.
  - simpl. now rewrite <- app_assoc, <- Hpe, <- Hsplit.
  - cbn [forallb]. rewrite forallb_app, Hce, (digits_numchar pd Hpd).
    unfold numchar at 2. now rewrite Hdig.
Qed.

Lemma number_chars (l r : list ascii) :
  json.number l = Some r -> exists p, l = p ++ r /\ forallb numchar p = true.
Proof.
  assert (U : forall l' r',
             match l' with
             | c :: r =>
                 if (c =? "0")%char then json.fraction r
                 else if json.is_digit c then json.fraction (json.digits r)
                 else None
             | [] => None
             end = Some r' ->
             exists p, l' = p ++ r' /\ forallb numchar p = true).
  { intros [| c r0] r'; [discriminate |].
    destruct (c =? "0")%char eqn:H0.
    - apply Ascii.eqb_eq in H0 as ->. intros (pf & -> & Hpf)%fraction_chars.
      exists ("0"%char :: pf). split; [reflexivity |]. cbn [forallb]. now rewrite Hpf.
    - destruct (json.is_digit c) eqn:Hd; [| discriminate].
      intros (pf & Hpf & Hcf)%fraction_chars.
      destruct (digits_split r0) as (pd & Hsplit & Hpd & _).
      exists (c :: pd ++ pf). split.
      + simpl. now rewrite <- app_assoc, <- Hpf, <- Hsplit.
      + cbn [forallb]. rewrite forallb_app, Hcf, (digits_numchar pd Hpd).
        unfold numchar. now rewrite Hd. }
  unfold json.number. destruct l as [| c r0]; [discriminate |].
  destruct (c =? "-")%char eqn:Hm; [| intros H; exact (U (c :: r0) r H)].
  apply Ascii.eqb_eq in Hm as ->. intros (p & -> & Hp)%U.
  exists ("-"%char :: p). split; [reflexivity |]. cbn [forallb]. now rewrite Hp.
Qed.

Lemma scans_head (x : list ascii) :
  scans x ->
  exists c q, x = c :: q /\ json.is_space c = false /\ (c =? "]")%char = false.
Proof.
  intros (Hne & Hrun). destruct x as [| c q]; [contradiction |].
  specialize (Hrun (length (c :: q)) [] (Nat.le_refl _) eq_refl).
  rewrite app_nil_r in Hrun. apply skip_value_head in Hrun as (Hs & Hb). eauto.
Qed.

Ltac flatten := repeat (progress (cbn [app]; rewrite <- ?app_assoc)).

(** A value that the scanner accepted is compacted to a value that it
    accepts; so are the members of an object and the elements of an
    array. *)
Lemma compacts_frame (n : nat) :
  (forall l r, json.skip_value n l = Some r ->
     exists p p', l = p ++ r /\ compacts p p' /\ scans p')
  /\ (forall l r, json.skip_members n l = Some r ->
     exists p p', l = p ++ r /\ compacts p p' /\
       (exists q, p' = dquote :: q) /\
       forall m y, (length p' <= m)%nat -> json.skip_members m (p' ++ y) = Some y)
  /\ (forall l r, json.skip_elements n l = Some r ->
     exists p p', l = p ++ r /\ compacts p p' /\
       (exists c q, p' = c :: q /\ json.is_space c = false /\ (c =? "]")%char = false) /\
       forall m y, (length p' <= m)%nat -> json.skip_elements m (p' ++ y) = Some y).
Proof.
  induction n as [| n (IHv & IHm & IHe)]; [repeat split; discriminate |].
  split; [| split].
  - intros [| c r0] r; [discriminate |]. cbn [json.skip_value].
    destruct (c =? dquote)%char eqn:Hq.
    { apply Ascii.eqb_eq in Hq as ->.
      intros (ps & ps' & -> & Hc & Hs)%compacts_str.
      exists (dquote :: ps), (dquote :: ps'). split; [reflexivity |]. split; [exact Hc |].
      split; [discriminate |]. intros [| m] y Hm _; [simpl in Hm; lia |].
      cbn [app json.skip_value]. rewrite Ascii.eqb_refl. apply Hs. }
    destruct (c =? "{")%char eqn:Ho.
    { apply Ascii.eqb_eq in Ho as ->.
      destruct (skip_ws_split r0) as (ws & Hr0 & Hws).
      destruct (json.skip_ws r0) as [| c' r'] eqn:Hskip; [discriminate |].
      destruct (c' =? "}")%char eqn:Hclose.
      - apply Ascii.eqb_eq in Hclose as ->. intros [= <-].
        exists ("{"%char :: ws ++ ["}"%char]), ["{"%char; "}"%char]. split.
        { rewrite Hr0 at 1. flatten. reflexivity. }
        split.
        { apply (compacts_app ["{"%char] ["{"%char] (ws ++ ["}"%char]) ["}"%char]);
            [now apply compacts_char |].
          apply (compacts_app ws [] ["}"%char] ["}"%char]);
            [now apply compacts_spaces | now apply compacts_char]. }
        split; [discriminate |]. intros [| m] y Hm _; [simpl in Hm; lia |]. reflexivity.
      - intros (pm & pm' & Hl & Hc & (q & ->) & Hrun)%IHm.
        exists ("{"%char :: ws ++ pm), ("{"%char :: dquote :: q). split.
        { rewrite Hr0 at 1. rewrite Hl. flatten. reflexivity. }
        split.
        { apply (compacts_app ["{"%char] ["{"%char] (ws ++ pm) (dquote :: q));
            [now apply compacts_char |].
          apply (compacts_app ws [] pm (dquote :: q)); [now apply compacts_spaces | exact Hc]. }
        split; [discriminate |]. intros [| m] y Hm _; [simpl in Hm; lia |].
        cbn [app json.skip_value]. cbn [Ascii.eqb Bool.eqb].
        change (json.skip_ws (dquote :: q ++ y)) with (dquote :: q ++ y).
        change (dquote =? "}")%char with false. cbn iota.
        apply (Hrun m y). simpl in Hm. simpl. lia. }
    destruct (c =? "[")%char eqn:Ha.
    { apply Ascii.eqb_eq in Ha as ->.
      destruct (skip_ws_split r0) as (ws & Hr0 & Hws).
      destruct (json.skip_ws r0) as [| c' r'] eqn:Hskip; [discriminate |].
      destruct (c' =? "]")%char eqn:Hclose.
      - apply Ascii.eqb_eq in Hclose as ->. intros [= <-].
        exists ("["%char :: ws ++ ["]"%char]), ["["%char; "]"%char]. split.
        { rewrite Hr0 at 1. flatten. reflexivity. }
        split.
        { apply (compacts_app ["["%char] ["["%char] (ws ++ ["]"%char]) ["]"%char]);
            [now apply compacts_char |].
          apply (compacts_app ws [] ["]"%char] ["]"%char]);
            [now apply compacts_spaces | now apply compacts_char]. }
        split; [discriminate |]. intros [| m] y Hm _; [simpl in Hm; lia |]. reflexivity.
      - intros (pe & pe' & Hl & Hc & (c2 & q & -> & Hc2 & Hc2') & Hrun)%IHe.
        exists ("["%char :: ws ++ pe), ("["%char :: c2 :: q). split.
        { rewrite Hr0 at 1. rewrite Hl. flatten. reflexivity. }
        split.
        { apply (compacts_app ["["%char] ["["%char] (ws ++ pe) (c2 :: q));
            [now apply compacts_char |].
          apply (compacts_app ws [] pe (c2 :: q)); [now apply compacts_spaces | exact Hc]. }
        split; [discriminate |]. intros [| m] y Hm _; [simpl in Hm; lia |].
        cbn [app json.skip_value]. cbn [Ascii.eqb Bool.eqb].
        rewrite skip_ws_nonspace by assumption. rewrite Hc2'.
        apply (Hrun m y). simpl in Hm. simpl. lia. }
    assert (Hword : forall w,
               forallb plainchar w = true ->
               (forall m y, json.skip_value (S m) (w ++ y) = json.literal w (w ++ y)) ->
               w <> [] ->
               json.literal w (c :: r0) = Some r ->
               exists p p', c :: r0 = p ++ r /\ compacts p p' /\ scans p').
    { intros w Hplain Hdispatch Hne ->%literal_frame. exists w, w.
      split; [reflexivity |]. split; [now apply compacts_chars |].
      split; [exact Hne |]. intros [| m] y Hm _.
      - destruct w; [contradiction | simpl in Hm; lia].
      - rewrite Hdispatch. apply literal_app. }
    destruct (c =? "t")%char eqn:Ht.
    { apply Hword; [reflexivity | reflexivity | discriminate]. }
    destruct (c =? "f")%char eqn:Hf.
    { apply Hword; [reflexivity | reflexivity | discriminate]. }
    destruct (c =? "n")%char eqn:Hn.
    { apply Hword; [reflexivity | reflexivity | discriminate]. }
    intros H. pose proof (number_chars _ _ H) as (p2 & Hl2 & Hchars).
    apply number_frame in H as (p & Hl & Hne & Hrun).
    assert (p2 = p) as -> by (apply (app_inv_tail r); congruence).
    exists p, p. split; [exact Hl |]. split.
    { apply compacts_chars. apply forallb_forall. intros a Hin.
      apply numchar_plain. eapply forallb_forall in Hchars; eassumption. }
    split; [exact Hne |]. intros [| m] y Hm Hy.
    { destruct p; [contradiction | simpl in Hm; lia]. }
    destruct p as [| c0 p0]; [contradiction |]. simpl in Hl. injection Hl as <- _.
    cbn [app json.skip_value]. rewrite Hq, Ho, Ha, Ht, Hf, Hn. now apply Hrun.
  - intros [| c r0] r; [discriminate |]. cbn [json.skip_members].
    destruct (c =? dquote)%char eqn:Hq; [| discriminate].
    apply Ascii.eqb_eq in Hq as ->.
    destruct (json.str r0) as [r1 |] eqn:Hstr; [| discriminate].
    apply compacts_str in Hstr as (ps & ps' & -> & Hcs & Hs).
    destruct (skip_ws_split r1) as (ws1 & Hr1 & Hws1).
    destruct (json.skip_ws r1) as [| c1 r2] eqn:Hskip1; [discriminate |].
    destruct (c1 =? ":")%char eqn:Hcolon; [| discriminate].
    apply Ascii.eqb_eq in Hcolon as ->.
    destruct (skip_ws_split r2) as (ws2 & Hr2 & Hws2).
    destruct (json.skip_value n (json.skip_ws r2)) as [r3 |] eqn:Hval; [| discriminate].
    destruct (IHv _ _ Hval) as (pv & pv' & Hv & Hcv & Hsv).
    destruct (scans_head pv' Hsv) as (cv & qv & -> & Hcv1 & _).
    destruct Hsv as (_ & Hrunv).
    destruct (skip_ws_split r3) as (ws3 & Hr3 & Hws3).
    destruct (json.skip_ws r3) as [| c3 r4] eqn:Hskip3; [discriminate |].
    assert (Hhead : compacts ((dquote :: ps) ++ ws1 ++ [":"%char] ++ ws2 ++ pv ++ ws3)
                             ((dquote :: ps') ++ [] ++ [":"%char] ++ [] ++ (cv :: qv) ++ [])).
    { repeat apply compacts_app; auto using compacts_spaces, compacts_char. }
    assert (Hl0 : dquote :: ps ++ r1
                  = ((dquote :: ps) ++ ws1 ++ [":"%char] ++ ws2 ++ pv ++ ws3) ++ c3 :: r4).
    { assert (Hr2' : r2 = ws2 ++ pv ++ ws3 ++ c3 :: r4)
        by (rewrite <- Hr3, <- Hv; exact Hr2).
      rewrite Hr1, Hr2'. flatten. reflexivity. }
    assert (Hrun0 : forall m tail c,
               (length (cv :: qv) <= m)%nat -> delimiter c = true ->
               json.is_space c = false ->
               json.skip_members (S m)
                 (((dquote :: ps') ++ [] ++ [":"%char] ++ [] ++ (cv :: qv) ++ []) ++ c :: tail)
               = (if (c =? ",")%char then json.skip_members m (json.skip_ws tail)
                  else if (c =? "}")%char then Some tail else None)).
    { intros m tail c' Hm Hd Hsp. cbn [app]. rewrite app_nil_r. cbn [json.skip_members].
      rewrite Ascii.eqb_refl, <- app_assoc, Hs. cbn [app].
      change (json.skip_ws (":"%char :: cv :: qv ++ c' :: tail))
        with (":"%char :: cv :: qv ++ c' :: tail).
      cbn [Ascii.eqb Bool.eqb]. rewrite skip_ws_nonspace by assumption.
      change (cv :: qv ++ c' :: tail) with ((cv :: qv) ++ c' :: tail).
      rewrite (Hrunv m (c' :: tail) Hm Hd). now rewrite skip_ws_nonspace. }
    pose proof (skip_ws_head _ _ _ Hskip3) as Hc3.
    set (hp := (dquote :: ps) ++ ws1 ++ [":"%char] ++ ws2 ++ pv ++ ws3) in *.
    set (hp' := (dquote :: ps') ++ [] ++ [":"%char] ++ [] ++ (cv :: qv) ++ []) in *.
    assert (Hlen : (length (cv :: qv) < length hp')%nat).
    { unfold hp'. rewrite !length_app. simpl. lia. }
    assert (Hq' : forall z, exists q0, hp' ++ z = dquote :: q0)
      by (intros z; eexists; reflexivity).
    destruct (c3 =? ",")%char eqn:Hcomma.
    + apply Ascii.eqb_eq in Hcomma as ->.
      destruct (skip_ws_split r4) as (ws4 & Hr4 & Hws4).
      intros (pm & pm' & Hm4 & Hcm & (q & ->) & Hrunm)%IHm.
      exists (hp ++ ","%char :: ws4 ++ pm), (hp' ++ ","%char :: dquote :: q). split.
      { rewrite Hl0. rewrite Hr4 at 1. rewrite Hm4. flatten. reflexivity. }
      split.
      { apply compacts_app; [exact Hhead |].
        apply (compacts_app [","%char] [","%char] (ws4 ++ pm) (dquote :: q));
          [now apply compacts_char |].
        apply (compacts_app ws4 [] pm (dquote :: q)); [now apply compacts_spaces | exact Hcm]. }
      split; [apply Hq' |].
      intros [| m] y Hm; [rewrite length_app in Hm; cbn [length] in Hm; lia |].
      rewrite length_app in Hm. cbn [length] in Hm.
      rewrite <- app_assoc. cbn [app].
      rewrite (Hrun0 m (dquote :: q ++ y) ","%char); [| lia | reflexivity | reflexivity].
      cbn [Ascii.eqb Bool.eqb].
      change (json.skip_ws (dquote :: q ++ y)) with (dquote :: q ++ y).
      apply (Hrunm m y). cbn [length] in *. lia.
    + destruct (c3 =? "}")%char eqn:Hclose; [| discriminate].
      apply Ascii.eqb_eq in Hclose as ->. intros [= <-].
      exists (hp ++ ["}"%char]), (hp' ++ ["}"%char]). split.
      { rewrite Hl0. flatten. reflexivity. }
      split; [apply compacts_app; [exact Hhead | now apply compacts_char] |].
      split; [apply Hq' |].
      intros [| m] y Hm; [rewrite length_app in Hm; cbn [length] in Hm; lia |].
      rewrite length_app in Hm. cbn [length] in Hm.
      rewrite <- app_assoc. cbn [app].
      rewrite (Hrun0 m y "}"%char); [reflexivity | lia | reflexivity | reflexivity].
  - intros l r. cbn [json.skip_elements].
    destruct (json.skip_value n l) as [r1 |] eqn:Hval; [| discriminate].
    destruct (IHv _ _ Hval) as (pv & pv' & Hv & Hcv & Hsv).
    destruct (scans_head pv' Hsv) as (cv & qv & -> & Hcv1 & Hcv2).
    destruct Hsv as (_ & Hrunv).
    destruct (skip_ws_split r1) as (ws1 & Hr1 & Hws1).
    destruct (json.skip_ws r1) as [| c1 r2] eqn:Hskip1; [discriminate |].
    assert (Hhead : compacts (pv ++ ws1) ((cv :: qv) ++ [])).
    { apply compacts_app; auto using compacts_spaces. }
    assert (Hl0 : l = (pv ++ ws1) ++ c1 :: r2).
    { rewrite Hv. rewrite Hr1 at 1. flatten. reflexivity. }
    assert (Hrun0 : forall m tail c,
               (length (cv :: qv) <= m)%nat -> delimiter c = true ->
               json.is_space c = false ->
               json.skip_elements (S m) (((cv :: qv) ++ []) ++ c :: tail)
               = (if (c =? ",")%char then json.skip_elements m (json.skip_ws tail)
                  else if (c =? "]")%char then Some tail else None)).
    { intros m tail c' Hm Hd Hsp. rewrite app_nil_r. cbn [json.skip_elements].
      rewrite (Hrunv m (c' :: tail) Hm Hd). now rewrite skip_ws_nonspace. }
    set (hp := pv ++ ws1) in *.
    set (hp' := (cv :: qv) ++ []) in *.
    assert (Hlen : (length (cv :: qv) <= length hp')%nat).
    { unfold hp'. rewrite !length_app. simpl. lia. }
    assert (Hq' : forall z, exists c q0,
                 hp' ++ z = c :: q0 /\ json.is_space c = false /\ (c =? "]")%char = false)
      by (intros z; exists cv; eexists; split; [reflexivity | auto]).
    destruct (c1 =? ",")%char eqn:Hcomma.
    + apply Ascii.eqb_eq in Hcomma as ->.
      destruct (skip_ws_split r2) as (ws2 & Hr2 & Hws2).
      intros (pe & pe' & He & Hce & (c2 & q & -> & Hc2 & Hc2') & Hrune)%IHe.
      exists (hp ++ ","%char :: ws2 ++ pe), (hp' ++ ","%char :: c2 :: q). split.
      { rewrite Hl0. rewrite Hr2 at 1. rewrite He. flatten. reflexivity. }
      split.
      { apply compacts_app; [exact Hhead |].
        apply (compacts_app [","%char] [","%char] (ws2 ++ pe) (c2 :: q));
          [now apply compacts_char |].
        apply (compacts_app ws2 [] pe (c2 :: q)); [now apply compacts_spaces | exact Hce]. }
      split; [apply Hq' |].
      intros [| m] y Hm; [rewrite length_app in Hm; cbn [length] in Hm; lia |].
      rewrite length_app in Hm. cbn [length] in Hm.
      rewrite <- app_assoc. cbn [app].
      rewrite (Hrun0 m (c2 :: q ++ y) ","%char); [| lia | reflexivity | reflexivity].
      cbn [Ascii.eqb Bool.eqb]. rewrite skip_ws_nonspace by assumption.
      apply (Hrune m y). cbn [length] in *. lia.
    + destruct (c1 =? "]")%char eqn:Hclose; [| discriminate].
      apply Ascii.eqb_eq in Hclose as ->. intros [= <-].
      exists (hp ++ ["]"%char]), (hp' ++ ["]"%char]). split.
      { rewrite Hl0. flatten. reflexivity. }
      split; [apply compacts_app; [exact Hhead | now apply compacts_char] |].
      split; [apply Hq' |].
      intros [| m] y Hm; [rewrite length_app in Hm; cbn [length] in Hm; lia |].
      rewrite length_app in Hm. cbn [length] in Hm.
      rewrite <- app_assoc. cbn [app].
      rewrite (Hrun0 m y "]"%char); [reflexivity | lia | reflexivity | reflexivity].
Qed.

Lemma skip_ws_spaces_only (r : list ascii) :
  json.skip_ws r = [] -> forallb json.is_space r = true.
Proof.
  intros H. destruct (skip_ws_split r) as (ws & Hr & Hws).
  rewrite H, app_nil_r in Hr. now subst.
Qed.

(** A raw message that [Marshal] accepts is written as a value. *)
Lemma encode_Raw (m : list byte) : marshals (json.Raw m).
Proof.
  intros x. cbn [json.encode]. unfold json.compact.
  destruct (json.Valid (json.of_bytes m)) eqn:HV; [| discriminate]. intros [= <-].
  fold (compacted false false (json.of_bytes m)).
  unfold json.Valid in HV. set (l := json.of_bytes m) in *.
  destruct (skip_ws_split l) as (ws & Hl & Hws).
  destruct (json.skip_value _ (json.skip_ws l)) as [r |] eqn:Hval; [| discriminate].
  destruct (json.skip_ws r) eqn:Hr; [| discriminate].
  apply skip_ws_spaces_only in Hr.
  destruct (compacts_frame (S (length l))) as (Hv & _).
  apply Hv in Hval as (p & p' & Hp & Hc & Hs).
  assert (compacts l ([] ++ p' ++ [])) as Hall.
  { rewrite Hl, Hp. repeat apply compacts_app; auto using compacts_spaces. }
  specialize (Hall []). rewrite !app_nil_r in Hall. cbn [app] in Hall.
  now rewrite Hall.
Qed.

(** *** Arrays and objects *)

Lemma commas_cons (x : list ascii) (xs : list (list ascii)) :
  json.commas (x :: xs)
  = x ++ match xs with [] => [] | _ :: _ => ","%char :: json.commas xs end.
Proof. destruct xs; simpl; [now rewrite app_nil_r | reflexivity]. Qed.

Lemma all_ok_Forall2 {A B} (g : A -> error + B) (l : list A) :
  forall xs, json.all_ok (map g l) = inr xs -> Forall2 (fun a x => g a = inr x) l xs.
Proof.
  induction l as [| a l IH]; simpl; intros xs.
  - intros [= <-]. constructor.
  - destruct (g a) as [e | x] eqn:Ha; [discriminate |].
    destruct (json.all_ok (map g l)) as [e | xs']; [discriminate |].
    intros [= <-]. constructor; auto.
Qed.

(** The elements of an array, up to its closing bracket. *)
Lemma elements_scan (xs : list (list ascii)) :
  Forall scans xs -> xs <> [] ->
  forall m y,
    (length (json.commas xs) < m)%nat ->
    json.skip_elements m (json.commas xs ++ "]"%char :: y) = Some y.
Proof.
  induction 1 as [| x xs Hx Hxs IH]; [contradiction |]. intros _ m y Hm.
  rewrite commas_cons in *. rewrite length_app in Hm.
  destruct (scans_head x Hx) as (c & q & -> & Hc & _). destruct Hx as (_ & Hrun).
  destruct m as [| m]; [lia |]. cbn [json.skip_elements]. rewrite <- app_assoc.
  destruct xs as [| x2 xs].
  - cbn [app]. change (c :: q ++ "]"%char :: y) with ((c :: q) ++ "]"%char :: y).
    rewrite Hrun; [reflexivity | simpl in *; lia | reflexivity].
  - cbn [app]. change (c :: q ++ ?t) with ((c :: q) ++ t).
    rewrite Hrun; [| simpl in *; lia | reflexivity].
    cbn [json.skip_ws json.is_space Ascii.eqb Bool.eqb orb].
    pose proof (Forall_inv Hxs) as Hx2. destruct (scans_head x2 Hx2) as (c2 & q2 & E2 & Hc2 & _).
    assert (Hhead : exists t, json.commas (x2 :: xs) ++ "]"%char :: y = c2 :: t).
    { rewrite commas_cons, E2. eexists. reflexivity. }
    destruct Hhead as (t & Ht). rewrite Ht, skip_ws_nonspace by assumption. rewrite <- Ht.
    apply IH; [discriminate |]. cbn [length] in Hm. lia.
Qed.

Lemma quote_key (k : string) :
  exists body,
    json.quote k = dquote :: body /\ forall rest, json.str (body ++ rest) = Some rest.
Proof.
  exists (json.quote_body (String.length k) (map Zascii (chars k)) ++ [dquote]).
  split; [reflexivity |]. intros rest. rewrite <- app_assoc. apply str_quote_body.
  apply Forall_forall. intros b (a & -> & _)%elem_of_map. apply Zascii_range.
Qed.

(** One member of an object, and the comma or the brace after it. *)
Lemma skip_members_step (k : string) (x : list ascii) (c3 : ascii) (tail : list ascii)
      (m : nat) :
  scans x -> (length x <= m)%nat ->
  delimiter c3 = true -> json.is_space c3 = false ->
  json.skip_members (S m) (json.quote k ++ ":"%char :: x ++ c3 :: tail)
  = (if (c3 =? ",")%char then json.skip_members m (json.skip_ws tail)
     else if (c3 =? "}")%char then Some tail else None).
Proof.
  intros Hx Hm Hd Hs.
  destruct (scans_head x Hx) as (c & q & -> & Hc & _). destruct Hx as (_ & Hrun).
  destruct (quote_key k) as (body & -> & Hstr).
  cbn [app json.skip_members]. rewrite Ascii.eqb_refl, Hstr.
  change (json.skip_ws (":"%char :: c :: q ++ c3 :: tail))
    with (":"%char :: c :: q ++ c3 :: tail).
  cbn [Ascii.eqb Bool.eqb]. rewrite skip_ws_nonspace by assumption.
  change (c :: q ++ c3 :: tail) with ((c :: q) ++ c3 :: tail).
  rewrite (Hrun m (c3 :: tail) Hm Hd). now rewrite skip_ws_nonspace.
Qed.

(** The members of an object, up to its closing brace. *)
Lemma members_scan (kxs : list (string * list ascii)) :
  Forall (fun kx => scans (snd kx)) kxs -> kxs <> [] ->
  forall m y,
    (length (json.commas (map (fun kx => json.quote (fst kx) ++ ":"%char :: snd kx) kxs)) < m)%nat ->
    json.skip_members m
      (json.commas (map (fun kx => json.quote (fst kx) ++ ":"%char :: snd kx) kxs)
       ++ "}"%char :: y)
    = Some y.
Proof.
  set (f := fun kx : string * list ascii => json.quote (fst kx) ++ ":"%char :: snd kx).
  induction 1 as [| [k x] kxs Hx Hxs IH]; [contradiction |]. intros _ m y Hm.
  cbn [map] in *. rewrite commas_cons in *. rewrite length_app in Hm.
  unfold f at 1 in Hm. unfold f at 1. cbn [fst snd] in *.
  destruct (scans_head x Hx) as (c & q & Ex & _).
  destruct (quote_key k) as (body & Hk & _).
  assert (Hlen : (length x < m)%nat).
  { rewrite length_app, Hk in Hm. cbn [length] in Hm. lia. }
  destruct m as [| m]; [lia |].
  destruct kxs as [| [k2 x2] kxs]; cbn [map]; cbn iota; flatten.
  - rewrite skip_members_step; [reflexivity | assumption | lia | reflexivity | reflexivity].
  - rewrite skip_members_step; [| assumption | lia | reflexivity | reflexivity].
    cbn [Ascii.eqb Bool.eqb].
    assert (Hhead : exists t,
               json.commas (f (k2, x2) :: map f kxs) ++ "}"%char :: y = dquote :: t).
    { rewrite commas_cons. unfold f at 1. cbn [fst].
      destruct (quote_key k2) as (body2 & -> & _). eexists. reflexivity. }
    destruct Hhead as (t & Ht). rewrite Ht.
    change (json.skip_ws (dquote :: t)) with (dquote :: t). rewrite <- Ht.
    apply IH; [discriminate |].
    cbn [map] in Hm. cbn iota in Hm. rewrite length_app, Hk, Ex in Hm.
    cbn [length map] in Hm |- *. lia.
Qed.

Lemma Forall2_scans {A} (g : A -> error + list ascii) (l : list A) (xs : list (list ascii)) :
  Forall (fun a => forall x, g a = inr x -> scans x) l ->
  Forall2 (fun a x => g a = inr x) l xs ->
  Forall scans xs.
Proof.
  intros Hl H2. induction H2 as [| a x l xs Hax _ IH]; [constructor |].
  apply Forall_cons in Hl as (Ha & Hl). constructor; auto.
Qed.

Lemma encode_Arr_scans (l : list json.value) :
  Forall marshals l -> marshals (json.Arr l).
Proof.
  intros Hl x. cbn [json.encode].
  destruct (json.all_ok (map json.encode l)) as [e | xs] eqn:Hall; [discriminate |].
  intros [= <-]. apply all_ok_Forall2 in Hall.
  pose proof (Forall2_scans json.encode l xs Hl Hall) as Hxs.
  split; [discriminate |]. intros [| m] y Hm _; [simpl in Hm; lia |].
  cbn [app json.skip_value]. cbn [Ascii.eqb Bool.eqb].
  destruct xs as [| x xs]; [reflexivity |].
  pose proof (Forall_inv Hxs) as Hx. destruct (scans_head x Hx) as (c & q & E & Hc & Hc').
  rewrite <- app_assoc. cbn [app].
  assert (Hhead : exists t, json.commas (x :: xs) ++ "]"%char :: y = c :: t).
  { rewrite commas_cons, E. eexists. reflexivity. }
  destruct Hhead as (t & Ht). rewrite Ht, skip_ws_nonspace, Hc' by assumption.
  rewrite <- Ht. apply elements_scan; [assumption | discriminate |].
  cbn [length] in Hm. rewrite length_app in Hm. cbn [length] in Hm. lia.
Qed.

Lemma encode_Obj_scans (l : list (string * json.value)) :
  Forall (fun kv => marshals (snd kv)) l -> marshals (json.Obj l).
Proof.
  intros Hl x. rewrite encode_Obj.
  destruct (json.all_ok (map member l)) as [e | xs] eqn:Hall; [discriminate |].
  intros [= <-]. apply all_ok_Forall2 in Hall.
  assert (exists kxs, xs = map (fun kx => json.quote (fst kx) ++ ":"%char :: snd kx) kxs /\
                      Forall (fun kx => scans (snd kx)) kxs) as (kxs & -> & Hkxs).
  { induction Hall as [| [k v] x l xs Hx _ IH]; [now exists [] |].
    apply Forall_cons in Hl as (Hv & Hl). destruct (IH Hl) as (kxs & -> & Hkxs).
    unfold member in Hx. cbn [fst snd] in *.
    destruct (json.encode v) as [e | xv] eqn:Hxv; [discriminate |]. injection Hx as <-.
    exists ((k, xv) :: kxs). split; [reflexivity |]. constructor; auto. }
  split; [discriminate |]. intros [| m] y Hm _; [simpl in Hm; lia |].
  cbn [app json.skip_value]. cbn [Ascii.eqb Bool.eqb].
  destruct kxs as [| [k xv] kxs]; [reflexivity |].
  rewrite <- app_assoc. cbn [app].
  assert (Hhead : exists t,
             json.commas (map (fun kx => json.quote (fst kx) ++ ":"%char :: snd kx)
                              ((k, xv) :: kxs)) ++ "}"%char :: y = dquote :: t).
  { cbn [map]. rewrite commas_cons. eexists. reflexivity. }
  destruct Hhead as (t & Ht). rewrite Ht.
  change (json.skip_ws (dquote :: t)) with (dquote :: t).
  change (dquote =? "}")%char with false. cbn iota. rewrite <- Ht.
  apply members_scan; [assumption | discriminate |].
  cbn [length] in Hm. rewrite length_app in Hm. cbn [length] in Hm. lia.
Qed.

(** Whatever [Marshal] writes is one JSON value. *)
Lemma encode_scans : forall v : json.value, marshals v.
Proof.
  fix IH 1. intros [| s | z | m | l | l].
  - intros x [= <-]. split; [discriminate |].
    intros [| n] y Hn _; [simpl in Hn; lia | reflexivity].
  - intros x [= <-]. split; [discriminate |].
    intros [| n] y Hn _; [unfold json.quote in Hn; simpl in Hn; lia |].
    apply skip_value_quote.
  - apply encode_Num.
  - apply encode_Raw.
  - apply encode_Arr_scans. induction l as [| v l IHl]; constructor; [apply IH | exact IHl].
  - apply encode_Obj_scans.
    induction l as [| [k v] l IHl]; constructor; [apply IH | exact IHl].
Qed.

Lemma Marshal_Valid (v : json.value) (b : list byte) :
  json.Marshal v = inr b -> json.Valid (json.of_bytes b) = true.
Proof.
  unfold json.Marshal. destruct (json.encode v) as [e | x] eqn:Hx; [discriminate |].
  intros [= <-]. rewrite of_bytes_to_bytes.
  destruct (scans_head x (encode_scans v x Hx)) as (c & q & -> & Hc & _).
  destruct (encode_scans v _ Hx) as (_ & Hrun).
  unfold json.Valid. rewrite skip_ws_nonspace by assumption.
  specialize (Hrun (S (length (c :: q))) [] ltac:(lia) eq_refl).
  rewrite app_nil_r in Hrun. now rewrite Hrun.
Qed.

(** X10. Every JSON file that the writer puts in the archive is one JSON
    value for [json.Valid]: the [json] file of every layer, with the
    raw messages of the image configuration in that of the last layer,
    the [repositories] file and [manifest.json]. *)
Theorem json_files_are_json :
  (forall (layers : list manifest.Schema2Descriptor) (configBytes : list byte)
          (w w' : Writer) (paths : slice string) (lastID : string),
      writeLegacyLayerMetadata layers configBytes w = (w', Ret (paths, lastID, None)) ->
      exists outs,
        length outs = length layers /\
        archive w' = archive w ++ flat_map layer_entries outs /\
        Forall (fun o => json.Valid (json.of_bytes (lo_json o)) = true) outs) /\
  (forall (rootLayerID : string) (repoTags : list reference.NamedTagged) (w w' : Writer),
      createRepositoriesFile rootLayerID repoTags w = (w', None) ->
      exists b,
        archive w' = archive w ++ [file_entry legacyRepositoriesFileName b] /\
        json.Valid (json.of_bytes b) = true) /\
  (forall (configDigest : string) (layerPaths : slice string)
          (repoTags : list reference.NamedTagged) (w w' : Writer),
      createManifest configDigest layerPaths repoTags w = (w', Ret None) ->
      exists b,
        archive w' = archive w ++ [file_entry manifestFileName b] /\
        json.Valid (json.of_bytes b) = true).
Proof.
  split; [| split].
  - intros layers configBytes w w' paths lastID Hrun.
    apply legacy_run in Hrun as (outs & Hlen & Ha & _ & _ & _ & Hfacts).
    exists outs. do 2 (split; [assumption |]).
    apply Forall_lookup. intros k o Ho.
    destruct (lookup_lt_is_Some_2 layers k) as (l & Hl).
    { rewrite <- Hlen. eapply lookup_lt_Some, Ho. }
    destruct (Hfacts k l o Hl Ho) as (_ & _ & _ & Hm).
    eapply Marshal_Valid, Hm.
  - intros rootLayerID repoTags w w'.
    destruct (createRepositoriesFile_run rootLayerID repoTags w) as (b & Hb & ->).
    destruct (sendBytes _ b w) as [w1 [e |]] eqn:Hs; intros [= <-].
    apply sendBytes_ok in Hs as (Ha & _). exists b. split; [exact Ha |].
    eapply Marshal_Valid, Hb.
  - intros configDigest layerPaths repoTags w w' H.
    destruct (digest.Hex configDigest) as [h |] eqn:Hh.
    + destruct (createManifest_run configDigest h layerPaths repoTags w Hh) as (b & Hb & Hrun).
      rewrite Hrun in H. exists b.
      destruct (sendBytes _ b w) as [w1 e] eqn:Hs. simpl in H.
      assert (w1 = w' /\ e = None) as (-> & ->) by (split; congruence).
      apply sendBytes_ok in Hs as (Ha & _). split; [exact Ha |].
      eapply Marshal_Valid, Hb.
    + unfold createManifest, configPath in H. rewrite Hh in H. discriminate H.
Qed.

(** The [repositories] file for a tag whose name has a character that
    is escaped. *)
Lemma json_files_are_json_witness :
  let tags := [ {| reference.Name := "example.com/a<b"; reference.Tag := "v1" |} ] in
  exists b,
    archive (fst (createRepositoriesFile "ab" tags (NewWriter {| tar.quota := None |})))
    = [file_entry legacyRepositoriesFileName b] /\
    json.Valid (json.of_bytes b) = true.
Proof.
  intros tags. destruct json_files_are_json as (_ & H & _).
  apply (H "ab" tags (NewWriter {| tar.quota := None |})). reflexivity.
Defined.

(** ** The same input gives the same entries *)

Lemma layer_spec_unique n configBytes i l v o1 v1 o2 v2 :
  layer_spec n configBytes i l v o1 v1 ->
  layer_spec n configBytes i l v o2 v2 ->
  o1 = o2 /\ v1 = v2.
Proof.
  intros (Hid1 & Hp1 & -> & Hc1 & Hj1) (Hid2 & Hp2 & -> & Hc2 & Hj2).
  assert (lo_id o1 = lo_id o2) as Eid by congruence.
  assert (lo_path o1 = lo_path o2) as Ep by congruence.
  assert (lo_config o1 = lo_config o2) as Ec.
  { destruct (i =? n - 1).
    - destruct Hc1 as (c1 & Hu1 & ->). destruct Hc2 as (c2 & Hu2 & ->). congruence.
    - congruence. }
  assert (lo_json o1 = lo_json o2) as Ej by congruence.
  split; [destruct o1, o2; simpl in *; congruence | congruence].
Qed.

Lemma trace_unique n configBytes ls :
  forall i v outs1 v1 outs2 v2,
    trace n configBytes i ls v outs1 v1 ->
    trace n configBytes i ls v outs2 v2 ->
    outs1 = outs2 /\ v1 = v2.
Proof.
  induction ls as [| l ls IH]; intros i v [| o1 outs1] v1 [| o2 outs2] v2; simpl;
    try contradiction.
  - intros -> ->. auto.
  - intros (va & Ha & Hta) (vb & Hb & Htb).
    destruct (layer_spec_unique _ _ _ _ _ _ _ _ _ Ha Hb) as (-> & ->).
    destruct (IH _ _ _ _ _ _ Hta Htb) as (-> & ->). auto.
Qed.

(** X11. What [writeLegacyLayerMetadata], [createRepositoriesFile] and
    [createManifest] add to the archive, when they return without
    error, depends on their arguments only: two writers, whatever they
    hold and whatever they wrote before, receive the same entries, byte
    for byte, and the same paths and ID are returned. *)
Theorem entries_are_reproducible :
  (forall (layers : list manifest.Schema2Descriptor) (configBytes : list byte)
          (w1 w1' w2 w2' : Writer) (paths1 paths2 : slice string) (id1 id2 : string),
      writeLegacyLayerMetadata layers configBytes w1 = (w1', Ret (paths1, id1, None)) ->
      writeLegacyLayerMetadata layers configBytes w2 = (w2', Ret (paths2, id2, None)) ->
      paths1 = paths2 /\ id1 = id2 /\
      exists new, archive w1' = archive w1 ++ new /\ archive w2' = archive w2 ++ new) /\
  (forall (rootLayerID : string) (repoTags : list reference.NamedTagged)
          (w1 w1' w2 w2' : Writer),
      createRepositoriesFile rootLayerID repoTags w1 = (w1', None) ->
      createRepositoriesFile rootLayerID repoTags w2 = (w2', None) ->
      exists new, archive w1' = archive w1 ++ new /\ archive w2' = archive w2 ++ new) /\
  (forall (configDigest : string) (layerPaths : slice string)
          (repoTags : list reference.NamedTagged) (w1 w1' w2 w2' : Writer),
      createManifest configDigest layerPaths repoTags w1 = (w1', Ret None) ->
      createManifest configDigest layerPaths repoTags w2 = (w2', Ret None) ->
      exists new, archive w1' = archive w1 ++ new /\ archive w2' = archive w2 ++ new).
Proof.
  split; [| split].
  - intros layers configBytes w1 w1' w2 w2' paths1 paths2 id1 id2.
    unfold writeLegacyLayerMetadata.
    destruct (layers_from _ _ _ _ _ w1) as [wa [va | ra | pa]] eqn:H1;
      destruct (layers_from _ _ _ _ _ w2) as [wb [vb | rb | pb]] eqn:H2;
      intros E1 E2; try discriminate;
      try (apply layers_from_return in H1 as (? & ? & ->); discriminate);
      try (apply layers_from_return in H2 as (? & ? & ->); discriminate).
    apply layers_from_ok in H1 as (outs1 & Ht1 & Ha1 & _).
    apply layers_from_ok in H2 as (outs2 & Ht2 & Ha2 & _).
    destruct (trace_unique _ _ _ _ _ _ _ _ _ Ht1 Ht2) as (-> & ->).
    simplify_eq. eauto 10.
  - intros rootLayerID repoTags w1 w1' w2 w2'.
    destruct (createRepositoriesFile_run rootLayerID repoTags w1) as (b1 & Hb1 & ->).
    destruct (createRepositoriesFile_run rootLayerID repoTags w2) as (b2 & Hb2 & ->).
    assert (b2 = b1) as -> by congruence.
    destruct (sendBytes _ b1 w1) as [wa [e |]] eqn:H1; intros [= <-].
    destruct (sendBytes _ b1 w2) as [wb [e |]] eqn:H2; intros [= <-].
    apply sendBytes_ok in H1 as (Ha1 & _). apply sendBytes_ok in H2 as (Ha2 & _). eauto.
  - intros configDigest layerPaths repoTags w1 w1' w2 w2' E1 E2.
    destruct (digest.Hex configDigest) as [h |] eqn:Hh.
    + destruct (createManifest_run configDigest h layerPaths repoTags w1 Hh) as (b1 & Hb1 & R1).
      destruct (createManifest_run configDigest h layerPaths repoTags w2 Hh) as (b2 & Hb2 & R2).
      assert (b2 = b1) as -> by congruence.
      rewrite R1 in E1. rewrite R2 in E2.
      destruct (sendBytes _ b1 w1) as [wa ea] eqn:H1.
      destruct (sendBytes _ b1 w2) as [wb eb] eqn:H2. simpl in E1, E2.
      assert (wa = w1' /\ ea = None /\ wb = w2' /\ eb = None) as (-> & -> & -> & ->)
          by (repeat split; congruence).
      apply sendBytes_ok in H1 as (Ha1 & _). apply sendBytes_ok in H2 as (Ha2 & _). eauto.
    + unfold createManifest, configPath in E1. rewrite Hh in E1. discriminate E1.
Qed.

(** A new writer, and a writer that holds a file and a recorded blob. *)
Lemma entries_are_reproducible_witness :
  let l0 := {| manifest.MediaType := ""; manifest.Size := 1; manifest.Digest := "sha256:ab" |} in
  let w1 := NewWriter {| tar.quota := None |} in
  let w2 := recordBlob {| types.Digest := "sha256:ab"; types.Size := 1 |}
                       (fst (sendBytes "ab.tar" (bytes_of_string "x") w1)) in
  let r1 := writeLegacyLayerMetadata [l0] (bytes_of_string "{}") w1 in
  let r2 := writeLegacyLayerMetadata [l0] (bytes_of_string "{}") w2 in
  exists new, archive (fst r1) = archive w1 ++ new /\ archive (fst r2) = archive w2 ++ new.
Proof.
  intros l0 w1 w2 r1 r2. destruct entries_are_reproducible as (H & _).
  destruct (H [l0] (bytes_of_string "{}") w1 (fst r1) w2 (fst r2)
              (Slice ["ab.tar"]) (Slice ["ab.tar"]) "ab" "ab") as (_ & _ & Hnew);
    [vm_compute; reflexivity | vm_compute; reflexivity | exact Hnew].
Defined.

(** ** The order of the tags *)

Lemma repositories_inner (rootLayerID : string) (repoTags : list reference.NamedTagged)
      (name : string) (inner : gmap string string) :
  repositories_of rootLayerID repoTags !! name = Some inner -> inner <> ∅.
Proof.
  revert inner. induction repoTags as [| t repoTags IH] using rev_ind; intros inner.
  - unfold repositories_of. simpl. now rewrite lookup_empty.
  - rewrite repositories_of_snoc. cbv zeta.
    set (m := repositories_of rootLayerID repoTags) in *.
    destruct (m !! reference.Name t) as [val |] eqn:Hval;
      (destruct (decide (name = reference.Name t)) as [-> | Hne];
       [rewrite lookup_insert_eq; intros [= <-] | rewrite lookup_insert_ne by congruence; apply IH]).
    + apply insert_non_empty.
    + apply insert_non_empty.
Qed.

Lemma repositories_of_set (rootLayerID : string)
      (tags1 tags2 : list reference.NamedTagged) :
  (forall t, t ∈ tags1 -> t ∈ tags2) ->
  forall name inner1,
    repositories_of rootLayerID tags1 !! name = Some inner1 ->
    exists inner2,
      repositories_of rootLayerID tags2 !! name = Some inner2 /\
      forall tag x, inner1 !! tag = Some x -> inner2 !! tag = Some x.
Proof.
  intros Hsub name inner1 H1.
  assert (Hin : forall tag x, inner1 !! tag = Some x ->
                              tag_id (repositories_of rootLayerID tags2) name tag = Some x).
  { intros tag x Hx.
    assert (tag_id (repositories_of rootLayerID tags1) name tag = Some x) as Ht
        by (unfold tag_id; rewrite H1; exact Hx).
    apply tag_id_repositories in Ht as (-> & t & Hin & Hn & Htag).
    apply tag_id_repositories. split; [reflexivity |]. exists t. auto. }
  destruct (map_choose inner1) as (tag & x & Hx).
  { eapply repositories_inner, H1. }
  pose proof (Hin tag x Hx) as Ht. unfold tag_id in Ht.
  destruct (repositories_of rootLayerID tags2 !! name) as [inner2 |] eqn:H2;
    [| discriminate Ht].
  exists inner2. split; [reflexivity |]. intros tag' x' Hx'.
  specialize (Hin tag' x' Hx'). unfold tag_id in Hin. now rewrite H2 in Hin.
Qed.

(** X12. The [repositories] file depends on the set of the tags only, not on
    their order and not on how often one is given, since every tag gets
    the same ID: two lists with the same tags give the same call. *)
Theorem repositories_ignore_order (rootLayerID : string)
        (tags1 tags2 : list reference.NamedTagged) (w : Writer) :
  (forall t, t ∈ tags1 <-> t ∈ tags2) ->
  repositories_of rootLayerID tags1 = repositories_of rootLayerID tags2 /\
  createRepositoriesFile rootLayerID tags1 w = createRepositoriesFile rootLayerID tags2 w.
Proof.
  intros Hsame.
  assert (repositories_of rootLayerID tags1 = repositories_of rootLayerID tags2) as Heq.
  { apply map_eq. intros name.
    pose proof (repositories_of_set rootLayerID tags1 tags2 (fun t => proj1 (Hsame t)) name)
      as H12.
    pose proof (repositories_of_set rootLayerID tags2 tags1 (fun t => proj2 (Hsame t)) name)
      as H21.
    destruct (repositories_of rootLayerID tags1 !! name) as [i1 |] eqn:E1.
    - destruct (H12 i1 eq_refl) as (i2 & E2 & Hsub12). rewrite E2.
      destruct (H21 i2 E2) as (i1' & [= <-] & Hsub21).
      f_equal. apply map_eq. intros tag.
      destruct (i1 !! tag) as [x |] eqn:Ex.
      + symmetry. now apply Hsub12.
      + destruct (i2 !! tag) as [x |] eqn:Ex2; [| reflexivity].
        apply Hsub21 in Ex2. congruence.
    - destruct (repositories_of rootLayerID tags2 !! name) as [i2 |] eqn:E2; [| reflexivity].
      destruct (H21 i2 eq_refl) as (i1 & [=] & _). }
  split; [exact Heq |]. unfold createRepositoriesFile. now rewrite Heq.
Qed.

(** Two tags, and the same two the other way round with one of them
    twice. *)
Lemma repositories_ignore_order_witness :
  let a := {| reference.Name := "example.com/app"; reference.Tag := "v1" |} in
  let b := {| reference.Name := "example.com/app"; reference.Tag := "latest" |} in
  let w := NewWriter {| tar.quota := None |} in
  createRepositoriesFile "ab" [a; b] w = createRepositoriesFile "ab" [b; a; b] w.
Proof.
  intros a b w. apply (repositories_ignore_order "ab" [a; b] [b; a; b] w).
  intros t. rewrite !elem_of_cons, !elem_of_nil. tauto.
Defined.

(** ** An image without tags and without layers *)

(** X13. With no tag, [RepoTags] is written as an empty array; with the
    [nil] paths that [writeLegacyLayerMetadata] returns for no layers,
    [Layers] is written as [null], and as an empty array only for a
    slice that is empty without being [nil]. *)
Theorem manifest_without_tags_or_layers (configDigest h : string) (w : Writer) :
  digest.Hex configDigest = Ret h ->
  ready (tar w) ->
  (exists w',
      createManifest configDigest Nil [] w = (w', Ret None) /\
      archive w'
      = archive w
        ++ [file_entry manifestFileName
              (json.to_bytes (chars (dq "[{'Config':") ++ json.quote (h +:+ ".json")
                              ++ chars (dq ",'RepoTags':[],'Layers':null}]")))]) /\
  (exists w',
      createManifest configDigest (Slice []) [] w = (w', Ret None) /\
      archive w'
      = archive w
        ++ [file_entry manifestFileName
              (json.to_bytes (chars (dq "[{'Config':") ++ json.quote (h +:+ ".json")
                              ++ chars (dq ",'RepoTags':[],'Layers':[]}]")))]).
Proof.
  intros Hh Hr.
  assert (forall paths b,
             json.Marshal (json.Arr [of_ManifestItem (manifest_item (h +:+ ".json") paths [])])
             = inr b ->
             exists w', createManifest configDigest paths [] w = (w', Ret None) /\
                        archive w' = archive w ++ [file_entry manifestFileName b]) as Hrun.
  { intros paths b Hb.
    destruct (createManifest_run configDigest h paths [] w Hh) as (b' & Hb' & ->).
    assert (b' = b) as -> by congruence.
    destruct (sendBytes_ready manifestFileName b w Hr (manifest_header_ok b)) as (w' & Hs & _).
    rewrite Hs. exists w'. apply sendBytes_ok in Hs as (Ha & _). auto. }
  assert (json.quote "Config" = chars (dq "'Config'")) as EC by (vm_compute; reflexivity).
  assert (json.quote "RepoTags" = chars (dq "'RepoTags'")) as ER by (vm_compute; reflexivity).
  assert (json.quote "Layers" = chars (dq "'Layers'")) as EL by (vm_compute; reflexivity).
  split; apply Hrun; unfold json.Marshal, of_ManifestItem, manifest_item;
    cbn -[json.quote String.append json.to_bytes json.commas chars dq].
  all: generalize (json.quote (h +:+ ".json")); intros Q; do 2 f_equal.
  all: rewrite EC, ER, EL; cbn; rewrite <- ?app_assoc; reflexivity.
Qed.

(** The config digest [sha256:ef] on a new writer. *)
Lemma manifest_without_tags_or_layers_witness :
  exists w',
    createManifest "sha256:ef" Nil [] (NewWriter {| tar.quota := None |}) = (w', Ret None) /\
    archive w'
    = [file_entry manifestFileName
         (bytes_of_string (dq "[{'Config':'ef.json','RepoTags':[],'Layers':null}]"))].
Proof.
  destruct (manifest_without_tags_or_layers "sha256:ef" "ef" (NewWriter {| tar.quota := None |}))
    as ((w' & H1 & H2) & _); [reflexivity | repeat split |].
  exists w'. split; [exact H1 |]. rewrite H2. vm_compute. reflexivity.
Defined.
